(** * Group lifecycle tracker: a Rocq model of [src/video_processor.py]

    The development embeds the stateful core of [VideoProcessor]: the
    grouping of one frame's detections by cluster label
    ([process_single_frame], lines 88-98), the table [active_groups] and
    the rows appended to the CSV event log (lines 100-143),
    [_log_final_dwell_times], and the generator
    [process_video_and_yield_frames] that drives them.

    External collaborators are kept outside the model:
    - the person detector and the tracker: a frame is given as what they
      deliver for it (the value of [detections] after line 82): the
      detections, each with its anchor and an optional track identity, and
      whether [detections.tracker_id] is an array at all;
    - the density clusterer ([DBSCAN(eps=75, min_samples=3).fit_predict]):
      a function from the anchor points to a list of labels, a parameter
      of the development;
    - the video source ([cv2.VideoCapture]): what the driver observes of
      it, the reported frame count and the successive reads;
    - drawing on the frame ([sv] annotators): not modelled, it never
      touches the table or the log;
    - the order in which a Python [set] is iterated (line 133): that of
      the slots of its hash table, a parameter of the development.

    Python integers are [Z]; the progress fraction, a Python float, is
    the binary64 number nearest to the quotient, given by the rational it
    denotes; exceptions are results of type [result]. *)

From Stdlib Require Import ZArith List String Ascii Bool Lia Permutation.
From Stdlib Require Import QArith Qpower DecimalString.
Import ListNotations.
Open Scope Z_scope.

Set Implicit Arguments.

(** ** Exceptions and the error monad *)

(** The Python exceptions the modelled code can raise. *)
Inductive exn : Type :=
| TypeError           (* iterating [detections.tracker_id] when it is [None] *)
| IndexError          (* [detections[i]] with [i] out of range *)
| KeyError            (* [self.active_groups[group_id]] on a missing key *)
| ZeroDivisionError   (* [frame_index / total_frames] with a zero total *)
| OverflowError.      (* a quotient too large for a float *)

Inductive result (A : Type) : Type :=
| Ok (a : A)
| Raise (e : exn).
Arguments Ok {A} a.
Arguments Raise {A} e.

Definition bind {A B : Type} (c : result A) (k : A -> result B) : result B :=
  match c with
  | Ok a => k a
  | Raise e => Raise e
  end.

Declare Scope result_scope.
Delimit Scope result_scope with result.
Notation "x <- c ;; k" := (bind c (fun x => k))
  (at level 100, c at next level, right associativity) : result_scope.
Notation "' pat <- c ;; k" := (bind c (fun x => match x with pat => k end))
  (at level 100, pat pattern, c at next level, right associativity) : result_scope.
Open Scope result_scope.

(** ** Python dictionaries as insertion-ordered association lists *)

(** A [dict] keeps its keys in insertion order, and that order is the
    order in which [_log_final_dwell_times] writes its rows. *)
Module Dict.
Section Dict.
Variable V : Type.

Definition t := list (Z * V).

Definition keys (d : t) : list Z := map fst d.

(** [k in d] *)
Definition mem (k : Z) (d : t) : bool := existsb (Z.eqb k) (keys d).

(** [d.get(k)] *)
Fixpoint get (k : Z) (d : t) : option V :=
  match d with
  | [] => None
  | (k', v) :: d' => if k' =? k then Some v else get k d'
  end.

(** [d[k] = v] for a key that is not in [d]: appended last. *)
Definition add (k : Z) (v : V) (d : t) : t := d ++ [(k, v)].

(** [d[k] = f(d[k])]: the entry is changed in place. *)
Fixpoint update (k : Z) (f : V -> V) (d : t) : t :=
  match d with
  | [] => []
  | (k', v) :: d' =>
      if k' =? k then (k', f v) :: d' else (k', v) :: update k f d'
  end.

(** [del d[k]] *)
Definition remove (k : Z) (d : t) : t :=
  filter (fun e => negb (fst e =? k)) d.

(** The same table with [f] applied to every value. *)
Definition map_values (f : V -> V) (d : t) : t :=
  map (fun e => (fst e, f (snd e))) d.

End Dict.
End Dict.

(** Membership in a Python [set] of labels. *)
Definition in_set (k : Z) (s : list Z) : bool := existsb (Z.eqb k) s.

(** ** Strings *)

(** [str(n)] for an integer. *)
Definition str (n : Z) : string := NilZero.string_of_int (Z.to_int n).

(** [sep.join(parts)] *)
Fixpoint join (sep : string) (parts : list string) : string :=
  match parts with
  | [] => ""%string
  | [p] => p
  | p :: ps => (p ++ sep ++ join sep ps)%string
  end.

Fixpoint last_char (s : string) : option ascii :=
  match s with
  | EmptyString => None
  | String c EmptyString => Some c
  | String _ s' => last_char s'
  end.

(** [s.endswith("/")] *)
Definition ends_with_sep (s : string) : bool :=
  match last_char s with
  | Some c => Ascii.eqb c "/"
  | None => false
  end.

(** [os.path.join(a, b)] (posixpath). *)
Definition path_join (a b : string) : string :=
  if String.prefix "/" b then b
  else if (String.eqb a "" || ends_with_sep a)%bool then (a ++ b)%string
  else (a ++ "/" ++ b)%string.

(** [sorted(l)] on integers. *)
Fixpoint insert_sorted (x : Z) (l : list Z) : list Z :=
  match l with
  | [] => [x]
  | y :: l' => if x <=? y then x :: l else y :: insert_sorted x l'
  end.

Definition sorted (l : list Z) : list Z := fold_right insert_sorted [] l.

(** The elements of [l] in ascending order of [rank], elements of equal
    rank in the order of [l]. *)
Fixpoint insert_by (rank : Z -> Z) (x : Z) (l : list Z) : list Z :=
  match l with
  | [] => [x]
  | y :: l' => if rank x <=? rank y then x :: l else y :: insert_by rank x l'
  end.

Definition order_by (rank : Z -> Z) (l : list Z) : list Z :=
  fold_right (insert_by rank) [] l.

(** ** Python floats

    [a / b] on integers is the IEEE 754 binary64 number nearest to the
    quotient, ties going to the even significand; it raises
    [ZeroDivisionError] for a zero divisor and [OverflowError] when the
    rounded quotient is not below [2 ^ 1024].  A float is given by the
    rational it denotes, so a negative zero is the rational 0. *)

(** [n / d] rounded to the nearest integer, ties to even, for [d > 0]. *)
Definition round_half_even (n d : Z) : Z :=
  let q := n / d in
  let r := n mod d in
  if 2 * r <? d then q
  else if d <? 2 * r then q + 1
  else if Z.even q then q else q + 1.

(** The binary64 number nearest to [a / b] for [0 <= a] and [0 < b], as
    the pair [(m, e)] that stands for [m * 2 ^ e]: the quotient is scaled
    by [2 ^ 1074], the weight of the last bit of the smallest numbers, and
    [s] more bits are dropped when it has more than 53. *)
Definition dropped_bits (a b : Z) : Z :=
  Z.max 0 (Z.log2 (a * 2 ^ 1074 / b) - 52).

Definition nearest_double (a b : Z) : Z * Z :=
  let s := dropped_bits a b in
  (round_half_even (a * 2 ^ 1074) (b * 2 ^ s), s - 1074).

(** The rational [m * 2 ^ e], in lowest terms. *)
Definition float_value (m e : Z) : Q := Qred (inject_Z m * 2 ^ e)%Q.

(** [a / b], Python true division of two integers. *)
Definition true_div (a b : Z) : result Q :=
  if b =? 0 then Raise ZeroDivisionError
  else
    let (m, e) := nearest_double (Z.abs a) (Z.abs b) in
    if 2 ^ 1024 <=? m * 2 ^ e then Raise OverflowError
    else Ok (float_value (Z.sgn a * Z.sgn b * m) e).

(** Monadic iteration: a [for] loop whose body may raise. *)
Fixpoint foldM {A B : Type} (f : A -> B -> result A) (l : list B) (a : A)
  : result A :=
  match l with
  | [] => Ok a
  | b :: l' => a' <- f a b ;; foldM f l' a'
  end.

(** [d[k]] *)
Definition getitem {V : Type} (k : Z) (d : Dict.t V) : result V :=
  match Dict.get k d with
  | Some v => Ok v
  | None => Raise KeyError
  end.

(** ** Data model *)

(** One row of the CSV log, in the column order of [_log_group_event]. *)
Record Row : Type := mkRow {
  frame : Z;
  group_id : Z;
  member_count : Z;
  member_ids : string;
  dwell_time_frames : Z;
  saved_frame_path : string
}.

(** One value of [active_groups]; [last_log] is the optional key
    ['last_log'] of the Python dictionary. *)
Record Group : Type := mkGroup {
  start_frame : Z;
  last_seen_frame : Z;
  members : list Z;
  last_log : option Row
}.

Definition set_last_log (entry : Row) (g : Group) : Group :=
  {| start_frame := start_frame g;
     last_seen_frame := last_seen_frame g;
     members := members g;
     last_log := Some entry |}.

(** The mutable part of a [VideoProcessor]: [log_file] holds the data
    rows of the CSV file in the order written (the header is written by
    [__init__]), [saved_frames] the image files written by [cv2.imwrite]. *)
Record VideoProcessor : Type := mkVP {
  saved_frames_dir : string;
  log_file : list Row;
  saved_frames : list string;
  active_groups : Dict.t Group
}.

(** [VideoProcessor(log_file, saved_frames_dir)] *)
Definition init (dir : string) : VideoProcessor :=
  {| saved_frames_dir := dir; log_file := []; saved_frames := [];
     active_groups := [] |}.

Definition with_active (st : VideoProcessor) (a : Dict.t Group) : VideoProcessor :=
  {| saved_frames_dir := saved_frames_dir st; log_file := log_file st;
     saved_frames := saved_frames st; active_groups := a |}.

(** [_log_group_event(data)] appends one row. *)
Definition _log_group_event (st : VideoProcessor) (data : Row) : VideoProcessor :=
  {| saved_frames_dir := saved_frames_dir st;
     log_file := log_file st ++ [data];
     saved_frames := saved_frames st;
     active_groups := active_groups st |}.

(** [cv2.imwrite(path, annotated_frame)] *)
Definition imwrite (st : VideoProcessor) (path : string) : VideoProcessor :=
  {| saved_frames_dir := saved_frames_dir st; log_file := log_file st;
     saved_frames := saved_frames st ++ [path];
     active_groups := active_groups st |}.

(** [last_log.get("member_count", 0)] and [last_log.get("member_ids", "")]
    where [last_log = group.get('last_log', {})]. *)
Definition last_member_count (g : Group) : Z :=
  match last_log g with Some r => member_count r | None => 0 end.

Definition last_member_ids (g : Group) : string :=
  match last_log g with Some r => member_ids r | None => ""%string end.

(** The two literal markers of a closing row. *)
Definition disappeared : string := "disappeared".
Definition video_end : string := "video_end".

Definition is_closing (r : Row) : bool :=
  (String.eqb (saved_frame_path r) disappeared
   || String.eqb (saved_frame_path r) video_end)%bool.

(** [f"frame_{frame_index}_group_{group_id}.jpg"] *)
Definition frame_filename (frame_index group_id : Z) : string :=
  ("frame_" ++ str frame_index ++ "_group_" ++ str group_id ++ ".jpg")%string.

(** *** Notions used to state the properties *)

(** A group is identified by its key and the frame it was created at. *)
Definition entry_key (e : Z * Group) : Z * Z := (fst e, start_frame (snd e)).

(** The group a closing row speaks about: its key, and the frame the
    dwell time is counted from. *)
Definition closing_key (r : Row) : Z * Z :=
  (group_id r, frame r - dwell_time_frames r).

(** A group without its ['last_log'] entry. *)
Definition forget_last_log (g : Group) : Group :=
  {| start_frame := start_frame g; last_seen_frame := last_seen_frame g;
     members := members g; last_log := None |}.

(** The keys put into the table between two states: absent from
    [active_groups] before, present after (line 105 is the only place
    where a key is added). *)
Definition created (st st' : VideoProcessor) : list Z :=
  filter (fun g => negb (Dict.mem g (active_groups st)))
         (Dict.keys (active_groups st')).

(** The closing rows of a log: terminations and end-of-stream rows. *)
Definition closing_rows (log : list Row) : list Row := filter is_closing log.

(** The shape of a continuation row written under directory [dir]. *)
Definition continuation_shape (dir : string) (r : Row) : Prop :=
  frame r mod 30 = 0 /\ dwell_time_frames r = 0 /\
  saved_frame_path r = path_join dir (frame_filename (frame r) (group_id r)).

(** What holds between two frames of a run that started at frame 0 with
    an empty table, [frame_index] being the next frame and [cs] the groups
    created so far, each with its creation frame: every created group is
    either still in the table or has its closing row, and never both. *)
Definition run_inv (dir : string) (frame_index : Z) (cs : list (Z * Z))
           (st : VideoProcessor) : Prop :=
  0 <= frame_index /\
  saved_frames_dir st = dir /\
  NoDup (Dict.keys (active_groups st)) /\
  NoDup cs /\
  (forall c, In c cs -> 0 <= snd c < frame_index) /\
  Permutation cs (map closing_key (closing_rows (log_file st))
                  ++ map entry_key (active_groups st)) /\
  (forall r, In r (log_file st) -> is_closing r = true ->
             saved_frame_path r = disappeared /\
             0 <= frame r - dwell_time_frames r < frame r /\
             frame r < frame_index) /\
  (forall r, In r (log_file st) -> is_closing r = false ->
             continuation_shape dir r).

(** The rows appended to the log between two states. *)
Definition rows_written (st st' : VideoProcessor) : list Row :=
  skipn (List.length (log_file st)) (log_file st').

(** A group that was in the table before a frame, matched none of the
    frame's clusters [current], and has no termination row among the rows
    the frame wrote: it has disappeared and is not finalized yet. *)
Definition pending_finalization (st st' : VideoProcessor) (current : list Z)
           (g : Z) : Prop :=
  In g (Dict.keys (active_groups st)) /\
  ~ In g current /\
  ~ exists r, In r (rows_written st st') /\ group_id r = g /\
              saved_frame_path r = disappeared.

(** The keys a frame adds to a table: the cluster labels not in it. *)
Definition fresh_keys (active : Dict.t Group) (ks : list Z) : list Z :=
  filter (fun g => negb (Dict.mem g active)) ks.

(** The keys of a table that are not among the labels [current], each
    once, in table order. *)
Definition unmatched_keys (active : Dict.t Group) (current : list Z)
  : list Z :=
  filter (fun g => negb (in_set g current)) (nodup Z.eq_dec (Dict.keys active)).

(** Row [r] is an end-of-stream row for table entry [e] when the source
    reports [total_frames]: it carries the marker, the key of the group,
    the reported count as its frame, the frames from the creation of the
    group to that count as its dwell time, and the member data of the last
    continuation row of the group, if there is one. *)
Definition end_of_stream_row (total_frames : Z) (e : Z * Group) (r : Row)
  : Prop :=
  saved_frame_path r = video_end /\
  group_id r = fst e /\
  frame r = total_frames /\
  dwell_time_frames r = total_frames - start_frame (snd e) /\
  match last_log (snd e) with
  | Some c => member_count r = member_count c /\ member_ids r = member_ids c
  | None => member_count r = 0 /\ member_ids r = ""%string
  end.

(** The rows written for the groups [gs] that matched no cluster. *)
Definition termination_rows (entry : Z -> Group -> Row)
           (active : Dict.t Group) (gs : list Z) : list Row :=
  flat_map (fun g => match Dict.get g active with
                     | Some grp => [entry g grp]
                     | None => []
                     end) gs.

(** The frames the driver gets to process: those read before the first
    failed read or the end of the stream. *)
Fixpoint frames_read {F : Type} (reads : list (option F)) : list F :=
  match reads with
  | Some f :: rest => f :: frames_read rest
  | _ => []
  end.

(** The order in which Python iterates a set is that of the slots of its
    hash table.  For [slot : set_order], [slot keys current g] is the rank,
    in that order, of element [g] of the set built at line 132 from a table
    with the keys [keys] and a frame whose clusters are [current]. *)
Definition set_order : Type := list Z -> list Z -> Z -> Z.

Section Processor.

(** Anchor coordinates and the clusterer are external. *)
Variable Point : Type.
Variable fit_predict : list Point -> list Z.

(** So is the order in which a set is iterated. *)
Variable slot : set_order.

(** A detection after tracking: its bottom-centre anchor and its
    track identity, which may be missing. *)
Record Detection : Type := mkDetection {
  anchor : Point;
  tracker_id : option Z
}.

(** What the tracker hands over for one frame: the detections, and
    whether [detections.tracker_id] is an array ([tracked]) or [None]. *)
Record Frame : Type := mkFrame {
  detections_of :> list Detection;
  tracked : bool
}.

(** Line 85: [[f"#{tracker_id}" for tracker_id in detections.tracker_id]].
    Iterating [None] raises [TypeError]. *)
Definition tracker_label (mem : Detection) : string :=
  match tracker_id mem with
  | Some t => ("#" ++ str t)%string
  | None => "#None"%string
  end.

Definition tracker_labels (detections : Frame) : result (list string) :=
  if tracked detections then Ok (map tracker_label detections)
  else Raise TypeError.

(** [if mem.tracker_id]: a missing identity is false, and so is the
    one-element array holding 0. *)
Definition has_tracker_id (mem : Detection) : bool :=
  match tracker_id mem with
  | Some t => negb (t =? 0)
  | None => false
  end.

(** A detection with the fields the specification requires of a valid
    one: it carries a track identity. *)
Definition valid_detection (mem : Detection) : bool :=
  match tracker_id mem with
  | Some _ => true
  | None => false
  end.

(** [[mem.tracker_id[0] for mem in group_members if mem.tracker_id]] *)
Fixpoint member_ids_of (group_members : list Detection) : list Z :=
  match group_members with
  | [] => []
  | mem :: rest =>
      if has_tracker_id mem then
        match tracker_id mem with
        | Some t => t :: member_ids_of rest
        | None => member_ids_of rest
        end
      else member_ids_of rest
  end.

(** [detections.get_anchors_coordinates(sv.Position.BOTTOM_CENTER)] *)
Definition points (detections : list Detection) : list Point :=
  map anchor detections.

(** [grouped_detections[label].append(d)] on a [defaultdict(list)]. *)
Fixpoint append_member (label : Z) (d : Detection)
         (grouped : Dict.t (list Detection)) : Dict.t (list Detection) :=
  match grouped with
  | [] => [(label, [d])]
  | (k, ms) :: rest =>
      if k =? label then (k, ms ++ [d]) :: rest
      else (k, ms) :: append_member label d rest
  end.

(** Lines 96-98: [for i, label in enumerate(cluster_labels)]. *)
Fixpoint group_by_label (i : nat) (cluster_labels : list Z)
         (detections : list Detection) (grouped : Dict.t (list Detection))
  : result (Dict.t (list Detection)) :=
  match cluster_labels with
  | [] => Ok grouped
  | label :: rest =>
      if label =? -1 then group_by_label (S i) rest detections grouped
      else match nth_error detections i with
           | Some d =>
               group_by_label (S i) rest detections
                              (append_member label d grouped)
           | None => Raise IndexError
           end
  end.

(** Lines 88-98: the clusters of one frame, keyed by label, in order of
    first appearance; no clustering below three detections. *)
Definition grouped_detections (detections : list Detection)
  : result (Dict.t (list Detection)) :=
  if (3 <=? List.length detections)%nat
  then group_by_label 0 (fit_predict (points detections)) detections []
  else Ok [].

(** The row logged for a cluster on a snapshot frame (lines 113-119). *)
Definition continuation_entry (dir : string) (frame_index group_id : Z)
           (group_members : list Detection) : Row :=
  {| frame := frame_index;
     group_id := group_id;
     member_count := Z.of_nat (List.length group_members);
     member_ids := join "-" (map str (sorted (member_ids_of group_members)));
     dwell_time_frames := 0;
     saved_frame_path := path_join dir (frame_filename frame_index group_id) |}.

Definition new_group (frame_index : Z) : Group :=
  {| start_frame := frame_index; last_seen_frame := frame_index;
     members := []; last_log := None |}.

(** Lines 100-121: the body of the loop over [grouped_detections.items()]. *)
Definition cluster_step (frame_index : Z) (st : VideoProcessor)
           (c : Z * list Detection) : result VideoProcessor :=
  let (gid, group_members) := c in
  let st1 :=
    if Dict.mem gid (active_groups st) then st
    else with_active st (Dict.add gid (new_group frame_index) (active_groups st)) in
  if frame_index mod 30 =? 0 then
    let log_entry :=
      continuation_entry (saved_frames_dir st1) frame_index gid group_members in
    let st2 := imwrite st1 (saved_frame_path log_entry) in
    let st3 := _log_group_event st2 log_entry in
    _ <- getitem gid (active_groups st3) ;;
    Ok (with_active st3
          (Dict.update gid (set_last_log log_entry) (active_groups st3)))
  else Ok st1.

(** The row logged for a group that matched no cluster (lines 134-141). *)
Definition termination_entry (frame_index gid : Z) (g : Group) : Row :=
  {| frame := frame_index;
     group_id := gid;
     member_count := last_member_count g;
     member_ids := last_member_ids g;
     dwell_time_frames := frame_index - start_frame g;
     saved_frame_path := disappeared |}.

(** Lines 133-143: the body of the loop over [disappeared_groups]. *)
Definition disappear_step (frame_index : Z) (st : VideoProcessor) (gid : Z)
  : result VideoProcessor :=
  g <- getitem gid (active_groups st) ;;
  let st1 := _log_group_event st (termination_entry frame_index gid g) in
  _ <- getitem gid (active_groups st1) ;;
  Ok (with_active st1 (Dict.remove gid (active_groups st1))).

(** [current_groups_in_frame] once the cluster loop is over. *)
Definition current_groups_in_frame (grouped : Dict.t (list Detection))
  : list Z := Dict.keys grouped.

(** Lines 132-133: [set(self.active_groups.keys()) - current_groups_in_frame]
    as the loop of line 133 goes through it: the keys of the table that
    are not in [current], each once, in the order of their slots. *)
Definition disappeared_groups (active : Dict.t Group) (current : list Z)
  : list Z :=
  order_by (slot (Dict.keys active) current)
           (unmatched_keys active current).

(** [process_single_frame], with [detections] as delivered by the
    detector and the tracker for this frame. *)
Definition process_single_frame (detections : Frame) (frame_index : Z)
           (st : VideoProcessor) : result VideoProcessor :=
  _ <- tracker_labels detections ;;
  grouped <- grouped_detections detections ;;
  st1 <- foldM (cluster_step frame_index) grouped st ;;
  foldM (disappear_step frame_index)
        (disappeared_groups (active_groups st1)
                            (current_groups_in_frame grouped))
        st1.

(** The row logged for a group still active at the end (lines 149-155). *)
Definition final_entry (total_frames : Z) (e : Z * Group) : Row :=
  {| frame := total_frames;
     group_id := fst e;
     member_count := last_member_count (snd e);
     member_ids := last_member_ids (snd e);
     dwell_time_frames := total_frames - start_frame (snd e);
     saved_frame_path := video_end |}.

(** [_log_final_dwell_times(total_frames)] *)
Definition _log_final_dwell_times (total_frames : Z) (st : VideoProcessor)
  : VideoProcessor :=
  fold_left (fun s e => _log_group_event s (final_entry total_frames e))
            (active_groups st) st.

(** The video source as the driver observes it: [cap.isOpened()],
    [int(cap.get(cv2.CAP_PROP_FRAME_COUNT))], and the successive results
    of [cap.read()] ([None] is a read with [ret] false; reading past
    the end of [stream] gives [ret] false too). *)
Record VideoCapture : Type := mkCap {
  isOpened : bool;
  frame_count : Z;
  stream : list (option Frame)
}.

(** Lines 61-69: the loop of the generator, consumed to its end; the
    list holds the progress fractions in the order yielded. *)
Fixpoint frames_loop (total_frames frame_index : Z)
         (reads : list (option Frame)) (st : VideoProcessor)
  : result (list Q * VideoProcessor) :=
  match reads with
  | Some detections :: rest =>
      st1 <- process_single_frame detections frame_index st ;;
      progress <- true_div frame_index total_frames ;;
      '(ys, st2) <- frames_loop total_frames (frame_index + 1) rest st1 ;;
      Ok (progress :: ys, st2)
  | _ => Ok ([], st)
  end.

(** [process_video_and_yield_frames(source_path)] iterated until the
    generator is exhausted, as the [for] loop of [app.py] does. *)
Definition process_video_and_yield_frames (cap : VideoCapture)
           (st : VideoProcessor) : result (list Q * VideoProcessor) :=
  let total_frames := frame_count cap in
  '(ys, st1) <- (if isOpened cap
                 then frames_loop total_frames 0 (stream cap) st
                 else Ok ([], st)) ;;
  Ok (ys, _log_final_dwell_times total_frames st1).

(** The same generator, one [next] at a time.  Between two calls it is
    suspended, before its first statement or at the [yield] of line 68,
    with the index of the frame it will process next and the reads still
    to come; or it has returned. *)
Inductive generator : Type :=
| Suspended (frame_index : Z) (reads : list (option Frame))
| Exhausted.

(** [process_video_and_yield_frames(source_path)]: nothing runs before the
    first [next]. *)
Definition start (cap : VideoCapture) : generator :=
  Suspended 0 (if isOpened cap then stream cap else []).

(** [next(gen)]: the value yielded, or [None] for [StopIteration].  The
    finalization of line 74 runs in the call that finds the loop over. *)
Definition gen_next (total_frames : Z) (g : generator) (st : VideoProcessor)
  : result (option Q * generator * VideoProcessor) :=
  match g with
  | Suspended frame_index (Some detections :: rest) =>
      st1 <- process_single_frame detections frame_index st ;;
      progress <- true_div frame_index total_frames ;;
      Ok (Some progress, Suspended (frame_index + 1) rest, st1)
  | Suspended _ _ =>
      Ok (None, Exhausted, _log_final_dwell_times total_frames st)
  | Exhausted => Ok (None, Exhausted, st)
  end.

(** A consumer that calls [next] at most [n] times and stops at
    [StopIteration]: the values it got, and the generator as it leaves it. *)
Fixpoint iterate (n : nat) (total_frames : Z) (g : generator)
         (st : VideoProcessor) : result (list Q * generator * VideoProcessor) :=
  match n with
  | O => Ok ([], g, st)
  | S n' =>
      r <- gen_next total_frames g st ;;
      match r with
      | (Some progress, g1, st1) =>
          '(ys, g2, st2) <- iterate n' total_frames g1 st1 ;;
          Ok (progress :: ys, g2, st2)
      | (None, g1, st1) => Ok ([], g1, st1)
      end
  end.

(** *** Notions used to state the properties *)

(** The detections that carry label [k], in frame order. *)
Definition with_label (k : Z) (cluster_labels : list Z)
           (detections : list Detection) : list Detection :=
  map snd (filter (fun p => fst p =? k) (combine cluster_labels detections)).

(** The members of cluster [k], none when there is no such cluster. *)
Definition cluster_members (k : Z) (grouped : Dict.t (list Detection))
  : list Detection :=
  match Dict.get k grouped with Some ms => ms | None => [] end.

(** The continuation rows of one frame. *)
Definition continuation_rows (dir : string) (frame_index : Z)
           (grouped : Dict.t (list Detection)) : list Row :=
  if frame_index mod 30 =? 0
  then map (fun c => continuation_entry dir frame_index (fst c) (snd c)) grouped
  else [].

(** The groups created along a run of the frame loop, each with the
    index of the frame that created it. *)
Fixpoint creations (frame_index : Z) (frames : list Frame)
         (st : VideoProcessor) : list (Z * Z) :=
  match frames with
  | [] => []
  | detections :: rest =>
      match process_single_frame detections frame_index st with
      | Ok st1 =>
          map (fun g => (g, frame_index)) (created st st1)
          ++ creations (frame_index + 1) rest st1
      | Raise _ => []
      end
  end.

(** The labels of the clusters of frame [i] of a run. *)
Definition labels_at (frames : list Frame) (i : Z) : list Z :=
  match nth_error frames (Z.to_nat i) with
  | Some detections =>
      match grouped_detections detections with
      | Ok grouped => Dict.keys grouped
      | Raise _ => []
      end
  | None => []
  end.

(** Key [g] is the label of a cluster in every frame from [s] up to, but
    not including, [j]. *)
Definition matched_between (frames : list Frame) (g s j : Z) : Prop :=
  forall i, s <= i < j -> In g (labels_at frames i).

(** What the table and the log say about the frames processed so far:
    a group in the table has matched a cluster in every frame since its
    creation; a closing row was written at the first frame its group
    matched none. *)
Definition match_inv (frames : list Frame) (st : VideoProcessor) : Prop :=
  (forall c, In c (map entry_key (active_groups st)) ->
     matched_between frames (fst c) (snd c) (Z.of_nat (List.length frames))) /\
  (forall r, In r (log_file st) -> is_closing r = true ->
     ~ In (group_id r) (labels_at frames (frame r)) /\
     matched_between frames (group_id r)
                     (frame r - dwell_time_frames r) (frame r)).

(** The frames a capture delivers to the driver. *)
Definition frames_of (cap : VideoCapture) : list Frame :=
  if isOpened cap then frames_read (stream cap) else [].

End Processor.

Arguments mkDetection {Point} anchor tracker_id.
Arguments mkFrame {Point} detections_of tracked.
Arguments mkCap {Point} isOpened frame_count stream.
Arguments Exhausted {Point}.

(** ** A clusterer to run scenarios with

    The theorems below hold for every clusterer.  To evaluate the model on
    concrete frames, this module gives the density clustering the source
    asks for ([eps = 75], [min_samples = 3], Euclidean distance) on points
    with integer coordinates: a point is a core point when at least
    [min_samples] points (itself included) lie within [eps] of it; clusters
    are numbered from 0 in the order their first core point appears and
    grown from core points only; what is left is noise, labelled -1. *)
Module Clusterer.

Definition pt : Type := (Z * Z)%type.

Definition eps : Z := 75.
Definition min_samples : nat := 3.

Definition dist2 (p q : pt) : Z :=
  (fst p - fst q) * (fst p - fst q) + (snd p - snd q) * (snd p - snd q).

Definition neighborhood (pts : list pt) (i : nat) : list nat :=
  match nth_error pts i with
  | Some p =>
      filter (fun j => match nth_error pts j with
                       | Some q => dist2 p q <=? eps * eps
                       | None => false
                       end)
             (seq 0 (List.length pts))
  | None => []
  end.

Definition is_core (pts : list pt) (i : nat) : bool :=
  (min_samples <=? List.length (neighborhood pts i))%nat.

Definition label_of (labels : list Z) (i : nat) : Z := nth i labels (-1).

Fixpoint set_label (i : nat) (c : Z) (labels : list Z) : list Z :=
  match labels, i with
  | [], _ => []
  | _ :: ls, O => c :: ls
  | l :: ls, S i' => l :: set_label i' c ls
  end.

(** Depth-first growth of cluster [c] from the points on [stack]. *)
Fixpoint expand (fuel : nat) (pts : list pt) (c : Z) (stack : list nat)
         (labels : list Z) : list Z :=
  match fuel, stack with
  | S fuel', i :: stack' =>
      if label_of labels i =? -1 then
        let labels' := set_label i c labels in
        if is_core pts i then
          expand fuel' pts c
                 (filter (fun v => label_of labels' v =? -1)
                         (neighborhood pts i) ++ stack')
                 labels'
        else expand fuel' pts c stack' labels'
      else expand fuel' pts c stack' labels
  | _, _ => labels
  end.

Fixpoint scan (todo : list nat) (pts : list pt) (c : Z) (labels : list Z)
  : list Z :=
  match todo with
  | [] => labels
  | i :: rest =>
      if (negb (label_of labels i =? -1) || negb (is_core pts i))%bool
      then scan rest pts c labels
      else
        let n := List.length pts in
        scan rest pts (c + 1) (expand (n * n + n + 1) pts c [i] labels)
  end.

Definition fit_predict (pts : list pt) : list Z :=
  scan (seq 0 (List.length pts)) pts 0 (repeat (-1) (List.length pts)).

(** A detection standing at [(x, y)] with track identity [t]. *)
Definition person (x y : Z) (t : option Z) : Detection pt :=
  mkDetection (x, y) t.

End Clusterer.

(** ** A set order to run scenarios with

    The theorems below hold for every order of iteration.  In CPython a
    small non-negative integer hashes to itself and, in a set that has not
    grown, lies in the slot of that number: such a set is iterated in
    ascending order. *)
Module SetOrder.

Definition ascending : set_order := fun keys current g => g.

End SetOrder.

(** ** Scenarios

    Concrete frames and sources on which the model is evaluated. *)
Module Scenario.
Import Clusterer.

(** Three tracked people standing together. *)
Definition together : Frame pt :=
  mkFrame [person 0 0 (Some 1); person 10 0 (Some 2); person 0 10 (Some 3)]
          true.

(** The same three people, far apart. *)
Definition scattered : Frame pt :=
  mkFrame [person 0 0 (Some 1); person 1000 0 (Some 2);
           person 0 1000 (Some 3)] true.

(** Three people standing together, one of them without track identity. *)
Definition one_untracked : Frame pt :=
  mkFrame [person 0 0 (Some 1); person 10 0 (Some 2); person 0 10 None] true.

(** Three people standing together, the tracker delivering no identity
    array ([detections.tracker_id] is [None]). *)
Definition no_identities : Frame pt :=
  mkFrame [person 0 0 None; person 10 0 None; person 0 10 None] false.

(** One person alone. *)
Definition alone : Frame pt := mkFrame [person 0 0 (Some 1)] true.

(** No detection at all. *)
Definition nobody : Frame pt := mkFrame [] true.

Definition step (dets : Frame pt) (frame_index : Z) (st : VideoProcessor)
  : result VideoProcessor :=
  process_single_frame fit_predict SetOrder.ascending dets frame_index st.

Definition run (cap : VideoCapture pt) : result (list Q * VideoProcessor) :=
  process_video_and_yield_frames fit_predict SetOrder.ascending cap
                                 (init "out").

Definition state_of (r : result VideoProcessor) : VideoProcessor :=
  match r with Ok st => st | Raise _ => init "" end.

Definition yields_of (r : result (list Q * VideoProcessor)) : list Q :=
  match r with Ok (ys, _) => ys | Raise _ => [] end.

Definition final_of (r : result (list Q * VideoProcessor)) : VideoProcessor :=
  match r with Ok (_, st) => st | Raise _ => init "" end.

Definition clusters_of (dets : Frame pt) : Dict.t (list (Detection pt)) :=
  match grouped_detections fit_predict dets with
  | Ok grouped => grouped
  | Raise _ => []
  end.

(** A group forms, dissolves and forms again; the source reports its
    three frames. *)
Definition cap_three : VideoCapture pt :=
  mkCap true 3 [Some together; Some scattered; Some together].

(** The same frames, the stream failing on the fourth read. *)
Definition cap_interrupted : VideoCapture pt :=
  mkCap true 3 [Some together; Some scattered; Some together; None;
                Some together].

(** A source that reports one frame and delivers three. *)
Definition cap_underreported : VideoCapture pt :=
  mkCap true 1 [Some nobody; Some nobody; Some together].

(** A source that reports no frame and delivers one. *)
Definition cap_zero : VideoCapture pt := mkCap true 0 [Some together].

(** The state after one frame with [together], and after a second one. *)
Definition after_frame0 : VideoProcessor :=
  Eval vm_compute in state_of (step together 0 (init "out")).
Definition after_frame1 : VideoProcessor :=
  Eval vm_compute in state_of (step together 1 after_frame0).

(** Frame 1 of a run in which the group of frame 0 finds fewer than
    three detections. *)
Definition after_short_frame : VideoProcessor :=
  Eval vm_compute in state_of (step alone 1 after_frame0).

Definition after_untracked : VideoProcessor :=
  Eval vm_compute in state_of (step one_untracked 0 (init "out")).

Definition clusters_together : Dict.t (list (Detection pt)) :=
  Eval vm_compute in clusters_of together.
Definition clusters_untracked : Dict.t (list (Detection pt)) :=
  Eval vm_compute in clusters_of one_untracked.

(** The rows of the log of [cap_three]. *)
Definition snapshot_row : Row :=
  mkRow 0 0 3 "1-2-3" 0 "out/frame_0_group_0.jpg".
Definition termination_row : Row := mkRow 1 0 3 "1-2-3" 1 disappeared.
Definition final_row : Row := mkRow 3 0 0 "" 1 video_end.

(** The continuation row of a frame with [one_untracked]. *)
Definition untracked_row : Row :=
  mkRow 0 0 3 "1-2" 0 "out/frame_0_group_0.jpg".

Definition yields_three : list Q := Eval vm_compute in yields_of (run cap_three).
Definition final_three : VideoProcessor :=
  Eval vm_compute in final_of (run cap_three).

End Scenario.

(** ** Further notions, for the properties beyond the log's closing rows *)

Unset Implicit Arguments.

(** What [os.path.join(dir, name)] puts before a relative [name]. *)
Definition dir_prefix (dir : string) : string :=
  if (String.eqb dir "" || ends_with_sep dir)%bool then dir
  else (dir ++ "/")%string.

(** The frame and group a row speaks about. *)
Definition row_key (r : Row) : Z * Z := (frame r, group_id r).

(** A row that is not a closing row. *)
Definition is_continuation (r : Row) : bool := negb (is_closing r).

(** No frame index from [s] up to, but not including, [j] is a multiple
    of 30: no snapshot is taken in that stretch. *)
Definition no_snapshot_between (s j : Z) : Prop :=
  forall i, s <= i < j -> i mod 30 <> 0.

(** Row [c] is the continuation row written for key [g] at the last
    snapshot frame of the stretch from [s] up to, not including, [j]. *)
Definition latest_snapshot (log : list Row) (g s j : Z) (c : Row) : Prop :=
  In c log /\ is_closing c = false /\ group_id c = g /\
  s <= frame c < j /\ frame c mod 30 = 0 /\
  no_snapshot_between (frame c + 1) j.

(** What ['last_log'] holds for the groups of the table, [frame_index]
    being the next frame to process. *)
Definition backfill_inv (frame_index : Z) (st : VideoProcessor) : Prop :=
  forall g grp, In (g, grp) (active_groups st) ->
    match last_log grp with
    | None => no_snapshot_between (start_frame grp) frame_index
    | Some c => latest_snapshot (log_file st) g (start_frame grp) frame_index c
    end.

(** The member data of closing row [r] repeat those of the last
    continuation row of its group before frame [j], or are empty when the
    group saw no snapshot frame. *)
Definition backfilled (log : list Row) (j : Z) (r : Row) : Prop :=
  (member_count r = 0 /\ member_ids r = EmptyString /\
   no_snapshot_between (frame r - dwell_time_frames r) j) \/
  (exists c,
     latest_snapshot log (group_id r) (frame r - dwell_time_frames r) j c /\
     member_count r = member_count c /\ member_ids r = member_ids c).

(** The labels that name a cluster: all but the noise label -1. *)
Definition cluster_labels_of (labels : list Z) : list Z :=
  filter (fun l => negb (l =? -1)) labels.

(** The labels other than -1 and not in [seen], each once, in the order
    in which they first appear. *)
Fixpoint first_appearances (seen labels : list Z) : list Z :=
  match labels with
  | [] => []
  | l :: rest =>
      if ((l =? -1) || in_set l seen)%bool then first_appearances seen rest
      else l :: first_appearances (l :: seen) rest
  end.

Section ProcessorNotions.

Variable Point : Type.
Variable fit_predict : list Point -> list Z.

(** The record of a group matched in a frame, from what the table held
    for its key before the frame (lines 104-105 and 121). *)
Definition touched (dir : string) (frame_index gid : Z)
           (group_members : list (Detection Point)) (old : option Group)
  : Group :=
  let base := match old with
              | Some g => g
              | None => new_group frame_index
              end in
  if frame_index mod 30 =? 0
  then set_last_log (continuation_entry dir frame_index gid group_members) base
  else base.

(** The continuation rows a run over [frames] is due to write, from the
    clusters of each frame alone. *)
Fixpoint snapshots_due (dir : string) (frame_index : Z)
         (frames : list (Frame Point)) : list Row :=
  match frames with
  | [] => []
  | detections :: rest =>
      match grouped_detections fit_predict detections with
      | Ok grouped =>
          continuation_rows dir frame_index grouped
          ++ snapshots_due dir (frame_index + 1) rest
      | Raise _ => []
      end
  end.

(** The continuation rows due for one frame, from the labels the
    clusterer returns for it: none unless the frame index is a multiple of
    30 and the frame has three detections or more; then one row per label
    other than -1, in the order in which the labels first appear, for the
    detections that carry the label. *)
Definition rows_due (dir : string) (frame_index : Z)
           (detections : Frame Point) : list Row :=
  if ((frame_index mod 30 =? 0) && (3 <=? List.length detections)%nat)%bool
  then
    let labels := fit_predict (points detections) in
    map (fun g => continuation_entry dir frame_index g
                                     (with_label g labels detections))
        (first_appearances [] labels)
  else [].

(** The same over the frames of a run, in frame order. *)
Fixpoint rows_due_from (dir : string) (frame_index : Z)
         (frames : list (Frame Point)) : list Row :=
  match frames with
  | [] => []
  | detections :: rest =>
      rows_due dir frame_index detections
      ++ rows_due_from dir (frame_index + 1) rest
  end.


(** The number of members over all clusters. *)
Definition members_total (grouped : Dict.t (list (Detection Point))) : nat :=
  List.length (List.concat (map snd grouped)).

End ProcessorNotions.

From Stdlib Require Import Sorted.

(** The frames of the rows of a log do not decrease. *)
Definition frames_ascend (log : list Row) : Prop :=
  StronglySorted Z.le (map frame log).

(** ** The snapshot browser of [app.py]

    [app.py] lists the directory of saved snapshots and recovers the frame
    index and the group id of a snapshot from its file name (lines 89-97
    and 107).  The Streamlit widgets are not modelled; the functions below
    are the Python expressions that compute what the widgets show. *)
Module App.

(** The exceptions these expressions can raise. *)
Inductive error : Type :=
| ValueError     (* [split] with an empty separator, [int] of a non-number *)
| IndexError.    (* [parts[i]] with [i] out of range *)

Inductive outcome (A : Type) : Type :=
| Done (a : A)
| Fail (e : error).
Arguments Done {A} a.
Arguments Fail {A} e.

Definition bind {A B : Type} (c : outcome A) (k : A -> outcome B) : outcome B :=
  match c with
  | Done a => k a
  | Fail e => Fail e
  end.

(** [[f(x) for x in l]], stopping at the first exception. *)
Fixpoint for_each {A B : Type} (f : A -> outcome B) (l : list A)
  : outcome (list B) :=
  match l with
  | [] => Done []
  | x :: l' =>
      bind (f x) (fun y => bind (for_each f l') (fun ys => Done (y :: ys)))
  end.

(** [sub in s] on strings. *)
Fixpoint contains (sub s : string) : bool :=
  match s with
  | EmptyString => String.prefix sub EmptyString
  | String _ s' => (String.prefix sub s || contains sub s')%bool
  end.

(** The scan of [s.split(sep)]: [skip] characters of a separator just
    found are still to be passed over, [cur] is the piece being read. *)
Fixpoint split_go (sep s : string) (skip : nat) (cur : string) : list string :=
  match s with
  | EmptyString => [cur]
  | String c s' =>
      match skip with
      | S k => split_go sep s' k cur
      | O =>
          if String.prefix sep s
          then cur :: split_go sep s' (String.length sep - 1) EmptyString
          else split_go sep s' 0 (cur ++ String c EmptyString)
      end
  end.

(** [s.split(sep)] *)
Definition split (sep s : string) : outcome (list string) :=
  match sep with
  | EmptyString => Fail ValueError
  | _ => Done (split_go sep s 0 EmptyString)
  end.

(** [l[i]] for [i >= 0]. *)
Definition item {A : Type} (l : list A) (i : nat) : outcome A :=
  match nth_error l i with
  | Some a => Done a
  | None => Fail IndexError
  end.

(** [f"Frame: {snapshot.split('_')[1]}"] (line 107). *)
Definition caption (snapshot : string) : outcome string :=
  bind (split "_" snapshot) (fun parts =>
  bind (item parts 1) (fun p => Done ("Frame: " ++ p)%string)).

(** [f.split('_group_')[1].split('.')[0]] (line 92): the text handed to
    [int]. *)
Definition group_text (f : string) : outcome string :=
  bind (split "_group_" f) (fun parts =>
  bind (item parts 1) (fun p =>
  bind (split "." p) (fun q => item q 0))).

(** [[f for f in snapshot_files if f"group_{selected_group}" in f]]
    (line 97). *)
Definition snapshots_of_group (selected_group : Z)
           (snapshot_files : list string) : list string :=
  filter (contains ("group_" ++ str selected_group)) snapshot_files.

Section GroupIds.

(** The builtin [int] on strings. *)
Variable int : string -> outcome Z.

(** Lines 91-95: [sorted(set(int(...) for f in snapshot_files
    if '_group_' in f))]. *)
Definition group_ids (snapshot_files : list string) : outcome (list Z) :=
  bind (for_each (fun f => bind (group_text f) int)
                 (filter (contains "_group_") snapshot_files))
       (fun ids => Done (sorted (nodup Z.eq_dec ids))).

End GroupIds.

(** [int(s)] for a decimal numeral with an optional minus sign, the
    strings [str] produces. *)
Definition int_of_numeral (s : string) : outcome Z :=
  match NilZero.int_of_string s with
  | Some d => Done (Z.of_int d)
  | None => Fail ValueError
  end.

End App.

(** *** Notions used to state the properties of the browser *)

(** Every character of [s] satisfies [p]. *)
Fixpoint all_chars (p : ascii -> bool) (s : string) : bool :=
  match s with
  | EmptyString => true
  | String c s' => (p c && all_chars p s')%bool
  end.

(** The characters of a decimal numeral. *)
Definition numeral_char (c : ascii) : bool :=
  (Ascii.eqb c "-" || (48 <=? nat_of_ascii c)%nat && (nat_of_ascii c <=? 57)%nat)%bool.

(** An entry of the snapshot directory: a snapshot saved for a frame and a
    group, or a file whose name does not contain ["_group_"]. *)
Inductive dir_entry : Type :=
| Snapshot (frame_index group_id : Z)
| Other (name : string).

Definition entry_name (e : dir_entry) : string :=
  match e with
  | Snapshot i g => frame_filename i g
  | Other name => name
  end.

Fixpoint snapshot_groups (entries : list dir_entry) : list Z :=
  match entries with
  | [] => []
  | Snapshot _ g :: rest => g :: snapshot_groups rest
  | Other _ :: rest => snapshot_groups rest
  end.

From Stdlib Require Import DecimalZ DecimalPos.

(** The end-of-stream rows of a log, in the order in which they were
    written. *)
Definition end_rows (log : list Row) : list Row :=
  filter (fun r => String.eqb (saved_frame_path r) video_end) log.

(** The frames in which the groups of a table were created, in table
    order. *)
Definition start_frames (table : Dict.t Group) : list Z :=
  map (fun e => start_frame (snd e)) table.

(** ** Further concrete runs *)

Module Sample.
Import Clusterer Scenario.

(** Two calls of [next] on the generator of [cap_three]. *)
Definition two_steps : result (list Q * generator pt * VideoProcessor) :=
  iterate fit_predict SetOrder.ascending 2 (frame_count cap_three)
          (start cap_three) (init "out").

Definition yields_two : list Q :=
  Eval vm_compute in
    match two_steps with Ok (ys, _, _) => ys | Raise _ => [] end.
Definition gen_two : generator pt :=
  Eval vm_compute in
    match two_steps with Ok (_, g, _) => g | Raise _ => Exhausted end.
Definition after_two : VideoProcessor :=
  Eval vm_compute in
    match two_steps with Ok (_, _, st) => st | Raise _ => init "" end.

(** A source that reports a negative frame count and delivers two
    frames. *)
Definition cap_negative : VideoCapture pt :=
  mkCap true (-1) [Some together; Some scattered].

Definition yields_negative : list Q :=
  Eval vm_compute in yields_of (run cap_negative).
Definition final_negative : VideoProcessor :=
  Eval vm_compute in final_of (run cap_negative).

(** Two groups in one frame.  The first detection lies at the edge of the
    group it forms with the last two, which the clusterer finds second: the
    labels are [[1; 0; 0; 0; 1; 1]], and label 1 appears first. *)
Definition two_groups : Frame pt :=
  mkFrame [person 0 0 (Some 1);
           person 1000 0 (Some 2); person 1010 0 (Some 3);
           person 1000 10 (Some 4);
           person 70 0 (Some 5); person 130 0 (Some 6)] true.

Definition cap_two_groups : VideoCapture pt := mkCap true 1 [Some two_groups].

Definition yields_two_groups : list Q :=
  Eval vm_compute in yields_of (run cap_two_groups).
Definition final_two_groups : VideoProcessor :=
  Eval vm_compute in final_of (run cap_two_groups).

(** The two groups, then a frame without anybody: both groups disappear in
    the second frame. *)
Definition cap_two_vanish : VideoCapture pt :=
  mkCap true 2 [Some two_groups; Some nobody].

Definition after_two_groups : VideoProcessor :=
  Eval vm_compute in
    match step two_groups 0 (init "out") with
    | Ok st => st
    | Raise _ => init ""
    end.
Definition final_two_vanish : VideoProcessor :=
  Eval vm_compute in final_of (run cap_two_vanish).

(** The entries of a snapshot directory: three snapshots of two groups and
    a file of another kind. *)
Definition listing : list dir_entry :=
  [Snapshot 0 1; Other "notes.txt"; Snapshot 30 10; Snapshot 30 1].

End Sample.

(** * Verification *)

Unset Implicit Arguments.
Set Default Proof Using "Type".

(** ** Markers and snapshot paths *)

Lemma last_char_app (a b : string) :
  b <> EmptyString -> last_char (a ++ b) = last_char b.
Proof.
  intros Hb. induction a as [|c a IH]; simpl; [reflexivity|].
  rewrite IH. destruct (a ++ b)%string eqn:E; [|reflexivity].
  destruct a; simpl in E; [contradiction | discriminate].
Qed.

Lemma last_char_app_nonempty (a b : string) (c : ascii) :
  last_char b = Some c -> last_char (a ++ b) = Some c.
Proof.
  intros H. rewrite last_char_app; [exact H|]. intros ->. discriminate.
Qed.

Lemma last_char_frame_filename (i g : Z) :
  last_char (frame_filename i g) = Some "g"%char.
Proof.
  unfold frame_filename. repeat apply last_char_app_nonempty. reflexivity.
Qed.

(** A snapshot path ends in [.jpg], whatever the directory. *)
Lemma last_char_snapshot_path (dir : string) (i g : Z) :
  last_char (path_join dir (frame_filename i g)) = Some "g"%char.
Proof.
  unfold path_join.
  assert (String.prefix "/" (frame_filename i g) = false) as -> by reflexivity.
  destruct (String.eqb dir "" || ends_with_sep dir)%bool;
    [ apply last_char_app_nonempty | do 2 apply last_char_app_nonempty ];
    apply last_char_frame_filename.
Qed.

Lemma snapshot_path_not_closing (r : Row) (dir : string) (i g : Z) :
  saved_frame_path r = path_join dir (frame_filename i g) ->
  is_closing r = false.
Proof.
  intros H. unfold is_closing.
  pose proof (last_char_snapshot_path dir i g) as L. rewrite <- H in L.
  apply orb_false_iff. split; apply String.eqb_neq; intros E;
    rewrite E in L; discriminate.
Qed.

(** ** Tables *)

Lemma in_set_In (k : Z) (s : list Z) : in_set k s = true <-> In k s.
Proof.
  unfold in_set. rewrite existsb_exists. split.
  - intros [x [Hx Hk]]. apply Z.eqb_eq in Hk. subst. exact Hx.
  - intros H. exists k. split; [exact H | apply Z.eqb_refl].
Qed.

Lemma in_set_false (k : Z) (s : list Z) : in_set k s = false <-> ~ In k s.
Proof.
  rewrite <- in_set_In. destruct (in_set k s); split; intros H;
    try discriminate; try reflexivity; try (intros H'; discriminate).
  exfalso. apply H. reflexivity.
Qed.

Section DictFacts.
Context {V : Type}.
Implicit Types (d : Dict.t V) (k : Z).

Lemma mem_In k d : Dict.mem k d = true <-> In k (Dict.keys d).
Proof. apply in_set_In. Qed.

Lemma mem_false k d : Dict.mem k d = false <-> ~ In k (Dict.keys d).
Proof. apply in_set_false. Qed.

Lemma keys_app d d' : Dict.keys (d ++ d') = Dict.keys d ++ Dict.keys d'.
Proof. apply map_app. Qed.

Lemma get_In k d v : Dict.get k d = Some v -> In (k, v) d.
Proof.
  induction d as [|[k' v'] d IH]; simpl; [discriminate|].
  destruct (Z.eqb_spec k' k) as [->|Hne].
  - intros [= ->]. left. reflexivity.
  - intros H. right. apply IH, H.
Qed.

Lemma get_None k d : Dict.get k d = None <-> ~ In k (Dict.keys d).
Proof.
  induction d as [|[k' v'] d IH]; simpl.
  - split; [intros _ [] | reflexivity].
  - destruct (Z.eqb_spec k' k) as [->|Hne].
    + split; [discriminate | intros H; exfalso; apply H; left; reflexivity].
    + rewrite IH. split; [intros H [E|I]; [exact (Hne E) | exact (H I)] | intros H I; apply H; right; exact I].
Qed.

Lemma get_Some_keys k d v : Dict.get k d = Some v -> In k (Dict.keys d).
Proof.
  intros H. apply get_In in H. apply (in_map fst) in H. exact H.
Qed.

Lemma get_of_key k d : In k (Dict.keys d) -> exists v, Dict.get k d = Some v.
Proof.
  intros H. destruct (Dict.get k d) as [v|] eqn:E; [exists v; reflexivity|].
  apply get_None in E. contradiction.
Qed.

Lemma get_NoDup k v d :
  NoDup (Dict.keys d) -> In (k, v) d -> Dict.get k d = Some v.
Proof.
  induction d as [|[k' v'] d IH]; simpl; intros ND HIn; [contradiction|].
  inversion ND as [|? ? Hnotin ND']; subst.
  destruct HIn as [[= -> ->]|HIn].
  - rewrite Z.eqb_refl. reflexivity.
  - destruct (Z.eqb_spec k' k) as [->|Hne].
    + exfalso. apply Hnotin. apply (in_map fst) in HIn. exact HIn.
    + apply IH; assumption.
Qed.

Lemma get_app k d d' :
  Dict.get k (d ++ d') =
  match Dict.get k d with Some v => Some v | None => Dict.get k d' end.
Proof.
  induction d as [|[k' v'] d IH]; simpl; [reflexivity|].
  destruct (k' =? k); [reflexivity | exact IH].
Qed.

Lemma keys_map_values (f : V -> V) d :
  Dict.keys (Dict.map_values f d) = Dict.keys d.
Proof.
  unfold Dict.keys, Dict.map_values. rewrite map_map. reflexivity.
Qed.

Lemma get_map_values (f : V -> V) k d :
  Dict.get k (Dict.map_values f d) = option_map f (Dict.get k d).
Proof.
  induction d as [|[k' v'] d IH]; simpl; [reflexivity|].
  destruct (k' =? k); [reflexivity | exact IH].
Qed.

Lemma map_values_update (g f : V -> V) k d :
  (forall v, g (f v) = g v) ->
  Dict.map_values g (Dict.update k f d) = Dict.map_values g d.
Proof.
  intros Hgf. induction d as [|[k' v'] d IH]; simpl; [reflexivity|].
  destruct (k' =? k); simpl.
  - rewrite Hgf. reflexivity.
  - rewrite IH. reflexivity.
Qed.

Lemma get_update_other (f : V -> V) k k' d :
  k <> k' -> Dict.get k' (Dict.update k f d) = Dict.get k' d.
Proof.
  intros Hne. induction d as [|[k0 v0] d IH]; simpl; [reflexivity|].
  destruct (Z.eqb_spec k0 k) as [->|H0]; simpl.
  - destruct (Z.eqb_spec k k'); [contradiction | reflexivity].
  - destruct (k0 =? k'); [reflexivity | exact IH].
Qed.

Lemma get_filter_keep (p : Z -> bool) k d :
  p k = true ->
  Dict.get k (filter (fun e => p (fst e)) d) = Dict.get k d.
Proof.
  intros Hp. induction d as [|[k0 v0] d IH]; simpl; [reflexivity|].
  destruct (p k0) eqn:E; simpl.
  - destruct (k0 =? k); [reflexivity | exact IH].
  - destruct (Z.eqb_spec k0 k) as [->|H0]; [congruence | exact IH].
Qed.

Lemma keys_filter (p : Z -> bool) d :
  Dict.keys (filter (fun e => p (fst e)) d) = filter p (Dict.keys d).
Proof.
  induction d as [|[k0 v0] d IH]; simpl; [reflexivity|].
  destruct (p k0); simpl; rewrite IH; reflexivity.
Qed.

Lemma get_remove_other k k' d :
  k <> k' -> Dict.get k' (Dict.remove k d) = Dict.get k' d.
Proof.
  intros Hne. unfold Dict.remove.
  apply (get_filter_keep (fun x => negb (x =? k))).
  destruct (Z.eqb_spec k' k); [congruence | reflexivity].
Qed.

Lemma get_add_other k k' (v : V) d :
  k <> k' -> Dict.get k' (Dict.add k v d) = Dict.get k' d.
Proof.
  intros Hne. unfold Dict.add. rewrite get_app. simpl.
  destruct (Z.eqb_spec k k'); [contradiction|].
  destruct (Dict.get k' d); reflexivity.
Qed.

Lemma map_values_filter (f : V -> V) (p : Z -> bool) d :
  Dict.map_values f (filter (fun e => p (fst e)) d) =
  filter (fun e => p (fst e)) (Dict.map_values f d).
Proof.
  induction d as [|[k0 v0] d IH]; simpl; [reflexivity|].
  destruct (p k0); simpl; rewrite IH; reflexivity.
Qed.

Lemma keys_remove k d :
  Dict.keys (Dict.remove k d) = filter (fun x => negb (x =? k)) (Dict.keys d).
Proof. apply (keys_filter (fun x => negb (x =? k))). Qed.

End DictFacts.

(** ** Python floats *)

Lemma round_half_even_floor (n d : Z) :
  0 < d -> n / d <= round_half_even n d <= n / d + 1.
Proof.
  intros Hd. unfold round_half_even.
  destruct (2 * (n mod d) <? d); [lia|].
  destruct (d <? 2 * (n mod d)); [lia|].
  destruct (Z.even (n / d)); lia.
Qed.

Lemma round_half_even_exact (k d : Z) :
  0 < d -> round_half_even (k * d) d = k.
Proof.
  intros Hd. unfold round_half_even.
  rewrite Z.div_mul, Z.mod_mul by lia.
  destruct (Z.ltb_spec (2 * 0) d); [reflexivity | lia].
Qed.

Lemma round_half_even_lower (n d k : Z) :
  0 < d -> k * d <= n -> k <= round_half_even n d.
Proof.
  intros Hd H. pose proof (round_half_even_floor n d Hd).
  assert (k <= n / d) by (apply Z.div_le_lower_bound; lia). lia.
Qed.

Lemma round_half_even_upper (n d k : Z) :
  0 < d -> n <= k * d -> round_half_even n d <= k.
Proof.
  intros Hd H. destruct (Z.eq_dec n (k * d)) as [->|Hne].
  - rewrite round_half_even_exact by exact Hd. lia.
  - pose proof (round_half_even_floor n d Hd).
    assert (n / d < k) by (apply Z.div_lt_upper_bound; lia). lia.
Qed.

Lemma round_half_even_mono (n n' d : Z) :
  0 < d -> n <= n' -> round_half_even n d <= round_half_even n' d.
Proof.
  intros Hd Hn.
  pose proof (Z.div_le_mono n n' d Hd Hn) as Hq.
  destruct (Z.eq_dec (n / d) (n' / d)) as [E|E].
  - assert (Hr : n mod d <= n' mod d).
    { pose proof (Z.div_mod n d). pose proof (Z.div_mod n' d).
      rewrite E in *. lia. }
    unfold round_half_even. rewrite E.
    destruct (Z.ltb_spec (2 * (n mod d)) d);
      destruct (Z.ltb_spec (2 * (n' mod d)) d);
      destruct (Z.ltb_spec d (2 * (n mod d)));
      destruct (Z.ltb_spec d (2 * (n' mod d)));
      destruct (Z.even (n' / d)); lia.
  - pose proof (round_half_even_floor n d Hd).
    pose proof (round_half_even_floor n' d Hd). lia.
Qed.

(** Twice the distance from [n / d] to its rounding is at most 1. *)
Lemma round_half_even_error (n d : Z) :
  0 < d -> 2 * Z.abs (round_half_even n d * d - n) <= d.
Proof.
  intros Hd. pose proof (Z.div_mod n d). pose proof (Z.mod_pos_bound n d Hd).
  unfold round_half_even.
  destruct (Z.ltb_spec (2 * (n mod d)) d); [nia|].
  destruct (Z.ltb_spec d (2 * (n mod d))); [nia|].
  destruct (Z.even (n / d)); nia.
Qed.

Lemma dropped_bits_nonneg (a b : Z) : 0 <= dropped_bits a b.
Proof. unfold dropped_bits. lia. Qed.

Lemma scaled_nonneg (a b : Z) : 0 <= a -> 0 < b -> 0 <= a * 2 ^ 1074 / b.
Proof.
  intros Ha Hb. apply Z.div_pos; [|exact Hb].
  apply Z.mul_nonneg_nonneg; [exact Ha|]. apply Z.pow_nonneg. lia.
Qed.

Lemma dropped_bits_upper (a b : Z) :
  0 <= a -> 0 < b -> a * 2 ^ 1074 < b * 2 ^ (dropped_bits a b + 53).
Proof.
  intros Ha Hb. pose proof (dropped_bits_nonneg a b) as Hs.
  pose proof (scaled_nonneg a b Ha Hb) as Hy.
  set (n := a * 2 ^ 1074) in *. set (s := dropped_bits a b) in *.
  assert (Hlt : n / b < 2 ^ (s + 53)).
  { destruct (Z.eq_dec (n / b) 0) as [E|E].
    - rewrite E. apply Z.pow_pos_nonneg; lia.
    - apply Z.log2_lt_pow2; [lia|]. unfold s, dropped_bits. fold n. lia. }
  destruct (Z_lt_le_dec n (b * 2 ^ (s + 53))) as [H|H]; [exact H|].
  apply Z.div_le_lower_bound in H; [lia | exact Hb].
Qed.

Lemma dropped_bits_lower (a b : Z) :
  0 <= a -> 0 < b ->
  0 < dropped_bits a b -> b * 2 ^ (dropped_bits a b + 52) <= a * 2 ^ 1074.
Proof.
  intros Ha Hb Hs. pose proof (scaled_nonneg a b Ha Hb) as Hy.
  set (n := a * 2 ^ 1074) in *.
  assert (Hlog : dropped_bits a b + 52 = Z.log2 (n / b)).
  { unfold dropped_bits in *. fold n in Hs |- *. lia. }
  assert (Hpos : 0 < n / b).
  { destruct (Z.eq_dec (n / b) 0) as [E|E]; [|lia].
    rewrite E in Hlog. simpl in Hlog. lia. }
  rewrite Hlog.
  pose proof (proj1 (Z.log2_spec (n / b) Hpos)) as Hp.
  pose proof (Z.mul_div_le n b Hb).
  apply Z.le_trans with (b * (n / b)); [|assumption].
  apply Z.mul_le_mono_nonneg_l; lia.
Qed.

Lemma mantissa_upper (a b : Z) :
  0 <= a -> 0 < b ->
  round_half_even (a * 2 ^ 1074) (b * 2 ^ dropped_bits a b) <= 2 ^ 53.
Proof.
  intros Ha Hb. pose proof (dropped_bits_nonneg a b) as Hs.
  pose proof (dropped_bits_upper a b Ha Hb) as Hu.
  apply round_half_even_upper.
  - apply Z.mul_pos_pos; [exact Hb|]. apply Z.pow_pos_nonneg; lia.
  - rewrite Z.pow_add_r in Hu by lia. lia.
Qed.

Lemma mantissa_lower (a b : Z) :
  0 <= a -> 0 < b ->
  0 < dropped_bits a b ->
  2 ^ 52 <= round_half_even (a * 2 ^ 1074) (b * 2 ^ dropped_bits a b).
Proof.
  intros Ha Hb Hs. pose proof (dropped_bits_lower a b Ha Hb Hs) as Hl.
  apply round_half_even_lower.
  - apply Z.mul_pos_pos; [exact Hb|]. apply Z.pow_pos_nonneg; lia.
  - rewrite Z.pow_add_r in Hl by lia. lia.
Qed.

Lemma mantissa_nonneg (a b : Z) :
  0 <= a -> 0 < b ->
  0 <= round_half_even (a * 2 ^ 1074) (b * 2 ^ dropped_bits a b).
Proof.
  intros Ha Hb. pose proof (dropped_bits_nonneg a b) as Hs.
  apply (round_half_even_lower _ _ 0).
  - apply Z.mul_pos_pos; [exact Hb|]. apply Z.pow_pos_nonneg; lia.
  - apply Z.mul_nonneg_nonneg; [exact Ha|]. apply Z.pow_nonneg. lia.
Qed.

Lemma dropped_bits_mono (a a' b : Z) :
  0 <= a -> a <= a' -> 0 < b -> dropped_bits a b <= dropped_bits a' b.
Proof.
  intros Ha Haa Hb. unfold dropped_bits.
  apply Z.max_le_compat_l. apply Z.sub_le_mono_r. apply Z.log2_le_mono.
  apply Z.div_le_mono; [exact Hb|].
  apply Z.mul_le_mono_nonneg_r; [|exact Haa]. apply Z.pow_nonneg. lia.
Qed.

(** The nearest double grows with the numerator. *)
Lemma nearest_double_mono (a a' b : Z) :
  0 <= a -> a <= a' -> 0 < b ->
  let (m, e) := nearest_double a b in
  let (m', e') := nearest_double a' b in
  e <= e' /\ m <= m' * 2 ^ (e' - e).
Proof.
  intros Ha Haa Hb. unfold nearest_double.
  pose proof (dropped_bits_mono a a' b Ha Haa Hb) as Hs.
  split; [lia|].
  replace (dropped_bits a' b - 1074 - (dropped_bits a b - 1074))
    with (dropped_bits a' b - dropped_bits a b) by lia.
  destruct (Z.eq_dec (dropped_bits a b) (dropped_bits a' b)) as [E|E].
  - rewrite E, Z.sub_diag, Z.mul_1_r. apply round_half_even_mono.
    + apply Z.mul_pos_pos; [exact Hb|]. apply Z.pow_pos_nonneg; [lia|].
      apply dropped_bits_nonneg.
    + apply Z.mul_le_mono_nonneg_r; [|exact Haa]. apply Z.pow_nonneg. lia.
  - pose proof (dropped_bits_nonneg a b) as H0.
    pose proof (mantissa_upper a b Ha Hb) as Hu.
    assert (Hs' : 0 < dropped_bits a' b) by lia.
    pose proof (mantissa_lower a' b ltac:(lia) Hb Hs') as Hl.
    assert (Hp : 2 ^ 1 <= 2 ^ (dropped_bits a' b - dropped_bits a b))
      by (apply Z.pow_le_mono_r; lia).
    change (2 ^ 53) with (2 ^ 52 * 2 ^ 1) in Hu.
    apply Z.le_trans with (2 ^ 52 * 2 ^ 1); [exact Hu|].
    apply Z.mul_le_mono_nonneg; try lia. 
Qed.

Lemma float_value_eq (m e : Z) : (float_value m e == inject_Z m * 2 ^ e)%Q.
Proof. unfold float_value. apply Qred_correct. Qed.

Lemma two_power_pos (e : Z) : (0 < 2 ^ e)%Q.
Proof. apply Qpower_0_lt. reflexivity. Qed.

Lemma float_value_le (m e m' e' : Z) :
  e <= e' -> m <= m' * 2 ^ (e' - e) ->
  (float_value m e <= float_value m' e')%Q.
Proof.
  intros He Hm. rewrite !float_value_eq.
  replace e' with ((e' - e) + e) at 1 by lia.
  rewrite Qpower_plus by discriminate.
  rewrite Qmult_assoc. apply Qmult_le_compat_r.
  - rewrite <- (Zpower_Qpower 2 (e' - e)) by lia.
    rewrite <- inject_Z_mult, <- Zle_Qle. exact Hm.
  - apply Qlt_le_weak, two_power_pos.
Qed.

Lemma float_value_nonneg (m e : Z) : 0 <= m -> (0 <= float_value m e)%Q.
Proof.
  intros Hm. rewrite float_value_eq. apply Qmult_le_0_compat.
  - change 0%Q with (inject_Z 0). rewrite <- Zle_Qle. exact Hm.
  - apply Qlt_le_weak, two_power_pos.
Qed.

Lemma float_value_nonpos (m e : Z) : m <= 0 -> (float_value m e <= 0)%Q.
Proof.
  intros Hm. rewrite float_value_eq.
  setoid_replace 0%Q with (0 * 2 ^ e)%Q by ring.
  apply Qmult_le_compat_r.
  - change 0%Q with (inject_Z 0). rewrite <- Zle_Qle. exact Hm.
  - apply Qlt_le_weak, two_power_pos.
Qed.

Lemma float_value_neg (m e : Z) : m < 0 -> (float_value m e < 0)%Q.
Proof.
  intros Hm. rewrite float_value_eq.
  setoid_replace 0%Q with (0 * 2 ^ e)%Q by ring.
  apply Qmult_lt_compat_r.
  - apply two_power_pos.
  - change 0%Q with (inject_Z 0). rewrite <- Zlt_Qlt. exact Hm.
Qed.

(** [true_div] on a non-negative numerator and a positive divisor. *)
Lemma true_div_pos (a b : Z) :
  0 <= a -> 0 < b ->
  true_div a b =
    let (m, e) := nearest_double a b in
    if 2 ^ 1024 <=? m * 2 ^ e then Raise OverflowError
    else Ok (float_value m e).
Proof.
  intros Ha Hb. unfold true_div.
  destruct (Z.eqb_spec b 0); [lia|].
  rewrite (Z.abs_eq a), (Z.abs_eq b) by lia.
  unfold nearest_double.
  destruct (2 ^ 1024 <=? _); [reflexivity|].
  rewrite (Z.sgn_pos b) by lia. rewrite Z.mul_1_r.
  destruct (Z.eq_dec a 0) as [->|Ha0].
  - assert (Hm : round_half_even (0 * 2 ^ 1074) (b * 2 ^ dropped_bits 0 b) = 0).
    { rewrite Z.mul_0_l.
      apply (round_half_even_exact 0 (b * 2 ^ dropped_bits 0 b)).
      apply Z.mul_pos_pos; [exact Hb|].
      apply Z.pow_pos_nonneg; [lia | apply dropped_bits_nonneg]. }
    rewrite Hm. reflexivity.
  - rewrite (Z.sgn_pos a) by lia. rewrite Z.mul_1_l. reflexivity.
Qed.


(** A quotient of at most 1 does not overflow. *)
Lemma true_div_unit (a b : Z) :
  0 <= a <= b -> 0 < b ->
  true_div a b = Ok (let (m, e) := nearest_double a b in float_value m e).
Proof.
  intros [Ha Hab] Hb. rewrite true_div_pos by assumption.
  unfold nearest_double.
  assert (Hs : dropped_bits a b - 1074 < 0).
  { unfold dropped_bits.
    assert (Hy : a * 2 ^ 1074 / b <= 2 ^ 1074).
    { apply Z.div_le_upper_bound; [exact Hb|].
      apply Z.mul_le_mono_nonneg_r; [apply Z.pow_nonneg; lia | exact Hab]. }
    apply Z.log2_le_mono in Hy. rewrite Z.log2_pow2 in Hy by lia. lia. }
  rewrite (Z.pow_neg_r 2 _ Hs), Z.mul_0_r.
  destruct (Z.leb_spec (2 ^ 1024) 0) as [H|H]; [|reflexivity].
  assert (0 < 2 ^ 1024) by (apply Z.pow_pos_nonneg; lia). lia.
Qed.

Lemma true_div_same (b : Z) : 0 < b -> true_div b b = Ok 1%Q.
Proof.
  intros Hb. rewrite true_div_unit by lia. f_equal.
  unfold nearest_double, dropped_bits.
  rewrite (Z.mul_comm b), Z.div_mul by lia. rewrite Z.log2_pow2 by lia.
  change (Z.max 0 (1074 - 52)) with 1022.
  replace (2 ^ 1074 * b) with (2 ^ 52 * (b * 2 ^ 1022)).
  - rewrite round_half_even_exact.
    + reflexivity.
    + apply Z.mul_pos_pos; [exact Hb|]. apply Z.pow_pos_nonneg; lia.
  - change (2 ^ 1074) with (2 ^ 52 * 2 ^ 1022). ring.
Qed.

Lemma true_div_mono (a a' b : Z) (q q' : Q) :
  0 <= a -> a <= a' -> 0 < b ->
  true_div a b = Ok q -> true_div a' b = Ok q' -> (q <= q')%Q.
Proof.
  intros Ha Haa Hb. rewrite !true_div_pos by lia.
  pose proof (nearest_double_mono a a' b Ha Haa Hb) as H.
  destruct (nearest_double a b) as [m e].
  destruct (nearest_double a' b) as [m' e'].
  destruct (2 ^ 1024 <=? m * 2 ^ e); [discriminate|].
  destruct (2 ^ 1024 <=? m' * 2 ^ e'); [discriminate|].
  intros [= <-] [= <-]. apply float_value_le; tauto.
Qed.

Lemma true_div_range (a b : Z) (q : Q) :
  0 <= a <= b -> 0 < b -> true_div a b = Ok q -> (0 <= q <= 1)%Q.
Proof.
  intros [Ha Hab] Hb H. split.
  - rewrite true_div_pos in H by assumption.
    unfold nearest_double in H.
    destruct (2 ^ 1024 <=? _) in H; [discriminate|]. injection H as <-.
    apply float_value_nonneg, mantissa_nonneg; assumption.
  - apply (true_div_mono a b b q 1 Ha Hab Hb H). apply true_div_same, Hb.
Qed.

(** A negative divisor: the quotient of a non-negative numerator is at
    most 0, and negative when the divisor is above [- 2 ^ 1024]. *)
Lemma true_div_negative (a b : Z) (q : Q) :
  0 <= a -> b < 0 -> true_div a b = Ok q ->
  (q <= 0)%Q /\ (0 < a -> - 2 ^ 1024 < b -> (q < 0)%Q).
Proof.
  intros Ha Hb. unfold true_div.
  destruct (Z.eqb_spec b 0); [lia|].
  rewrite (Z.abs_eq a) by lia. unfold nearest_double.
  set (B := Z.abs b). assert (HB : 0 < B) by (unfold B; lia).
  set (s := dropped_bits a B).
  set (m := round_half_even (a * 2 ^ 1074) (B * 2 ^ s)).
  pose proof (mantissa_nonneg a B Ha HB) as Hm. fold s m in Hm.
  destruct (2 ^ 1024 <=? m * 2 ^ (s - 1074)); [discriminate|].
  intros [= <-]. rewrite (Z.sgn_neg b) by lia. split.
  - apply float_value_nonpos. pose proof (Z.sgn_nonneg a). nia.
  - intros Hpos Hbound. apply float_value_neg.
    rewrite (Z.sgn_pos a) by lia.
    assert (0 < m); [|lia].
    pose proof (dropped_bits_nonneg a B) as Hs. fold s in Hs.
    destruct (Z.eq_dec s 0) as [E|E].
    + assert (1 <= m); [|lia]. unfold m. rewrite E, Z.mul_1_r.
      apply round_half_even_lower; [exact HB|].
      assert (2 ^ 1024 <= 2 ^ 1074) by (apply Z.pow_le_mono_r; lia).
      assert (B < 2 ^ 1024) by (unfold B; lia). nia.
    + pose proof (mantissa_lower a B Ha HB ltac:(fold s; lia)) as Hl.
      fold s m in Hl.
      assert (0 < 2 ^ 52) by (apply Z.pow_pos_nonneg; lia). lia.
Qed.


Lemma float_value_scaled (m e : Z) :
  - 1074 <= e ->
  (float_value m e == inject_Z (m * 2 ^ (e + 1074)) * 2 ^ (- 1074))%Q.
Proof.
  intros He. rewrite float_value_eq.
  replace e with ((e + 1074) + (- 1074)) at 1 by lia.
  rewrite Qpower_plus by discriminate.
  rewrite inject_Z_mult, (Zpower_Qpower 2 (e + 1074)) by lia.
  apply Qmult_assoc.
Qed.

Lemma float_value_lt (m e m' e' : Z) :
  - 1074 <= e -> - 1074 <= e' ->
  m * 2 ^ (e + 1074) < m' * 2 ^ (e' + 1074) ->
  (float_value m e < float_value m' e')%Q.
Proof.
  intros He He' H. rewrite !float_value_scaled by assumption.
  apply Qmult_lt_compat_r.
  - apply two_power_pos.
  - rewrite <- Zlt_Qlt. exact H.
Qed.

Lemma nearest_double_same (b : Z) :
  0 < b -> nearest_double b b = (2 ^ 52, - 52).
Proof.
  intros Hb. unfold nearest_double, dropped_bits.
  rewrite (Z.mul_comm b), Z.div_mul by lia. rewrite Z.log2_pow2 by lia.
  change (Z.max 0 (1074 - 52)) with 1022.
  replace (2 ^ 1074 * b) with (2 ^ 52 * (b * 2 ^ 1022)).
  - rewrite round_half_even_exact.
    + reflexivity.
    + apply Z.mul_pos_pos; [exact Hb|]. apply Z.pow_pos_nonneg; lia.
  - change (2 ^ 1074) with (2 ^ 52 * 2 ^ 1022). ring.
Qed.

(** Below the divisor, at most 1021 bits are dropped. *)
Lemma dropped_bits_below (a b : Z) :
  0 <= a < b -> dropped_bits a b <= 1021.
Proof.
  intros [Ha Hab]. unfold dropped_bits.
  pose proof (scaled_nonneg a b Ha ltac:(lia)) as Hy.
  assert (Hlt : a * 2 ^ 1074 / b < 2 ^ 1074).
  { apply Z.div_lt_upper_bound; [lia|].
    apply Z.mul_lt_mono_pos_r; [apply Z.pow_pos_nonneg; lia | exact Hab]. }
  destruct (Z.eq_dec (a * 2 ^ 1074 / b) 0) as [E|E].
  - rewrite E. simpl. lia.
  - apply Z.log2_lt_pow2 in Hlt; lia.
Qed.

(** The value returned is a binary64 number, and the quotient lies
    within half a unit in its last place. *)
Lemma true_div_nearest (a b : Z) (q : Q) :
  0 <= a -> 0 < b -> true_div a b = Ok q ->
  exists m e,
    q = float_value m e /\ 0 <= m <= 2 ^ 53 /\ - 1074 <= e /\
    (e = - 1074 \/ 2 ^ 52 <= m) /\
    2 * Z.abs (m * 2 ^ (e + 1074) * b - a * 2 ^ 1074) <= b * 2 ^ (e + 1074).
Proof.
  intros Ha Hb. rewrite true_div_pos by assumption. unfold nearest_double.
  set (s := dropped_bits a b).
  set (m := round_half_even (a * 2 ^ 1074) (b * 2 ^ s)).
  destruct (2 ^ 1024 <=? m * 2 ^ (s - 1074)); [discriminate|].
  intros [= <-]. exists m, (s - 1074).
  pose proof (dropped_bits_nonneg a b) as Hs. fold s in Hs.
  split; [reflexivity|]. split.
  - split; [apply mantissa_nonneg | apply mantissa_upper]; assumption.
  - split; [lia|]. split.
    { destruct (Z.eq_dec s 0) as [E|E]; [left; lia | right].
      apply mantissa_lower; [assumption | assumption | fold s; lia]. }
    replace (s - 1074 + 1074) with s by lia.
    assert (Hd : 0 < b * 2 ^ s)
      by (apply Z.mul_pos_pos; [exact Hb | apply Z.pow_pos_nonneg; lia]).
    pose proof (round_half_even_error (a * 2 ^ 1074) (b * 2 ^ s) Hd) as He.
    fold m in He.
    replace (m * 2 ^ s * b) with (m * (b * 2 ^ s)) by ring. exact He.
Qed.

(** Below [2 ^ 53] two numerators never give the same float. *)
Lemma true_div_lt (a a' b : Z) (q q' : Q) :
  0 <= a -> a < a' -> a' <= b -> b < 2 ^ 53 ->
  true_div a b = Ok q -> true_div a' b = Ok q' -> (q < q')%Q.
Proof.
  intros Ha Haa Hab Hb53 H H'.
  assert (Hb : 0 < b) by lia.
  rewrite true_div_unit in H, H' by lia.
  assert (Hq : q = let (m, e) := nearest_double a b in float_value m e)
    by congruence.
  assert (Hq' : q' = let (m, e) := nearest_double a' b in float_value m e)
    by congruence.
  clear H H'. subst q q'.
  pose proof (dropped_bits_below a b ltac:(lia)) as Hs.
  pose proof (dropped_bits_nonneg a b) as Hs0.
  assert (HP : 2 ^ 1074 = 2 ^ 54 * 2 ^ 1020) by reflexivity.
  assert (HK : 0 < 2 ^ 1020) by (apply Z.pow_pos_nonneg; lia).
  assert (H54 : 2 ^ 54 = 2 * 2 ^ 53) by reflexivity.
  assert (Hlow : 2 * Z.abs (round_half_even (a * 2 ^ 1074)
                                            (b * 2 ^ dropped_bits a b)
                            * 2 ^ dropped_bits a b * b - a * 2 ^ 1074)
                 <= b * 2 ^ 1021).
  { assert (Hd : 0 < b * 2 ^ dropped_bits a b)
      by (apply Z.mul_pos_pos; [exact Hb | apply Z.pow_pos_nonneg; lia]).
    pose proof (round_half_even_error (a * 2 ^ 1074) _ Hd) as He.
    assert (2 ^ dropped_bits a b <= 2 ^ 1021)
      by (apply Z.pow_le_mono_r; lia).
    replace (round_half_even (a * 2 ^ 1074) (b * 2 ^ dropped_bits a b)
             * 2 ^ dropped_bits a b * b)
      with (round_half_even (a * 2 ^ 1074) (b * 2 ^ dropped_bits a b)
            * (b * 2 ^ dropped_bits a b)) by ring.
    apply Z.le_trans with (1 := He).
    apply Z.mul_le_mono_nonneg_l; lia. }
  assert (Hstep : a * 2 ^ 1074 + 2 ^ 1074 <= a' * 2 ^ 1074).
  { replace (a * 2 ^ 1074 + 2 ^ 1074) with ((a + 1) * 2 ^ 1074) by ring.
    apply Z.mul_le_mono_nonneg_r; [apply Z.pow_nonneg|]; lia. }
  assert (Hgap : b * 2 ^ 1021 < 2 ^ 1074).
  { change (2 ^ 1074) with (2 ^ 53 * 2 ^ 1021).
    apply Z.mul_lt_mono_pos_r; [apply Z.pow_pos_nonneg; lia | exact Hb53]. }
  destruct (Z.eq_dec a' b) as [->|Hne].
  - rewrite (nearest_double_same b Hb).
    unfold nearest_double. cbv beta iota zeta.
    apply float_value_lt; [lia | lia |].
    replace (dropped_bits a b - 1074 + 1074) with (dropped_bits a b) by lia.
    change (2 ^ 52 * 2 ^ (-52 + 1074)) with (2 ^ 1074).
    set (M := round_half_even (a * 2 ^ 1074) (b * 2 ^ dropped_bits a b)
              * 2 ^ dropped_bits a b) in *.
    assert (M * b < 2 ^ 1074 * b); [|nia].
    set (P := 2 ^ 1074) in *. set (R := 2 ^ 1021) in *. nia.
  - unfold nearest_double. cbv beta iota zeta.
    pose proof (dropped_bits_below a' b ltac:(lia)) as Hs'.
    pose proof (dropped_bits_nonneg a' b) as Hs0'.
    assert (Hup : 2 * Z.abs (round_half_even (a' * 2 ^ 1074)
                                             (b * 2 ^ dropped_bits a' b)
                             * 2 ^ dropped_bits a' b * b - a' * 2 ^ 1074)
                  <= b * 2 ^ 1021).
    { assert (Hd : 0 < b * 2 ^ dropped_bits a' b)
        by (apply Z.mul_pos_pos; [exact Hb | apply Z.pow_pos_nonneg; lia]).
      pose proof (round_half_even_error (a' * 2 ^ 1074) _ Hd) as He.
      assert (2 ^ dropped_bits a' b <= 2 ^ 1021)
        by (apply Z.pow_le_mono_r; lia).
      replace (round_half_even (a' * 2 ^ 1074) (b * 2 ^ dropped_bits a' b)
               * 2 ^ dropped_bits a' b * b)
        with (round_half_even (a' * 2 ^ 1074) (b * 2 ^ dropped_bits a' b)
              * (b * 2 ^ dropped_bits a' b)) by ring.
      apply Z.le_trans with (1 := He).
      apply Z.mul_le_mono_nonneg_l; lia. }
    apply float_value_lt; [lia | lia |].
    replace (dropped_bits a b - 1074 + 1074) with (dropped_bits a b) by lia.
    replace (dropped_bits a' b - 1074 + 1074) with (dropped_bits a' b) by lia.
    set (M := round_half_even (a * 2 ^ 1074) (b * 2 ^ dropped_bits a b)
              * 2 ^ dropped_bits a b) in *.
    set (M' := round_half_even (a' * 2 ^ 1074) (b * 2 ^ dropped_bits a' b)
               * 2 ^ dropped_bits a' b) in *.
    assert (M * b < M' * b); [|nia].
    set (P := 2 ^ 1074) in *. set (R := 2 ^ 1021) in *. lia.
Qed.

(** The division on some arguments: a quotient that is rounded, two
    numerators that give the same float beyond [2 ^ 53], a quotient too
    small for a float, which is rounded to 0, and the two failures. *)
Example true_div_values :
  true_div 1 3 = Ok (6004799503160661 # 18014398509481984) /\
  true_div (2 ^ 53) (2 ^ 54) = Ok (1 # 2) /\
  true_div (2 ^ 53 + 1) (2 ^ 54) = Ok (1 # 2) /\
  true_div 1 (- 2 ^ 1075) = Ok 0%Q /\
  true_div 1 0 = Raise ZeroDivisionError /\
  true_div (2 ^ 1024) 1 = Raise OverflowError.
Proof. repeat split; vm_compute; reflexivity. Qed.

(** ** Grouping the detections of a frame by label *)

Section Grouping.
Variable Point : Type.
Variable fit_predict : list Point -> list Z.
Abbreviation Detection := (Detection Point).
Abbreviation Frame := (list Detection).
Implicit Types (grouped : Dict.t (list Detection)) (d : Detection).

Lemma keys_append_member label d grouped :
  Dict.keys (append_member label d grouped) =
  if Dict.mem label grouped then Dict.keys grouped
  else Dict.keys grouped ++ [label].
Proof.
  induction grouped as [|[k ms] g IH]; simpl; [reflexivity|].
  unfold Dict.mem. simpl. rewrite (Z.eqb_sym label k).
  destruct (k =? label); simpl; [reflexivity|].
  rewrite IH. unfold Dict.mem.
  destruct (existsb (Z.eqb label) (Dict.keys g)); reflexivity.
Qed.

Lemma NoDup_append_member label d grouped :
  NoDup (Dict.keys grouped) -> NoDup (Dict.keys (append_member label d grouped)).
Proof.
  intros ND. rewrite keys_append_member.
  destruct (Dict.mem label grouped) eqn:E; [exact ND|].
  apply mem_false in E. apply NoDup_app; repeat split.
  - exact ND.
  - constructor; [intros [] | constructor].
  - intros x Hx [Hx'|[]]. subst. contradiction.
Qed.

Lemma get_append_member_same label d grouped :
  Dict.get label (append_member label d grouped) =
  Some (cluster_members label grouped ++ [d]).
Proof.
  unfold cluster_members.
  induction grouped as [|[k ms] g IH]; simpl.
  - rewrite Z.eqb_refl. reflexivity.
  - destruct (k =? label) eqn:E; simpl; rewrite E; [reflexivity | exact IH].
Qed.

Lemma get_append_member_other label k d grouped :
  k <> label ->
  Dict.get k (append_member label d grouped) = Dict.get k grouped.
Proof.
  intros Hne. induction grouped as [|[k0 ms] g IH]; simpl.
  - destruct (Z.eqb_spec label k); [congruence | reflexivity].
  - destruct (Z.eqb_spec k0 label) as [->|H0]; simpl.
    + destruct (Z.eqb_spec label k); [congruence | reflexivity].
    + destruct (k0 =? k); [reflexivity | exact IH].
Qed.

Lemma cluster_members_append label k d grouped :
  cluster_members k (append_member label d grouped) =
  cluster_members k grouped ++ (if label =? k then [d] else []).
Proof.
  destruct (Z.eqb_spec label k) as [->|Hne].
  - unfold cluster_members at 1. rewrite get_append_member_same. reflexivity.
  - unfold cluster_members. rewrite get_append_member_other by congruence.
    rewrite app_nil_r. reflexivity.
Qed.

Lemma skipn_nth_error (A : Type) (l : list A) (i : nat) :
  skipn i l = match nth_error l i with
              | Some a => a :: skipn (S i) l
              | None => []
              end.
Proof.
  revert i; induction l as [|a l IH]; intros [|i]; simpl; try reflexivity.
  rewrite IH. destruct (nth_error l i); reflexivity.
Qed.

Lemma skipn_S_nil (A : Type) (l : list A) (i : nat) :
  skipn i l = [] -> skipn (S i) l = [].
Proof.
  revert i; induction l as [|a l IH]; intros [|i]; simpl; try reflexivity.
  - discriminate.
  - intros H. apply IH in H. exact H.
Qed.

(** The loop of lines 96-98 completes when there are no more labels
    than detections. *)
Lemma group_by_label_completes labels : forall i (dets : Frame) grouped,
  (i + List.length labels <= List.length dets)%nat ->
  exists g', group_by_label i labels dets grouped = Ok g'.
Proof.
  induction labels as [|l labels IH]; intros i dets grouped Hlen; simpl.
  - exists grouped. reflexivity.
  - simpl in Hlen. destruct (l =? -1).
    + apply IH. lia.
    + destruct (nth_error dets i) as [d|] eqn:E.
      * apply IH. lia.
      * apply nth_error_None in E. lia.
Qed.

Lemma with_label_cons k l labels d (tl : Frame) :
  with_label k (l :: labels) (d :: tl) =
  (if l =? k then [d] else []) ++ with_label k labels tl.
Proof.
  unfold with_label. simpl combine. simpl filter. simpl fst.
  destruct (l =? k); reflexivity.
Qed.

Lemma with_label_nil_l k (dets : Frame) : with_label k [] dets = [].
Proof. reflexivity. Qed.

Lemma with_label_nil_r k labels : with_label k labels (@nil Detection) = [].
Proof. unfold with_label. destruct labels; reflexivity. Qed.

(** Cluster [k] gets exactly the detections labelled [k], whether or not
    they carry a track identity; label -1 gets nothing. *)
Lemma group_by_label_members labels : forall i (dets : Frame) grouped g' k,
  group_by_label i labels dets grouped = Ok g' ->
  cluster_members k g' =
  cluster_members k grouped ++
    (if k =? -1 then [] else with_label k labels (skipn i dets)).
Proof.
  induction labels as [|l labels IH]; intros i dets grouped g' k.
  - simpl. intros [= <-]. rewrite with_label_nil_l.
    destruct (k =? -1); rewrite app_nil_r; reflexivity.
  - simpl group_by_label. destruct (Z.eqb_spec l (-1)) as [->|Hl].
    + intros H. rewrite (IH _ _ _ _ k H).
      destruct (Z.eqb_spec k (-1)) as [->|Hk]; [reflexivity|]. f_equal.
      rewrite (skipn_nth_error _ dets i).
      destruct (nth_error dets i) as [d|] eqn:E.
      * rewrite with_label_cons.
        destruct (Z.eqb_spec (-1) k); [congruence | reflexivity].
      * rewrite with_label_nil_r, skipn_S_nil; [apply with_label_nil_r|].
        rewrite skipn_nth_error, E. reflexivity.
    + destruct (nth_error dets i) as [d|] eqn:E; [|discriminate].
      intros H. rewrite (IH _ _ _ _ k H).
      rewrite cluster_members_append, <- app_assoc. f_equal.
      rewrite (skipn_nth_error _ dets i), E.
      destruct (Z.eqb_spec k (-1)) as [->|Hk].
      * destruct (Z.eqb_spec l (-1)); [congruence | reflexivity].
      * rewrite with_label_cons. reflexivity.
Qed.

Lemma group_by_label_keys labels : forall i (dets : Frame) grouped g',
  group_by_label i labels dets grouped = Ok g' ->
  (NoDup (Dict.keys grouped) -> NoDup (Dict.keys g')) /\
  (forall k, In k (Dict.keys g') ->
             In k (Dict.keys grouped) \/ (In k labels /\ k <> -1)).
Proof.
  induction labels as [|l labels IH]; intros i dets grouped g'; simpl.
  - intros [= <-]. split; auto.
  - destruct (Z.eqb_spec l (-1)) as [->|Hl].
    + intros H. destruct (IH _ _ _ _ H) as [ND K]. split; [exact ND|].
      intros k Hk. destruct (K k Hk) as [?|[? ?]]; auto.
    + destruct (nth_error dets i) as [d|]; [|discriminate].
      intros H. destruct (IH _ _ _ _ H) as [ND K]. split.
      * intros ND0. apply ND, NoDup_append_member, ND0.
      * intros k Hk. destruct (K k Hk) as [Hk'|[? ?]]; auto.
        rewrite keys_append_member in Hk'.
        destruct (Dict.mem l grouped); auto.
        apply in_app_or in Hk'. destruct Hk' as [?|[<-|[]]]; auto.
Qed.

Lemma grouped_detections_NoDup (dets : Frame) grouped :
  grouped_detections fit_predict dets = Ok grouped ->
  NoDup (Dict.keys grouped).
Proof.
  unfold grouped_detections. destruct (3 <=? List.length dets)%nat.
  - intros H. apply (group_by_label_keys _ _ _ _ _ H). constructor.
  - intros [= <-]. constructor.
Qed.

End Grouping.

(** ** One frame *)

Section FrameFacts.
Variable Point : Type.
Variable fit_predict : list Point -> list Z.
Variable slot : set_order.
Abbreviation Det := (Detection Point).
Implicit Types (grouped : Dict.t (list Det)) (st : VideoProcessor).

Lemma forget_set_last_log (entry : Row) (g : Group) :
  forget_last_log (set_last_log entry g) = forget_last_log g.
Proof. reflexivity. Qed.

Lemma continuation_rows_cons dir idx (c : Z * list Det) grouped :
  continuation_rows dir idx (c :: grouped) =
  continuation_rows dir idx [c] ++ continuation_rows dir idx grouped.
Proof.
  unfold continuation_rows. destruct (idx mod 30 =? 0); reflexivity.
Qed.

(** The body of the cluster loop never raises; it adds the key when it
    is new, and writes one row on a snapshot frame. *)
Lemma cluster_step_spec idx st g (ms : list Det) :
  exists st',
    cluster_step idx st (g, ms) = Ok st' /\
    saved_frames_dir st' = saved_frames_dir st /\
    log_file st' =
      log_file st ++ continuation_rows (saved_frames_dir st) idx [(g, ms)] /\
    Dict.map_values forget_last_log (active_groups st') =
      Dict.map_values forget_last_log (active_groups st)
      ++ (if Dict.mem g (active_groups st) then [] else [(g, new_group idx)]) /\
    (forall k, k <> g ->
               Dict.get k (active_groups st') = Dict.get k (active_groups st)).
Proof.
  unfold cluster_step, continuation_rows.
  destruct (Dict.mem g (active_groups st)) eqn:Hmem;
    destruct (idx mod 30 =? 0) eqn:Hsnap; simpl.
  - apply mem_In, get_of_key in Hmem. destruct Hmem as [grp Hget].
    unfold getitem. rewrite Hget. simpl. eexists. split; [reflexivity|].
    simpl. repeat split.
    + rewrite map_values_update by apply forget_set_last_log.
      rewrite app_nil_r. reflexivity.
    + intros k Hk. apply get_update_other. congruence.
  - eexists. split; [reflexivity|]. rewrite !app_nil_r. auto.
  - unfold getitem, Dict.add. rewrite get_app.
    apply mem_false, get_None in Hmem. rewrite Hmem. simpl.
    rewrite Z.eqb_refl. simpl. eexists. split; [reflexivity|].
    simpl. repeat split.
    + rewrite map_values_update by apply forget_set_last_log.
      unfold Dict.map_values. rewrite map_app. reflexivity.
    + intros k Hk. rewrite get_update_other by congruence.
      apply get_add_other. congruence.
  - eexists. split; [reflexivity|]. simpl. rewrite app_nil_r.
    repeat split.
    + unfold Dict.map_values, Dict.add. rewrite map_app. reflexivity.
    + intros k Hk. apply get_add_other. congruence.
Qed.

Lemma fresh_keys_ext (a a' : Dict.t Group) (g : Z) (ks : list Z) :
  ~ In g ks ->
  Dict.keys a' = Dict.keys a ++ (if Dict.mem g a then [] else [g]) ->
  fresh_keys a' ks = fresh_keys a ks.
Proof.
  intros Hg Hk. unfold fresh_keys. apply filter_ext_in. intros k Hin.
  f_equal. unfold Dict.mem at 1. rewrite Hk, existsb_app.
  fold (Dict.mem k a). destruct (Dict.mem g a); simpl.
  - apply orb_false_r.
  - destruct (Z.eqb_spec k g); [subst; contradiction|].
    rewrite !orb_false_r. reflexivity.
Qed.

(** The cluster loop (lines 100-130). *)
Lemma cluster_loop_spec idx grouped : forall st,
  NoDup (Dict.keys grouped) ->
  exists st1,
    foldM (cluster_step idx) grouped st = Ok st1 /\
    saved_frames_dir st1 = saved_frames_dir st /\
    log_file st1 =
      log_file st ++ continuation_rows (saved_frames_dir st) idx grouped /\
    Dict.map_values forget_last_log (active_groups st1) =
      Dict.map_values forget_last_log (active_groups st)
      ++ map (fun g => (g, new_group idx))
             (fresh_keys (active_groups st) (Dict.keys grouped)) /\
    (forall k, ~ In k (Dict.keys grouped) ->
               Dict.get k (active_groups st1) = Dict.get k (active_groups st)).
Proof.
  induction grouped as [|[g ms] grouped IH]; intros st ND.
  - exists st. simpl. unfold continuation_rows.
    destruct (idx mod 30 =? 0); rewrite !app_nil_r; auto.
  - simpl in ND. inversion ND as [|? ? Hg ND']; subst.
    destruct (cluster_step_spec idx st g ms)
      as (st' & Hs & Hd & Hl & Ha & Ho).
    destruct (IH st' ND') as (st1 & Hf & Hd1 & Hl1 & Ha1 & Ho1).
    exists st1. cbn [foldM]. rewrite Hs. cbn [bind]. split; [exact Hf|].
    split; [congruence|].
    split; [|split; [|intros k Hk; simpl in Hk; rewrite Ho1, Ho; auto]].
    + rewrite Hl1, Hl, Hd, <- app_assoc, <- continuation_rows_cons.
      reflexivity.
    + rewrite Ha1, Ha, <- app_assoc. f_equal.
      assert (Hk : Dict.keys (active_groups st') =
                   Dict.keys (active_groups st)
                   ++ (if Dict.mem g (active_groups st) then [] else [g])).
      { rewrite <- (keys_map_values forget_last_log (active_groups st')), Ha.
        rewrite keys_app, keys_map_values.
        destruct (Dict.mem g (active_groups st)); reflexivity. }
      rewrite (fresh_keys_ext _ _ _ _ Hg Hk).
      simpl. unfold fresh_keys at 2. simpl.
      destruct (Dict.mem g (active_groups st)); reflexivity.
Qed.


Lemma termination_rows_ext (entry : Z -> Group -> Row)
      (a a' : Dict.t Group) (gs : list Z) :
  (forall g, In g gs -> Dict.get g a = Dict.get g a') ->
  termination_rows entry a gs = termination_rows entry a' gs.
Proof.
  unfold termination_rows. induction gs as [|g gs IH]; intros H; simpl.
  - reflexivity.
  - rewrite (H g) by (left; reflexivity).
    rewrite IH by (intros; apply H; right; assumption). reflexivity.
Qed.

Lemma filter_remove (g : Z) (rest : list Z) (a : Dict.t Group) :
  filter (fun e => negb (in_set (fst e) rest)) (Dict.remove g a) =
  filter (fun e => negb (in_set (fst e) (g :: rest))) a.
Proof.
  unfold Dict.remove. induction a as [|[k v] a IH]; simpl; [reflexivity|].
  destruct (k =? g); simpl; rewrite IH; reflexivity.
Qed.

(** The loop over the groups that matched no cluster (lines 133-143)
    never raises: it writes one row per group and removes it. *)
Lemma disappear_loop_spec idx gs : forall st,
  NoDup gs -> incl gs (Dict.keys (active_groups st)) ->
  exists st2,
    foldM (disappear_step idx) gs st = Ok st2 /\
    saved_frames_dir st2 = saved_frames_dir st /\
    saved_frames st2 = saved_frames st /\
    log_file st2 =
      log_file st
      ++ termination_rows (termination_entry idx) (active_groups st) gs /\
    active_groups st2 =
      filter (fun e => negb (in_set (fst e) gs)) (active_groups st).
Proof.
  induction gs as [|g gs IH]; intros st ND Hincl.
  - exists st. simpl. rewrite app_nil_r. repeat split.
    symmetry. apply forallb_filter_id. apply forallb_forall. reflexivity.
  - inversion ND as [|? ? Hg ND']; subst.
    destruct (get_of_key g (active_groups st)) as [grp Hget];
      [apply Hincl; left; reflexivity|].
    set (st' := with_active (_log_group_event st (termination_entry idx g grp))
                            (Dict.remove g (active_groups st))).
    assert (Hstep : disappear_step idx st g = Ok st').
    { unfold disappear_step, getitem. rewrite Hget. simpl. rewrite Hget.
      reflexivity. }
    destruct (IH st' ND') as (st2 & Hf & Hd & Hs & Hl & Ha).
    { intros k Hk. simpl. rewrite keys_remove. apply filter_In. split.
      - apply Hincl. right. exact Hk.
      - destruct (Z.eqb_spec k g); [subst; contradiction | reflexivity]. }
    exists st2. cbn [foldM]. rewrite Hstep. cbn [bind].
    split; [exact Hf|]. split; [exact Hd|]. split; [exact Hs|]. split.
    + rewrite Hl. simpl. rewrite <- app_assoc. f_equal.
      unfold termination_rows at 2. simpl. rewrite Hget.
      simpl. f_equal. apply termination_rows_ext.
      intros k Hk. apply get_remove_other. intros ->. contradiction.
    + rewrite Ha. simpl. apply filter_remove.
Qed.


Lemma filter_none (A : Type) (p : A -> bool) (l : list A) :
  (forall x, In x l -> p x = false) -> filter p l = [].
Proof.
  induction l as [|a l IH]; intros H; simpl; [reflexivity|].
  rewrite (H a) by (left; reflexivity).
  apply IH. intros x Hx. apply H. right. exact Hx.
Qed.

Lemma filter_nodup_app (p : Z -> bool) (ks extra : list Z) :
  (forall x, In x extra -> p x = false) ->
  filter p (nodup Z.eq_dec (ks ++ extra)) = filter p (nodup Z.eq_dec ks).
Proof.
  intros Hp. induction ks as [|a ks IH]; simpl.
  - apply filter_none. intros x Hx. apply Hp. apply nodup_In in Hx. exact Hx.
  - destruct (in_dec Z.eq_dec a (ks ++ extra)) as [Hin|Hnin];
      destruct (in_dec Z.eq_dec a ks) as [Hin'|Hnin']; simpl.
    + exact IH.
    + apply in_app_or in Hin. destruct Hin as [?|Hin]; [contradiction|].
      rewrite (Hp a Hin). exact IH.
    + exfalso. apply Hnin. apply in_or_app. left. exact Hin'.
    + rewrite IH. reflexivity.
Qed.

Lemma fresh_keys_In (a : Dict.t Group) (ks : list Z) (k : Z) :
  In k (fresh_keys a ks) <-> In k ks /\ ~ In k (Dict.keys a).
Proof.
  unfold fresh_keys. rewrite filter_In, negb_true_iff, mem_false. tauto.
Qed.

(** The order of the slots only permutes a list. *)
Lemma insert_by_perm (rank : Z -> Z) (x : Z) (l : list Z) :
  Permutation (insert_by rank x l) (x :: l).
Proof.
  induction l as [|y l IH]; simpl; [reflexivity|].
  destruct (rank x <=? rank y); [reflexivity|].
  rewrite IH. apply perm_swap.
Qed.

Lemma order_by_perm (rank : Z -> Z) (l : list Z) :
  Permutation (order_by rank l) l.
Proof.
  induction l as [|x l IH]; simpl; [reflexivity|].
  rewrite insert_by_perm, IH. reflexivity.
Qed.

Lemma disappeared_groups_perm (a : Dict.t Group) (cur : list Z) :
  Permutation (disappeared_groups slot a cur) (unmatched_keys a cur).
Proof. apply order_by_perm. Qed.

Lemma unmatched_keys_In (a : Dict.t Group) (cur : list Z) (g : Z) :
  In g (unmatched_keys a cur) <-> In g (Dict.keys a) /\ ~ In g cur.
Proof.
  unfold unmatched_keys.
  rewrite filter_In, nodup_In, negb_true_iff, in_set_false. tauto.
Qed.

Lemma unmatched_keys_NoDup (a : Dict.t Group) (cur : list Z) :
  NoDup (unmatched_keys a cur).
Proof. apply NoDup_filter, NoDup_nodup. Qed.

Lemma termination_rows_perm (entry : Z -> Group -> Row)
      (a : Dict.t Group) (gs gs' : list Z) :
  Permutation gs gs' ->
  Permutation (termination_rows entry a gs) (termination_rows entry a gs').
Proof. intros H. unfold termination_rows. apply Permutation_flat_map, H. Qed.

(** Line 85 raises exactly when the tracker delivered no identities. *)
Lemma tracker_labels_Ok (dets : Frame Point) :
  tracked dets = true -> exists ls, tracker_labels dets = Ok ls.
Proof. intros H. unfold tracker_labels. rewrite H. eauto. Qed.

Lemma tracker_labels_Raise (dets : Frame Point) :
  tracked dets = false -> tracker_labels dets = Raise TypeError.
Proof. intros H. unfold tracker_labels. rewrite H. reflexivity. Qed.

(** What one call of [process_single_frame] does, given the clusters of
    the frame: the continuation rows first, then one termination row for
    every group that matched no cluster, in the order [gs] in which the
    set of line 132 is iterated; the table keeps exactly the groups
    matched in this frame. *)
Lemma frame_spec (dets : Frame Point) idx st grouped :
  tracked dets = true ->
  grouped_detections fit_predict dets = Ok grouped ->
  exists st2 gs,
    process_single_frame fit_predict slot dets idx st = Ok st2 /\
    Permutation gs (unmatched_keys (active_groups st) (Dict.keys grouped)) /\
    saved_frames_dir st2 = saved_frames_dir st /\
    log_file st2 =
      log_file st
      ++ continuation_rows (saved_frames_dir st) idx grouped
      ++ termination_rows (termination_entry idx) (active_groups st) gs /\
    Dict.map_values forget_last_log (active_groups st2) =
      filter (fun e => in_set (fst e) (Dict.keys grouped))
             (Dict.map_values forget_last_log (active_groups st)
              ++ map (fun g => (g, new_group idx))
                     (fresh_keys (active_groups st) (Dict.keys grouped))).
Proof.
  intros Htr Hg. pose proof (grouped_detections_NoDup _ _ _ _ Hg) as ND.
  destruct (tracker_labels_Ok dets Htr) as [ls Hls].
  destruct (cluster_loop_spec idx grouped st ND)
    as (st1 & Hf & Hd1 & Hl1 & Ha1 & Ho1).
  assert (Hk1 : Dict.keys (active_groups st1) =
                Dict.keys (active_groups st)
                ++ fresh_keys (active_groups st) (Dict.keys grouped)).
  { rewrite <- (keys_map_values forget_last_log (active_groups st1)), Ha1.
    rewrite keys_app, keys_map_values. f_equal.
    unfold Dict.keys. rewrite map_map. simpl. apply map_id. }
  set (cur := Dict.keys grouped) in *.
  set (gs := disappeared_groups slot (active_groups st1) cur).
  assert (Hun : unmatched_keys (active_groups st1) cur =
                unmatched_keys (active_groups st) cur).
  { unfold unmatched_keys. rewrite Hk1. apply filter_nodup_app.
    intros x Hx. apply fresh_keys_In in Hx. destruct Hx as [Hx _].
    apply negb_false_iff, in_set_In, Hx. }
  assert (Hgs : Permutation gs (unmatched_keys (active_groups st) cur)).
  { rewrite <- Hun. apply disappeared_groups_perm. }
  assert (Hin : forall g, In g gs <->
                          In g (Dict.keys (active_groups st1)) /\ ~ In g cur).
  { intros g. rewrite <- unmatched_keys_In. split; intros H.
    - apply (Permutation_in _ (disappeared_groups_perm _ _)), H.
    - apply (Permutation_in _ (Permutation_sym (disappeared_groups_perm _ _))), H. }
  destruct (disappear_loop_spec idx gs st1)
    as (st2 & Hf2 & Hd2 & _ & Hl2 & Ha2).
  { apply (Permutation_NoDup (Permutation_sym (disappeared_groups_perm _ _))).
    apply unmatched_keys_NoDup. }
  { intros k Hk. apply Hin in Hk. tauto. }
  exists st2, gs. unfold process_single_frame. rewrite Hls, Hg. cbn [bind].
  rewrite Hf. cbn [bind]. unfold current_groups_in_frame. fold cur. fold gs.
  split; [exact Hf2|]. split; [exact Hgs|]. split; [congruence|]. split.
  - rewrite Hl2, Hl1, <- app_assoc. do 2 f_equal.
    apply termination_rows_ext. intros g Hgin. apply Ho1.
    apply Hin in Hgin. tauto.
  - rewrite Ha2, <- Ha1.
    rewrite (map_values_filter forget_last_log
               (fun k => negb (in_set k gs))).
    apply filter_ext_in. intros [k v] Hkv. simpl.
    apply (in_map fst) in Hkv. simpl in Hkv.
    fold (Dict.keys (Dict.map_values forget_last_log (active_groups st1))) in Hkv.
    rewrite keys_map_values in Hkv.
    destruct (in_set k cur) eqn:E.
    + apply negb_true_iff, in_set_false. intros Hk.
      apply Hin in Hk. apply in_set_In in E. tauto.
    + apply negb_false_iff, in_set_In. apply Hin. split; [exact Hkv|].
      apply in_set_false. exact E.
Qed.

(** A frame is processed without an exception exactly when the tracker
    delivered identities and the grouping step raises nothing. *)
Lemma frame_Ok_inv (dets : Frame Point) idx st st2 :
  process_single_frame fit_predict slot dets idx st = Ok st2 ->
  tracked dets = true /\
  exists grouped, grouped_detections fit_predict dets = Ok grouped.
Proof.
  unfold process_single_frame, tracker_labels.
  destruct (tracked dets); [|discriminate]. cbn [bind].
  destruct (grouped_detections fit_predict dets) as [grouped|e];
    [intros _; split; [reflexivity|]; exists grouped; reflexivity
    | discriminate].
Qed.

End FrameFacts.

(** ** Rows of one frame *)

Section Rows.
Variable Point : Type.
Variable fit_predict : list Point -> list Z.
Variable slot : set_order.

Lemma continuation_rows_In dir idx (grouped : Dict.t (list (Detection Point))) r :
  In r (continuation_rows dir idx grouped) ->
  idx mod 30 = 0 /\
  exists g ms, In (g, ms) grouped /\ r = continuation_entry dir idx g ms.
Proof.
  unfold continuation_rows. destruct (Z.eqb_spec (idx mod 30) 0) as [E|E].
  - intros H. apply in_map_iff in H. destruct H as [[g ms] [<- H]].
    split; [exact E|]. exists g, ms. split; [exact H | reflexivity].
  - intros [].
Qed.

Lemma continuation_rows_shape dir idx (grouped : Dict.t (list (Detection Point))) r :
  In r (continuation_rows dir idx grouped) -> continuation_shape dir r.
Proof.
  intros H. apply continuation_rows_In in H.
  destruct H as (E & g & ms & _ & ->). repeat split. exact E.
Qed.

Lemma continuation_shape_not_closing dir r :
  continuation_shape dir r -> is_closing r = false.
Proof.
  intros (_ & _ & H). exact (snapshot_path_not_closing _ _ _ _ H).
Qed.

Lemma closing_continuation_rows dir idx (grouped : Dict.t (list (Detection Point))) :
  closing_rows (continuation_rows dir idx grouped) = [].
Proof.
  apply filter_none. intros r Hr.
  exact (continuation_shape_not_closing dir r
           (continuation_rows_shape _ _ _ _ Hr)).
Qed.

Lemma termination_rows_In (entry : Z -> Group -> Row) a gs r :
  In r (termination_rows entry a gs) ->
  exists g grp, In g gs /\ Dict.get g a = Some grp /\ r = entry g grp.
Proof.
  unfold termination_rows. intros H. apply in_flat_map in H.
  destruct H as (g & Hg & Hr). destruct (Dict.get g a) as [grp|] eqn:E.
  - destruct Hr as [<-|[]]. exists g, grp. auto.
  - destruct Hr.
Qed.

Lemma closing_termination_rows idx a gs :
  closing_rows (termination_rows (termination_entry idx) a gs) =
  termination_rows (termination_entry idx) a gs.
Proof.
  apply forallb_filter_id, forallb_forall. intros r Hr.
  apply termination_rows_In in Hr. destruct Hr as (g & grp & _ & _ & ->).
  reflexivity.
Qed.

Lemma closing_key_termination idx g grp :
  closing_key (termination_entry idx g grp) = entry_key (g, grp).
Proof. unfold closing_key, entry_key. simpl. f_equal. lia. Qed.

Lemma closing_key_final total e :
  closing_key (final_entry total e) = entry_key e.
Proof. unfold closing_key, entry_key. simpl. f_equal. lia. Qed.

(** With distinct keys, the termination rows of the keys selected by [p]
    speak about the entries selected by [p], in the same order. *)
Lemma termination_rows_keys idx (p : Z -> bool) (a : Dict.t Group) :
  NoDup (Dict.keys a) ->
  map closing_key
      (termination_rows (termination_entry idx) a (filter p (Dict.keys a))) =
  map entry_key (filter (fun e => p (fst e)) a).
Proof.
  induction a as [|[k v] a IH]; intros ND; [reflexivity|].
  inversion ND as [|? ? Hk ND']; subst.
  assert (Hext : forall gs, incl gs (Dict.keys a) ->
            termination_rows (termination_entry idx) ((k, v) :: a) gs =
            termination_rows (termination_entry idx) a gs).
  { intros gs Hgs. apply termination_rows_ext. intros g Hg. simpl.
    destruct (Z.eqb_spec k g) as [->|_]; [|reflexivity].
    exfalso. apply Hk, Hgs, Hg. }
  change (Dict.keys ((k, v) :: a)) with (k :: Dict.keys a).
  cbn [filter fst]. destruct (p k) eqn:Hp.
  - change (termination_rows (termination_entry idx) ((k, v) :: a)
              (k :: filter p (Dict.keys a)))
      with ((match Dict.get k ((k, v) :: a) with
             | Some grp => [termination_entry idx k grp]
             | None => []
             end)
            ++ termination_rows (termination_entry idx) ((k, v) :: a)
                 (filter p (Dict.keys a))).
    cbn [Dict.get]. rewrite Z.eqb_refl.
    rewrite Hext by (intros x Hx; apply filter_In in Hx; tauto).
    cbn [app map]. rewrite closing_key_termination. f_equal.
    apply IH, ND'.
  - rewrite Hext by (intros x Hx; apply filter_In in Hx; tauto).
    apply IH, ND'.
Qed.

Lemma entry_key_forget (a : Dict.t Group) :
  map entry_key (Dict.map_values forget_last_log a) = map entry_key a.
Proof.
  unfold Dict.map_values. rewrite map_map. apply map_ext.
  intros [k v]. reflexivity.
Qed.

Lemma Permutation_filter_split (A : Type) (p : A -> bool) (l : list A) :
  Permutation l (filter (fun x => negb (p x)) l ++ filter p l).
Proof.
  induction l as [|a l IH]; simpl; [constructor|].
  destruct (p a); simpl.
  - apply Permutation_cons_app, IH.
  - constructor. exact IH.
Qed.

Lemma NoDup_map_pair (idx : Z) (l : list Z) :
  NoDup l -> NoDup (map (fun g => (g, idx)) l).
Proof.
  induction 1 as [|x l Hx ND IH]; simpl; constructor; [|exact IH].
  intros H. apply in_map_iff in H. destruct H as (y & [= ->] & Hy).
  contradiction.
Qed.

Lemma fresh_keys_NoDup (a : Dict.t Group) (ks : list Z) :
  NoDup ks -> NoDup (fresh_keys a ks).
Proof. apply NoDup_filter. Qed.

(** The effect of one frame on a table with distinct keys. *)
Lemma frame_effect (dets : Frame Point) idx st st2 :
  process_single_frame fit_predict slot dets idx st = Ok st2 ->
  exists grouped gs,
    grouped_detections fit_predict dets = Ok grouped /\
    Permutation gs (unmatched_keys (active_groups st) (Dict.keys grouped)) /\
    saved_frames_dir st2 = saved_frames_dir st /\
    log_file st2 =
      log_file st
      ++ continuation_rows (saved_frames_dir st) idx grouped
      ++ termination_rows (termination_entry idx) (active_groups st) gs /\
    Dict.keys (active_groups st2) =
      filter (fun k => in_set k (Dict.keys grouped))
             (Dict.keys (active_groups st))
      ++ fresh_keys (active_groups st) (Dict.keys grouped) /\
    map entry_key (active_groups st2) =
      map entry_key (filter (fun e => in_set (fst e) (Dict.keys grouped))
                            (active_groups st))
      ++ map (fun g => (g, idx))
             (fresh_keys (active_groups st) (Dict.keys grouped)) /\
    created st st2 = fresh_keys (active_groups st) (Dict.keys grouped).
Proof.
  intros H. destruct (frame_Ok_inv _ _ _ _ _ _ _ H) as [Htr [grouped Hg]].
  destruct (frame_spec _ fit_predict slot dets idx st grouped Htr Hg)
    as (st2' & gs & H' & Hgs & Hd & Hl & Ha).
  rewrite H in H'. injection H' as <-.
  exists grouped, gs. split; [exact Hg|]. split; [exact Hgs|].
  split; [exact Hd|]. split; [exact Hl|].
  set (cur := Dict.keys grouped) in *.
  set (fresh := fresh_keys (active_groups st) cur) in *.
  assert (Hfresh : filter (fun k => in_set k cur) fresh = fresh).
  { apply forallb_filter_id, forallb_forall. intros x Hx.
    apply fresh_keys_In in Hx. apply in_set_In. tauto. }
  assert (Hkeys : Dict.keys (active_groups st2) =
                  filter (fun k => in_set k cur) (Dict.keys (active_groups st))
                  ++ fresh).
  { rewrite <- (keys_map_values forget_last_log (active_groups st2)), Ha.
    rewrite (keys_filter (fun k => in_set k cur)), keys_app, filter_app.
    rewrite keys_map_values. f_equal.
    replace (Dict.keys (map (fun g => (g, new_group idx)) fresh)) with fresh.
    - exact Hfresh.
    - unfold Dict.keys. rewrite map_map. simpl. symmetry. apply map_id. }
  split; [exact Hkeys|]. split.
  - rewrite <- (entry_key_forget (active_groups st2)), Ha.
    rewrite filter_app, map_app. f_equal.
    + rewrite <- (map_values_filter forget_last_log (fun k => in_set k cur)).
      apply entry_key_forget.
    + replace (filter (fun e : Z * Group => in_set (fst e) cur)
                      (map (fun g => (g, new_group idx)) fresh))
        with (map (fun g => (g, new_group idx)) fresh).
      * rewrite map_map. reflexivity.
      * symmetry. apply forallb_filter_id, forallb_forall.
        intros e He. apply in_map_iff in He. destruct He as (g & <- & Hgin).
        simpl. apply fresh_keys_In in Hgin. apply in_set_In. tauto.
  - unfold created. rewrite Hkeys, filter_app.
    rewrite filter_none.
    + simpl. apply forallb_filter_id, forallb_forall. intros x Hx.
      apply fresh_keys_In in Hx. apply negb_true_iff, mem_false. tauto.
    + intros x Hx. apply filter_In in Hx. destruct Hx as [Hx _].
      apply negb_false_iff, mem_In, Hx.
Qed.

End Rows.

(** ** A run of the driver *)

Section Run.
Variable Point : Type.
Variable fit_predict : list Point -> list Z.
Variable slot : set_order.

Lemma run_inv_init dir : run_inv dir 0 [] (init dir).
Proof.
  unfold run_inv, init. simpl.
  repeat split; try constructor; try lia; try contradiction.
Qed.

(** One frame preserves the invariant and adds the groups it creates. *)
Lemma frame_inv dir idx cs st (dets : Frame Point) st2 :
  run_inv dir idx cs st ->
  process_single_frame fit_predict slot dets idx st = Ok st2 ->
  run_inv dir (idx + 1) (cs ++ map (fun g => (g, idx)) (created st st2)) st2.
Proof.
  intros (H0 & Hdir & NDk & NDc & Hb & Hperm & Hcl & Hco) H.
  destruct (frame_effect _ _ _ _ _ _ _ H)
    as (grouped & gs & Hg & Hgs & Hd & Hl & Hk & He & Hcr).
  pose proof (grouped_detections_NoDup _ _ _ _ Hg) as NDcur.
  rewrite Hcr.
  set (cur := Dict.keys grouped) in *.
  set (fresh := fresh_keys (active_groups st) cur) in *.
  assert (Hdis : unmatched_keys (active_groups st) cur =
                 filter (fun k => negb (in_set k cur))
                        (Dict.keys (active_groups st))).
  { unfold unmatched_keys. rewrite nodup_fixed_point by exact NDk.
    reflexivity. }
  rewrite Hdis in Hgs.
  assert (Hentry : forall g grp, Dict.get g (active_groups st) = Some grp ->
                                 0 <= start_frame grp < idx).
  { intros g grp Hget. apply get_In in Hget.
    apply (in_map entry_key) in Hget.
    apply (Hb (entry_key (g, grp))).
    apply (Permutation_in _ (Permutation_sym Hperm)).
    apply in_or_app. right. exact Hget. }
  unfold run_inv. split; [lia|]. split; [congruence|]. split.
  { rewrite Hk. apply NoDup_app.
    - apply NoDup_filter, NDk.
    - apply fresh_keys_NoDup, NDcur.
    - intros x Hx Hx'. apply filter_In in Hx. apply fresh_keys_In in Hx'.
      tauto. }
  split.
  { apply NoDup_app.
    - exact NDc.
    - apply NoDup_map_pair, fresh_keys_NoDup, NDcur.
    - intros c Hc Hc'. apply Hb in Hc. apply in_map_iff in Hc'.
      destruct Hc' as (g & <- & _). simpl in Hc. lia. }
  split.
  { intros c Hc. apply in_app_or in Hc. destruct Hc as [Hc|Hc].
    - apply Hb in Hc. lia.
    - apply in_map_iff in Hc. destruct Hc as (g & <- & _). simpl. lia. }
  split.
  { rewrite Hl. unfold closing_rows. rewrite !filter_app.
    fold (closing_rows (log_file st)).
    fold (closing_rows (continuation_rows (saved_frames_dir st) idx grouped)).
    rewrite closing_continuation_rows.
    match goal with
    | |- context [filter is_closing (termination_rows ?e ?a ?gs)] =>
        change (filter is_closing (termination_rows e a gs))
          with (closing_rows (termination_rows e a gs))
    end.
    rewrite closing_termination_rows. cbn [app].
    rewrite map_app.
    rewrite (Permutation_map closing_key
               (termination_rows_perm (termination_entry idx)
                  (active_groups st) _ _ Hgs)).
    rewrite (termination_rows_keys idx (fun k => negb (in_set k cur)))
      by exact NDk.
    rewrite He, app_assoc. apply Permutation_app_tail.
    rewrite <- app_assoc.
    apply (Permutation_trans Hperm). apply Permutation_app_head.
    rewrite <- map_app. apply Permutation_map.
    apply (Permutation_filter_split _ (fun e => in_set (fst e) cur)). }
  split.
  { intros r Hr Hc. rewrite Hl in Hr.
    apply in_app_or in Hr. destruct Hr as [Hr|Hr].
    - destruct (Hcl r Hr Hc) as (? & ? & ?). repeat split; try tauto; lia.
    - apply in_app_or in Hr. destruct Hr as [Hr|Hr].
      + apply continuation_rows_shape, continuation_shape_not_closing in Hr.
        congruence.
      + apply termination_rows_In in Hr.
        destruct Hr as (g & grp & _ & Hget & ->). simpl.
        apply Hentry in Hget. repeat split; lia. }
  { intros r Hr Hc. rewrite Hl in Hr.
    apply in_app_or in Hr. destruct Hr as [Hr|Hr].
    - exact (Hco r Hr Hc).
    - apply in_app_or in Hr. destruct Hr as [Hr|Hr].
      + rewrite Hdir in Hr. exact (continuation_rows_shape _ _ _ _ _ Hr).
      + apply termination_rows_In in Hr.
        destruct Hr as (g & grp & _ & _ & ->). discriminate. }
Qed.

(** The frame loop preserves the invariant; it processes the frames
    read before the first failed read, yielding once per frame. *)
Lemma frames_loop_inv total dir (reads : list (option (Frame Point))) :
  forall idx cs st ys st',
    run_inv dir idx cs st ->
    frames_loop fit_predict slot total idx reads st = Ok (ys, st') ->
    List.length ys = List.length (frames_read reads) /\
    run_inv dir (idx + Z.of_nat (List.length (frames_read reads)))
            (cs ++ creations fit_predict slot idx (frames_read reads) st) st'.
Proof.
  induction reads as [|[dets|] reads IH]; intros idx cs st ys st' Hinv Hrun.
  - injection Hrun as <- <-. simpl. rewrite app_nil_r, Z.add_0_r. auto.
  - cbn [frames_loop] in Hrun.
    destruct (process_single_frame fit_predict slot dets idx st) as [st1|e] eqn:E1;
      [|discriminate].
    cbn [bind] in Hrun.
    destruct (true_div idx total) as [q|e]; [|discriminate].
    cbn [bind] in Hrun.
    destruct (frames_loop fit_predict slot total (idx + 1) reads st1)
      as [[ys1 st2]|e] eqn:E2; [|discriminate].
    cbn [bind] in Hrun. injection Hrun as <- <-.
    destruct (IH _ _ _ _ _ (frame_inv _ _ _ _ _ _ Hinv E1) E2) as [Hlen Hinv'].
    cbn [frames_read creations List.length]. rewrite E1. split.
    + f_equal. exact Hlen.
    + rewrite app_assoc.
      replace (idx + Z.of_nat (S (List.length (frames_read reads))))
        with (idx + 1 + Z.of_nat (List.length (frames_read reads))) by lia.
      exact Hinv'.
  - injection Hrun as <- <-. simpl. rewrite app_nil_r, Z.add_0_r. auto.
Qed.

Lemma fold_final_spec total (l : list (Z * Group)) : forall st,
  let st' := fold_left (fun s e => _log_group_event s (final_entry total e)) l st in
  saved_frames_dir st' = saved_frames_dir st /\
  saved_frames st' = saved_frames st /\
  active_groups st' = active_groups st /\
  log_file st' = log_file st ++ map (final_entry total) l.
Proof.
  induction l as [|e l IH]; intros st; simpl.
  - rewrite app_nil_r. auto.
  - destruct (IH (_log_group_event st (final_entry total e)))
      as (Hd & Hs & Ha & Hl).
    simpl in *. rewrite Hd, Hs, Ha, Hl, <- app_assoc. auto.
Qed.

(** [_log_final_dwell_times] writes one end-of-stream row per group in
    the table, in table order, and leaves the table as it is. *)
Lemma log_final_spec total st :
  saved_frames_dir (_log_final_dwell_times total st) = saved_frames_dir st /\
  saved_frames (_log_final_dwell_times total st) = saved_frames st /\
  active_groups (_log_final_dwell_times total st) = active_groups st /\
  log_file (_log_final_dwell_times total st) =
    log_file st ++ map (final_entry total) (active_groups st).
Proof. apply fold_final_spec. Qed.

(** The driver is the frame loop over the frames the capture delivers,
    followed by the finalization. *)
Lemma driver_inv (cap : VideoCapture Point) st ys st' :
  process_video_and_yield_frames fit_predict slot cap st = Ok (ys, st') ->
  exists st1,
    frames_loop fit_predict slot (frame_count cap) 0
                (if isOpened cap then stream cap else []) st = Ok (ys, st1) /\
    st' = _log_final_dwell_times (frame_count cap) st1.
Proof.
  unfold process_video_and_yield_frames. destruct (isOpened cap).
  - destruct (frames_loop fit_predict slot (frame_count cap) 0 (stream cap) st)
      as [[ys1 st1]|e]; [|discriminate].
    cbn [bind]. intros [= <- <-]. exists st1. auto.
  - cbn [bind]. intros [= <- <-]. exists st. auto.
Qed.

Lemma frames_of_reads (cap : VideoCapture Point) :
  frames_of cap = frames_read (if isOpened cap then stream cap else []).
Proof. unfold frames_of. destruct (isOpened cap); reflexivity. Qed.

Lemma closing_final_rows total (a : Dict.t Group) :
  closing_rows (map (final_entry total) a) = map (final_entry total) a.
Proof.
  apply forallb_filter_id, forallb_forall. intros r Hr.
  apply in_map_iff in Hr. destruct Hr as (e & <- & _). reflexivity.
Qed.

(** The state of a completed run from a fresh processor. *)
Lemma driver_run_inv (cap : VideoCapture Point) dir ys st' :
  process_video_and_yield_frames fit_predict slot cap (init dir) = Ok (ys, st') ->
  exists st1,
    st' = _log_final_dwell_times (frame_count cap) st1 /\
    List.length ys = List.length (frames_of cap) /\
    run_inv dir (Z.of_nat (List.length (frames_of cap)))
            (creations fit_predict slot 0 (frames_of cap) (init dir)) st1.
Proof.
  intros H. destruct (driver_inv _ _ _ _ H) as (st1 & Hloop & ->).
  exists st1. split; [reflexivity|].
  destruct (frames_loop_inv _ dir _ _ _ _ _ _ (run_inv_init dir) Hloop)
    as [Hlen Hinv].
  rewrite <- frames_of_reads in *. simpl in Hinv. auto.
Qed.

Lemma labels_at_old (done more : list (Frame Point)) (i : Z) :
  0 <= i < Z.of_nat (List.length done) ->
  labels_at fit_predict (done ++ more) i = labels_at fit_predict done i.
Proof.
  intros Hi. unfold labels_at. rewrite nth_error_app1 by lia. reflexivity.
Qed.

Lemma labels_at_new (done more : list (Frame Point)) (dets : Frame Point)
      grouped :
  grouped_detections fit_predict dets = Ok grouped ->
  labels_at fit_predict (done ++ dets :: more) (Z.of_nat (List.length done))
  = Dict.keys grouped.
Proof.
  intros Hg. unfold labels_at.
  rewrite Nat2Z.id, nth_error_app2, Nat.sub_diag by lia.
  simpl. rewrite Hg. reflexivity.
Qed.

(** One frame preserves what the table and the log say about matches. *)
Lemma frame_match_inv dir idx cs st (done : list (Frame Point))
      (dets : Frame Point) st2 :
  idx = Z.of_nat (List.length done) ->
  run_inv dir idx cs st ->
  match_inv fit_predict done st ->
  process_single_frame fit_predict slot dets idx st = Ok st2 ->
  match_inv fit_predict (done ++ [dets]) st2.
Proof.
  intros Hidx (H0 & _ & _ & _ & Hb & Hperm & Hcl & _) [M1 M2] H.
  destruct (frame_effect _ _ _ _ _ _ _ H)
    as (grouped & gs & Hg & Hgs & _ & Hl & _ & He & _).
  assert (Hstart : forall c, In c (map entry_key (active_groups st)) ->
                             0 <= snd c < idx).
  { intros c Hc. apply Hb.
    apply (Permutation_in _ (Permutation_sym Hperm)), in_or_app. right.
    exact Hc. }
  assert (Hnew : labels_at fit_predict (done ++ [dets]) idx
                 = Dict.keys grouped).
  { rewrite Hidx. apply labels_at_new, Hg. }
  assert (Hold : forall g s j, j <= idx -> 0 <= s ->
             matched_between fit_predict done g s j ->
             matched_between fit_predict (done ++ [dets]) g s j).
  { intros g s j Hj Hs Hm i Hi. rewrite labels_at_old by lia. apply Hm, Hi. }
  split.
  - intros c Hc. rewrite He in Hc. rewrite length_app, Nat2Z.inj_add.
    simpl List.length. rewrite <- Hidx.
    apply in_app_or in Hc. destruct Hc as [Hc|Hc].
    + apply in_map_iff in Hc. destruct Hc as (e & <- & He').
      apply filter_In in He'. destruct He' as [He' Hcur].
      apply in_set_In in Hcur.
      pose proof (in_map entry_key _ _ He') as Hin.
      pose proof (Hstart _ Hin) as Hs. pose proof (M1 _ Hin) as Hm.
      rewrite <- Hidx in Hm. simpl in *.
      intros i Hi. destruct (Z.eq_dec i idx) as [->|Hne].
      * rewrite Hnew. exact Hcur.
      * rewrite labels_at_old by lia. apply Hm. lia.
    + apply in_map_iff in Hc. destruct Hc as (g & <- & Hgf).
      apply fresh_keys_In in Hgf. simpl. intros i Hi.
      replace i with idx by lia. rewrite Hnew. tauto.
  - intros r Hr Hc. rewrite Hl in Hr.
    apply in_app_or in Hr. destruct Hr as [Hr|Hr].
    + destruct (Hcl r Hr Hc) as (_ & Hs & Hf).
      destruct (M2 r Hr Hc) as [Hn Hm]. split.
      * rewrite labels_at_old by lia. exact Hn.
      * apply Hold; [lia | lia | exact Hm].
    + apply in_app_or in Hr. destruct Hr as [Hr|Hr].
      * apply continuation_rows_shape, continuation_shape_not_closing in Hr.
        congruence.
      * apply termination_rows_In in Hr.
        destruct Hr as (g & grp & Hgin & Hget & ->). simpl.
        apply (Permutation_in _ Hgs), unmatched_keys_In in Hgin.
        destruct Hgin as [_ Hgin].
        split; [rewrite Hnew; exact Hgin|].
        apply get_In in Hget. apply (in_map entry_key) in Hget.
        pose proof (Hstart _ Hget) as Hs. pose proof (M1 _ Hget) as Hm.
        rewrite <- Hidx in Hm. simpl in *.
        replace (idx - (idx - start_frame grp)) with (start_frame grp) by lia.
        apply Hold; [lia | lia | exact Hm].
Qed.

Lemma frames_loop_match_inv total dir (reads : list (option (Frame Point))) :
  forall done idx cs st ys st',
    idx = Z.of_nat (List.length done) ->
    run_inv dir idx cs st ->
    match_inv fit_predict done st ->
    frames_loop fit_predict slot total idx reads st = Ok (ys, st') ->
    match_inv fit_predict (done ++ frames_read reads) st'.
Proof.
  induction reads as [|[dets|] reads IH];
    intros done idx cs st ys st' Hidx Hinv Hm Hrun.
  - injection Hrun as <- <-. simpl. rewrite app_nil_r. exact Hm.
  - cbn [frames_loop] in Hrun.
    destruct (process_single_frame fit_predict slot dets idx st) as [st1|e] eqn:E1;
      [|discriminate].
    cbn [bind] in Hrun.
    destruct (true_div idx total) as [q|e]; [|discriminate].
    cbn [bind] in Hrun.
    destruct (frames_loop fit_predict slot total (idx + 1) reads st1)
      as [[ys1 st2]|e] eqn:E2; [|discriminate].
    cbn [bind] in Hrun. injection Hrun as <- <-.
    cbn [frames_read].
    replace (done ++ dets :: frames_read reads)
      with ((done ++ [dets]) ++ frames_read reads)
      by (rewrite <- app_assoc; reflexivity).
    apply (IH (done ++ [dets]) (idx + 1)
              (cs ++ map (fun g => (g, idx)) (created st st1)) st1 ys1 st2).
    + rewrite length_app, Nat2Z.inj_add. simpl. lia.
    + exact (frame_inv _ _ _ _ _ _ Hinv E1).
    + exact (frame_match_inv _ _ _ _ _ _ _ Hidx Hinv Hm E1).
    + exact E2.
  - injection Hrun as <- <-. simpl. rewrite app_nil_r. exact Hm.
Qed.

Lemma match_inv_init dir : match_inv fit_predict [] (init dir).
Proof. split; intros ? []. Qed.

(** What the log of a completed run says about matches. *)
Lemma driver_match_inv (cap : VideoCapture Point) dir ys st1 :
  frames_loop fit_predict slot (frame_count cap) 0
              (if isOpened cap then stream cap else []) (init dir)
    = Ok (ys, st1) ->
  match_inv fit_predict (frames_of cap) st1.
Proof.
  intros Hloop.
  pose proof (frames_loop_match_inv _ dir _ [] 0 _ _ _ _ eq_refl
                (run_inv_init dir) (match_inv_init dir) Hloop) as M.
  rewrite <- frames_of_reads in M. exact M.
Qed.

(** C1: in a run processed to completion, the groups created (each
    identified by its key and the frame that created it) are pairwise
    distinct and correspond one to one to the closing rows of the log:
    every created group has exactly one closing row and every closing row
    belongs to a created group.  A closing row is either a termination row
    (marker "disappeared"), written at the first frame in which the key of
    its group is the label of no cluster, or an end-of-stream row (marker
    "video_end") carrying the reported frame count, for a group that is
    still in the table and has matched a cluster in every frame since its
    creation. *)
Theorem exactly_one_closing_row (cap : VideoCapture Point) dir ys st' :
  process_video_and_yield_frames fit_predict slot cap (init dir) = Ok (ys, st') ->
  NoDup (creations fit_predict slot 0 (frames_of cap) (init dir)) /\
  Permutation (creations fit_predict slot 0 (frames_of cap) (init dir))
              (map closing_key (closing_rows (log_file st'))) /\
  (forall r, In r (closing_rows (log_file st')) ->
     (saved_frame_path r = disappeared /\
      0 <= frame r < Z.of_nat (List.length (frames_of cap)) /\
      ~ In (group_id r) (labels_at fit_predict (frames_of cap) (frame r)) /\
      matched_between fit_predict (frames_of cap) (group_id r)
                      (frame r - dwell_time_frames r) (frame r)) \/
     (saved_frame_path r = video_end /\ frame r = frame_count cap /\
      In (closing_key r) (map entry_key (active_groups st')) /\
      matched_between fit_predict (frames_of cap) (group_id r)
                      (frame r - dwell_time_frames r)
                      (Z.of_nat (List.length (frames_of cap))))).
Proof.
  intros H. destruct (driver_inv _ _ _ _ H) as (st1 & Hloop & ->).
  destruct (frames_loop_inv _ dir _ _ _ _ _ _ (run_inv_init dir) Hloop)
    as [_ Hinv].
  destruct (driver_match_inv _ dir _ _ Hloop) as [M1 M2].
  rewrite <- frames_of_reads in Hinv. simpl in Hinv.
  destruct Hinv as (_ & _ & _ & NDc & _ & Hperm & Hcl & _).
  destruct (log_final_spec (frame_count cap) st1) as (_ & _ & Ha & Hl).
  split; [exact NDc|]. rewrite Hl, Ha. unfold closing_rows at 1 2.
  rewrite filter_app. fold (closing_rows (log_file st1)).
  fold (closing_rows (map (final_entry (frame_count cap)) (active_groups st1))).
  rewrite closing_final_rows. split.
  - rewrite map_app, map_map.
    rewrite (map_ext _ entry_key (closing_key_final (frame_count cap))).
    exact Hperm.
  - intros r Hr. apply in_app_or in Hr. destruct Hr as [Hr|Hr].
    + left. apply filter_In in Hr. destruct Hr as [Hr Hc].
      destruct (Hcl r Hr Hc) as (? & ? & ?). destruct (M2 r Hr Hc).
      repeat split; try assumption; lia.
    + right. apply in_map_iff in Hr. destruct Hr as (e & <- & He).
      split; [reflexivity|]. split; [reflexivity|].
      rewrite closing_key_final. split; [apply in_map, He|].
      pose proof (M1 _ (in_map entry_key _ _ He)) as Hm. simpl in *.
      replace (frame_count cap - (frame_count cap - start_frame (snd e)))
        with (start_frame (snd e)) by lia.
      exact Hm.
Qed.


(** C6: every row of the log that is not a closing row was written on a
    frame whose index is a multiple of 30, carries a dwell time of 0, and
    points to the snapshot saved for that frame and group. *)
Theorem continuation_rows_on_snapshot_frames
        (cap : VideoCapture Point) dir ys st' r :
  process_video_and_yield_frames fit_predict slot cap (init dir) = Ok (ys, st') ->
  In r (log_file st') -> is_closing r = false ->
  frame r mod 30 = 0 /\ dwell_time_frames r = 0 /\
  saved_frame_path r = path_join dir (frame_filename (frame r) (group_id r)).
Proof.
  intros H Hr Hc. destruct (driver_run_inv _ _ _ _ H) as (st1 & -> & _ & Hinv).
  destruct Hinv as (_ & _ & _ & _ & _ & _ & _ & Hco).
  destruct (log_final_spec (frame_count cap) st1) as (_ & _ & _ & Hl).
  rewrite Hl in Hr. apply in_app_or in Hr. destruct Hr as [Hr|Hr].
  - exact (Hco r Hr Hc).
  - apply in_map_iff in Hr. destruct Hr as (e & <- & _). discriminate.
Qed.

(** A stream that stops on a failed read is processed as the stream of
    the frames read before it. *)
Lemma frames_loop_prefix total (reads : list (option (Frame Point))) :
  forall idx st,
    frames_loop fit_predict slot total idx reads st =
    frames_loop fit_predict slot total idx (map Some (frames_read reads)) st.
Proof.
  induction reads as [|[dets|] reads IH]; intros idx st; try reflexivity.
  cbn [frames_read map frames_loop].
  destruct (process_single_frame fit_predict slot dets idx st) as [st1|e];
    [|reflexivity].
  cbn [bind]. destruct (true_div idx total); [|reflexivity].
  cbn [bind]. rewrite IH. reflexivity.
Qed.

(** A consumer that gets [StopIteration] has seen the whole frame loop,
    and the finalization has run. *)
Lemma iterate_exhausted total (n : nat) :
  forall idx (reads : list (option (Frame Point))) st ys st',
    iterate fit_predict slot n total (Suspended idx reads) st
      = Ok (ys, Exhausted, st') ->
    exists st1,
      frames_loop fit_predict slot total idx reads st = Ok (ys, st1) /\
      st' = _log_final_dwell_times total st1.
Proof.
  induction n as [|n IH]; intros idx reads st ys st' H; [discriminate|].
  cbn [iterate] in H. destruct reads as [|[dets|] rest].
  - injection H as <- <-. exists st. auto.
  - cbn [gen_next frames_loop] in *.
    destruct (process_single_frame fit_predict slot dets idx st) as [st1|e];
      [|discriminate].
    cbn [bind] in *. destruct (true_div idx total) as [q|e]; [|discriminate].
    cbn [bind] in *.
    destruct (iterate fit_predict slot n total (Suspended (idx + 1) rest) st1)
      as [[[ys1 g2] st2]|e] eqn:E; [|discriminate].
    cbn [bind] in H. injection H as <- -> <-.
    destruct (IH _ _ _ _ _ E) as (st1' & Hloop & ->).
    exists st1'. rewrite Hloop. auto.
  - injection H as <- <-. exists st. auto.
Qed.

(** The [for] loop of [app.py]: one [next] per frame read and one more,
    which gets [StopIteration]. *)
Lemma iterate_for_loop total (reads : list (option (Frame Point))) :
  forall idx st ys st1,
    frames_loop fit_predict slot total idx reads st = Ok (ys, st1) ->
    iterate fit_predict slot (S (List.length (frames_read reads))) total
            (Suspended idx reads) st
      = Ok (ys, Exhausted, _log_final_dwell_times total st1).
Proof.
  induction reads as [|[dets|] rest IH]; intros idx st ys st1 H.
  - injection H as <- <-. reflexivity.
  - cbn [frames_loop] in H. cbn [frames_read List.length].
    remember (S (List.length (frames_read rest))) as n eqn:Hn.
    cbn [iterate gen_next].
    destruct (process_single_frame fit_predict slot dets idx st) as [st0|e];
      [|discriminate].
    cbn [bind] in *. destruct (true_div idx total) as [q|e]; [|discriminate].
    cbn [bind] in *.
    destruct (frames_loop fit_predict slot total (idx + 1) rest st0)
      as [[ys1 st2]|e] eqn:E; [|discriminate].
    cbn [bind] in H. injection H as <- <-.
    subst n. rewrite (IH _ _ _ _ E). reflexivity.
  - injection H as <- <-. reflexivity.
Qed.

Lemma final_entry_end_of_stream total (e : Z * Group) :
  end_of_stream_row total e (final_entry total e).
Proof.
  unfold end_of_stream_row, final_entry, last_member_count, last_member_ids.
  simpl. destruct (last_log (snd e)); repeat split.
Qed.

Lemma final_rows_end_of_stream total (a : Dict.t Group) :
  Forall2 (end_of_stream_row total) a (map (final_entry total) a).
Proof.
  induction a as [|e a IH]; simpl; constructor; [|exact IH].
  apply final_entry_end_of_stream.
Qed.

(** C5: whether the stream is exhausted, stops on a failed read, or was
    never opened, a consumer to whom the generator signals exhaustion has
    received the values of the frames actually read, and the log then ends
    with one end-of-stream row for every group that was in the table after
    the last frame, in table order: a row with the marker [video_end], the
    key of the group, the reported frame count as its frame, and that count
    minus the frame that created the group as its dwell time. *)
Theorem finalization_runs (cap : VideoCapture Point) st n ys st' :
  iterate fit_predict slot n (frame_count cap) (start cap) st
    = Ok (ys, Exhausted, st') ->
  process_video_and_yield_frames fit_predict slot cap st = Ok (ys, st') /\
  process_video_and_yield_frames fit_predict slot
    (mkCap true (frame_count cap) (map Some (frames_of cap))) st
    = Ok (ys, st') /\
  (forall e, In e (active_groups st') ->
     exists r, In r (log_file st') /\
               end_of_stream_row (frame_count cap) e r) /\
  exists st1 rows,
    frames_loop fit_predict slot (frame_count cap) 0
                (map Some (frames_of cap)) st = Ok (ys, st1) /\
    active_groups st' = active_groups st1 /\
    log_file st' = log_file st1 ++ rows /\
    Forall2 (end_of_stream_row (frame_count cap)) (active_groups st1) rows.
Proof.
  intros H. apply iterate_exhausted in H. destruct H as (st1 & Hloop & ->).
  assert (Hrun : process_video_and_yield_frames fit_predict slot cap st
                 = Ok (ys, _log_final_dwell_times (frame_count cap) st1)).
  { unfold process_video_and_yield_frames. destruct (isOpened cap).
    - rewrite Hloop. reflexivity.
    - simpl in Hloop. injection Hloop as <- <-. reflexivity. }
  rewrite frames_loop_prefix, <- frames_of_reads in Hloop.
  destruct (log_final_spec (frame_count cap) st1) as (_ & _ & Ha & Hl).
  pose proof (final_rows_end_of_stream (frame_count cap) (active_groups st1))
    as Hrows.
  split; [exact Hrun|]. split; [|split].
  - unfold process_video_and_yield_frames. cbn [isOpened frame_count stream].
    rewrite Hloop. reflexivity.
  - intros e He. rewrite Ha in He.
    exists (final_entry (frame_count cap) e). split.
    + rewrite Hl. apply in_or_app. right. apply in_map, He.
    + apply final_entry_end_of_stream.
  - exists st1, (map (final_entry (frame_count cap)) (active_groups st1)).
    auto.
Qed.

(** *** Progress fractions *)

(** The [i]-th value yielded by the loop started at [idx] is the float
    [(idx + i) / total], and there is one value per frame read. *)
Lemma frames_loop_yields total (reads : list (option (Frame Point))) :
  forall idx st ys st',
    frames_loop fit_predict slot total idx reads st = Ok (ys, st') ->
    List.length ys = List.length (frames_read reads) /\
    forall i q, nth_error ys i = Some q ->
                true_div (idx + Z.of_nat i) total = Ok q.
Proof.
  induction reads as [|[dets|] reads IH]; intros idx st ys st' Hrun.
  - injection Hrun as <- <-. split; [reflexivity|].
    intros [|i] q; discriminate.
  - cbn [frames_loop] in Hrun.
    destruct (process_single_frame fit_predict slot dets idx st) as [st1|e];
      [|discriminate].
    cbn [bind] in Hrun.
    destruct (true_div idx total) as [q0|e] eqn:E0; [|discriminate].
    cbn [bind] in Hrun.
    destruct (frames_loop fit_predict slot total (idx + 1) reads st1)
      as [[ys1 st2]|e] eqn:E2; [|discriminate].
    cbn [bind] in Hrun. injection Hrun as <- <-.
    destruct (IH _ _ _ _ E2) as [Hlen Hnth]. split.
    + simpl. f_equal. exact Hlen.
    + intros [|i] q Hq; simpl in Hq.
      * injection Hq as <-. rewrite Z.add_0_r. exact E0.
      * rewrite <- (Hnth i q Hq). f_equal. lia.
  - injection Hrun as <- <-. split; [reflexivity|].
    intros [|i] q; discriminate.
Qed.

Lemma grouped_detections_completes (dets : list (Detection Point)) :
  (List.length (fit_predict (points dets)) <= List.length dets)%nat ->
  exists grouped, grouped_detections fit_predict dets = Ok grouped.
Proof.
  intros Hlen. unfold grouped_detections.
  destruct (3 <=? List.length dets)%nat.
  - apply group_by_label_completes. simpl. exact Hlen.
  - exists []. reflexivity.
Qed.

(** The frame loop raises nothing when the tracker delivers identities
    for every frame, the clusterer returns no more labels than it was
    given points, and every division of a frame index by the reported
    frame count succeeds. *)
Lemma frames_loop_completes total (reads : list (option (Frame Point))) :
  (forall dets : Frame Point, In dets (frames_read reads) ->
     tracked dets = true /\
     (List.length (fit_predict (points dets)) <= List.length dets)%nat) ->
  forall idx st,
  (forall i, (i < List.length (frames_read reads))%nat ->
             exists q, true_div (idx + Z.of_nat i) total = Ok q) ->
  exists ys st', frames_loop fit_predict slot total idx reads st = Ok (ys, st').
Proof.
  induction reads as [|[dets|] reads IH]; intros Hclu idx st Hdiv.
  - exists [], st. reflexivity.
  - cbn [frames_read] in *.
    destruct (Hclu dets (or_introl eq_refl)) as [Htr Hlen].
    destruct (grouped_detections_completes dets Hlen) as [grouped Hg].
    destruct (frame_spec _ fit_predict slot dets idx st grouped Htr Hg)
      as (st1 & gs & H1 & _).
    destruct (Hdiv 0%nat) as [q Hq]; [simpl; lia|].
    rewrite Z.add_0_r in Hq.
    destruct (IH (fun d Hd => Hclu d (or_intror Hd)) (idx + 1) st1)
      as (ys & st' & H2).
    { intros i Hi. destruct (Hdiv (S i)) as [q' Hq']; [simpl; lia|].
      exists q'. rewrite <- Hq'. f_equal. lia. }
    exists (q :: ys), st'.
    cbn [frames_loop]. rewrite H1. cbn [bind]. rewrite Hq.
    cbn [bind]. rewrite H2. reflexivity.
  - exists [], st. reflexivity.
Qed.

(** C9, as the code has it: when the tracker delivers identities for
    every frame, the clusterer returns no more labels than points, and the
    frame count reported by the source is positive and not below the
    number of frames read minus one, the driver runs to completion and
    yields one value per frame read.  The [i]-th value is the float
    [i / total]: a binary64 number, with a mantissa of 53 bits unless its
    exponent is the least one, within half a unit in its last place of the
    exact quotient.  It lies in [0, 1], the values never decrease, and
    they increase strictly when the reported count is below [2 ^ 53]. *)
Theorem progress_fractions (cap : VideoCapture Point) st :
  (forall dets : Frame Point, In dets (frames_of cap) ->
     tracked dets = true /\
     (List.length (fit_predict (points dets)) <= List.length dets)%nat) ->
  (frames_of cap <> [] ->
     0 < frame_count cap /\
     Z.of_nat (List.length (frames_of cap)) - 1 <= frame_count cap) ->
  exists ys st',
    process_video_and_yield_frames fit_predict slot cap st = Ok (ys, st') /\
    List.length ys = List.length (frames_of cap) /\
    (forall i q, nth_error ys i = Some q ->
       true_div (Z.of_nat i) (frame_count cap) = Ok q /\
       (0 <= q <= 1)%Q /\
       exists m e,
         q = float_value m e /\ 0 <= m <= 2 ^ 53 /\ - 1074 <= e /\
         (e = - 1074 \/ 2 ^ 52 <= m) /\
         2 * Z.abs (m * 2 ^ (e + 1074) * frame_count cap
                    - Z.of_nat i * 2 ^ 1074)
         <= frame_count cap * 2 ^ (e + 1074)) /\
    (forall i j qi qj, (i <= j)%nat ->
       nth_error ys i = Some qi -> nth_error ys j = Some qj ->
       (qi <= qj)%Q) /\
    (frame_count cap < 2 ^ 53 ->
     forall i j qi qj, (i < j)%nat ->
       nth_error ys i = Some qi -> nth_error ys j = Some qj ->
       (qi < qj)%Q).
Proof.
  intros Hclu Hcount. rewrite frames_of_reads in *.
  set (reads := if isOpened cap then stream cap else []) in *.
  destruct (frames_loop_completes (frame_count cap) reads Hclu 0 st)
    as (ys & st1 & Hloop).
  { intros i Hi. destruct Hcount as [Hpos Hn].
    - intros E. rewrite E in Hi. simpl in Hi. lia.
    - rewrite true_div_unit by lia. eauto. }
  exists ys, (_log_final_dwell_times (frame_count cap) st1).
  destruct (frames_loop_yields _ _ _ _ _ _ Hloop) as [Hlen Hnth].
  assert (Hpos : forall i q, nth_error ys i = Some q ->
                   0 < frame_count cap /\
                   0 <= Z.of_nat i <= frame_count cap).
  { intros i q Hq.
    assert (Hi : (i < List.length ys)%nat)
      by (apply nth_error_Some; congruence).
    destruct Hcount as [Hp Hn].
    - intros E. rewrite E in Hlen. simpl in Hlen. lia.
    - lia. }
  split; [|split; [exact Hlen|split; [|split]]].
  - unfold process_video_and_yield_frames. subst reads.
    destruct (isOpened cap).
    + rewrite Hloop. reflexivity.
    + simpl in Hloop. injection Hloop as <- <-. reflexivity.
  - intros i q Hq. pose proof (Hnth i q Hq) as Hd. simpl in Hd.
    destruct (Hpos i _ Hq) as [Hp Hr]. split; [exact Hd|]. split.
    + exact (true_div_range _ _ _ Hr Hp Hd).
    + apply true_div_nearest; [lia | exact Hp | exact Hd].
  - intros i j qi qj Hij Hi Hj.
    pose proof (Hnth i qi Hi) as Hdi. pose proof (Hnth j qj Hj) as Hdj.
    simpl in Hdi, Hdj. destruct (Hpos i _ Hi) as [Hp _].
    apply (true_div_mono (Z.of_nat i) (Z.of_nat j) (frame_count cap));
      try assumption; lia.
  - intros H53 i j qi qj Hij Hi Hj.
    pose proof (Hnth i qi Hi) as Hdi. pose proof (Hnth j qj Hj) as Hdj.
    simpl in Hdi, Hdj. destruct (Hpos j _ Hj) as [Hp Hr].
    apply (true_div_lt (Z.of_nat i) (Z.of_nat j) (frame_count cap));
      try assumption; lia.
Qed.

End Run.

(** ** Properties of one frame *)

Section FrameClaims.
Variable Point : Type.
Variable fit_predict : list Point -> list Z.
Variable slot : set_order.

Lemma rows_written_app st st' (rows : list Row) :
  log_file st' = log_file st ++ rows -> rows_written st st' = rows.
Proof.
  intros H. unfold rows_written. rewrite H, skipn_app, skipn_all, Nat.sub_diag.
  reflexivity.
Qed.

Lemma disappeared_groups_In (a : Dict.t Group) (cur : list Z) (g : Z) :
  In g (disappeared_groups slot a cur) <-> In g (Dict.keys a) /\ ~ In g cur.
Proof.
  rewrite <- unmatched_keys_In. split; apply Permutation_in.
  - apply disappeared_groups_perm.
  - symmetry. apply disappeared_groups_perm.
Qed.

Lemma termination_rows_intro (entry : Z -> Group -> Row) a gs g grp :
  In g gs -> Dict.get g a = Some grp ->
  In (entry g grp) (termination_rows entry a gs).
Proof.
  intros Hg Hget. unfold termination_rows. apply in_flat_map.
  exists g. split; [exact Hg|]. rewrite Hget. left. reflexivity.
Qed.

(** C7, as the code has it: the test of line 90 counts every detection
    of the frame, with or without a track identity.  With fewer than three
    detections (and an identity array from the tracker) no clustering takes
    place: there is no cluster, the frame creates no group and writes no
    continuation row or snapshot; every group of the table matched nothing,
    so each one gets its termination row, in the order in which the set of
    line 132 is iterated, and the table is left empty. *)
Theorem no_clustering_below_three (dets : Frame Point) idx st :
  (List.length dets < 3)%nat ->
  tracked dets = true ->
  grouped_detections fit_predict dets = Ok [] /\
  exists st',
    process_single_frame fit_predict slot dets idx st = Ok st' /\
    active_groups st' = [] /\
    created st st' = [] /\
    saved_frames st' = saved_frames st /\
    Permutation (rows_written st st')
      (termination_rows (termination_entry idx) (active_groups st)
                        (nodup Z.eq_dec (Dict.keys (active_groups st)))) /\
    (forall r, In r (rows_written st st') -> saved_frame_path r = disappeared) /\
    (forall g grp, Dict.get g (active_groups st) = Some grp ->
                   In (termination_entry idx g grp) (rows_written st st')).
Proof.
  intros Hlen Htr.
  assert (Hg : grouped_detections fit_predict dets = Ok []).
  { unfold grouped_detections.
    destruct (Nat.leb_spec 3 (List.length dets)); [lia | reflexivity]. }
  split; [exact Hg|].
  destruct (tracker_labels_Ok _ dets Htr) as [ls Hls].
  assert (Hun : unmatched_keys (active_groups st) [] =
                nodup Z.eq_dec (Dict.keys (active_groups st))).
  { unfold unmatched_keys. apply forallb_filter_id, forallb_forall.
    reflexivity. }
  set (gs := disappeared_groups slot (active_groups st) []).
  assert (Hgs : Permutation gs (nodup Z.eq_dec (Dict.keys (active_groups st)))).
  { rewrite <- Hun. apply disappeared_groups_perm. }
  destruct (disappear_loop_spec idx gs st) as (st' & Hf & _ & Hs & Hl & Ha).
  { apply (Permutation_NoDup (Permutation_sym Hgs)), NoDup_nodup. }
  { intros k Hk. apply (Permutation_in _ Hgs), nodup_In in Hk. exact Hk. }
  assert (Hempty : active_groups st' = []).
  { rewrite Ha. apply filter_none. intros [k v] Hin. simpl.
    apply negb_false_iff, in_set_In.
    apply (Permutation_in _ (Permutation_sym Hgs)), nodup_In.
    apply (in_map fst) in Hin. exact Hin. }
  exists st'. unfold process_single_frame. rewrite Hls, Hg. cbn [bind foldM].
  unfold current_groups_in_frame.
  change (Dict.keys (@nil (Z * list (Detection Point)))) with (@nil Z).
  fold gs. split; [exact Hf|]. split; [exact Hempty|].
  split; [unfold created; rewrite Hempty; reflexivity|].
  split; [exact Hs|].
  rewrite (rows_written_app _ _ _ Hl). split; [|split].
  - apply termination_rows_perm, Hgs.
  - intros r Hr. apply termination_rows_In in Hr.
    destruct Hr as (g & grp & _ & _ & ->). reflexivity.
  - intros g grp Hget. apply termination_rows_intro; [|exact Hget].
    apply (Permutation_in _ (Permutation_sym Hgs)), nodup_In.
    exact (get_Some_keys _ _ _ Hget).
Qed.

(** C8: after a frame has been processed, a key is in the table if and
    only if it is the label of a cluster of that frame or belongs to a
    group that has disappeared without its termination row; the second
    case never arises, since a group that matches no cluster is finalized
    within the same frame. *)
Theorem table_holds_matched_groups (dets : Frame Point) idx st st' grouped :
  grouped_detections fit_predict dets = Ok grouped ->
  process_single_frame fit_predict slot dets idx st = Ok st' ->
  (forall g, In g (Dict.keys (active_groups st')) <->
             In g (Dict.keys grouped) \/
             pending_finalization st st' (Dict.keys grouped) g) /\
  (forall g, ~ pending_finalization st st' (Dict.keys grouped) g).
Proof.
  intros Hg H.
  destruct (frame_effect _ _ _ _ _ _ _ H)
    as (grouped' & gs & Hg' & Hgs & _ & Hl & Hk & _ & _).
  rewrite Hg in Hg'. injection Hg' as <-.
  apply rows_written_app in Hl.
  assert (Hnp : forall g, ~ pending_finalization st st' (Dict.keys grouped) g).
  { intros g (Hin & Hnot & Hrow). apply Hrow.
    destruct (get_of_key g (active_groups st) Hin) as [grp Hget].
    exists (termination_entry idx g grp). rewrite Hl.
    split; [|split; reflexivity].
    apply in_or_app. right. apply termination_rows_intro; [|exact Hget].
    apply (Permutation_in _ (Permutation_sym Hgs)), unmatched_keys_In.
    auto. }
  split; [|exact Hnp].
  intros g. rewrite Hk, in_app_iff, filter_In, in_set_In, fresh_keys_In.
  split.
  - intros [[_ Hc]|[Hc _]]; left; exact Hc.
  - intros [Hc|Hp]; [|exfalso; exact (Hnp g Hp)].
    destruct (in_dec Z.eq_dec g (Dict.keys (active_groups st))); tauto.
Qed.

Lemma get_new_groups idx (ks : list Z) (g : Z) :
  In g ks ->
  Dict.get g (map (fun k => (k, new_group idx)) ks) = Some (new_group idx).
Proof.
  induction ks as [|k ks IH]; simpl; [contradiction|].
  destruct (Z.eqb_spec k g) as [|Hne]; [reflexivity|].
  intros [?|Hin]; [contradiction | exact (IH Hin)].
Qed.

(** C4, as the code has it: for a cluster whose key is already in the
    table, the group keeps its start frame, its [last_seen_frame] and its
    [members] as they were; for a cluster whose key is new, a group is
    created whose start frame and [last_seen_frame] are the current frame
    and whose [members] is empty. *)
Theorem matcher_continue_or_create (dets : Frame Point) idx st st' grouped g :
  grouped_detections fit_predict dets = Ok grouped ->
  process_single_frame fit_predict slot dets idx st = Ok st' ->
  In g (Dict.keys grouped) ->
  exists grp,
    Dict.get g (active_groups st') = Some grp /\
    match Dict.get g (active_groups st) with
    | Some old =>
        start_frame grp = start_frame old /\
        last_seen_frame grp = last_seen_frame old /\
        members grp = members old
    | None =>
        start_frame grp = idx /\ last_seen_frame grp = idx /\
        members grp = []
    end.
Proof.
  intros Hg H Hin.
  destruct (frame_Ok_inv _ _ _ _ _ _ _ H) as [Htr _].
  destruct (frame_spec _ fit_predict slot dets idx st grouped Htr Hg)
    as (st2 & gs & H2 & _ & _ & _ & Ha).
  rewrite H in H2. injection H2 as <-.
  assert (Hget : option_map forget_last_log (Dict.get g (active_groups st')) =
                 match Dict.get g (active_groups st) with
                 | Some old => Some (forget_last_log old)
                 | None => Some (new_group idx)
                 end).
  { rewrite <- get_map_values, Ha.
    rewrite (get_filter_keep (fun k => in_set k (Dict.keys grouped)))
      by (apply in_set_In; exact Hin).
    rewrite get_app, get_map_values.
    destruct (Dict.get g (active_groups st)) as [old|] eqn:E; [reflexivity|].
    simpl. apply get_new_groups, fresh_keys_In. split; [exact Hin|].
    apply get_None. exact E. }
  destruct (Dict.get g (active_groups st')) as [grp|]; simpl in Hget.
  - exists grp. split; [reflexivity|].
    destruct (Dict.get g (active_groups st)) as [old|];
      injection Hget; intros; repeat split; assumption.
  - destruct (Dict.get g (active_groups st)); discriminate.
Qed.

Lemma member_ids_of_In (ms : list (Detection Point)) (t : Z) :
  In t (member_ids_of ms) <->
  exists m, In m ms /\ tracker_id m = Some t /\ t <> 0.
Proof.
  induction ms as [|m ms IH]; simpl.
  - split; [contradiction | intros (m & [] & _)].
  - unfold has_tracker_id. destruct (tracker_id m) as [t'|] eqn:E.
    + destruct (Z.eqb_spec t' 0) as [->|Hne]; simpl.
      * rewrite IH. split.
        -- intros (m' & Hm' & Ht). exists m'. auto.
        -- intros (m' & [<-|Hm'] & Ht & Hne0).
           ++ rewrite E in Ht. injection Ht as <-. contradiction.
           ++ exists m'. auto.
      * rewrite IH. split.
        -- intros [<-|(m' & Hm' & Ht)].
           ++ exists m. auto.
           ++ exists m'. auto.
        -- intros (m' & [<-|Hm'] & Ht & Hne0).
           ++ rewrite E in Ht. injection Ht as <-. left. reflexivity.
           ++ right. exists m'. auto.
    + rewrite IH. split.
      * intros (m' & Hm' & Ht). exists m'. auto.
      * intros (m' & [<-|Hm'] & Ht & Hne0).
        -- rewrite E in Ht. discriminate.
        -- exists m'. auto.
Qed.

Lemma member_ids_of_length (ms : list (Detection Point)) :
  (List.length (member_ids_of ms) <= List.length ms)%nat.
Proof.
  induction ms as [|m ms IH]; simpl; [lia|].
  destruct (has_tracker_id m); [destruct (tracker_id m)|]; simpl; lia.
Qed.

(** C3, as the code has it: a detection takes part in clustering whether
    or not it carries a track identity.  Its anchor is among the points
    given to the clusterer, and the members of a cluster are all the
    detections that got its label.  Only the list of member identities of
    a continuation row leaves out the members without identity (and those
    with identity 0).  When the tracker delivers an identity array, the
    frame is processed whenever the clusterer returns no more labels than
    points, whatever identities are missing in the array; when it delivers
    none at all, line 85 aborts the frame with [TypeError]. *)
Theorem missing_identity_still_clustered (dets : Frame Point) idx st :
  (List.length (fit_predict (points dets)) <= List.length dets)%nat ->
  (forall d, In d dets -> In (anchor d) (points dets)) /\
  (exists grouped,
     grouped_detections fit_predict dets = Ok grouped /\
     (forall k, k <> -1 -> (3 <= List.length dets)%nat ->
        cluster_members k grouped =
        with_label k (fit_predict (points dets)) dets) /\
     (tracked dets = true ->
      exists st', process_single_frame fit_predict slot dets idx st = Ok st')) /\
  (tracked dets = false ->
   process_single_frame fit_predict slot dets idx st = Raise TypeError) /\
  (forall ms t, In t (member_ids_of ms) <->
     exists m : Detection Point, In m ms /\ tracker_id m = Some t /\ t <> 0).
Proof.
  intros Hlen. split; [|split; [|split]].
  - intros d Hd. apply in_map, Hd.
  - destruct (grouped_detections_completes _ fit_predict dets Hlen)
      as [grouped Hg].
    exists grouped. split; [exact Hg|]. split.
    + intros k Hk H3. unfold grouped_detections in Hg.
      destruct (Nat.leb_spec 3 (List.length dets)); [|lia].
      rewrite (group_by_label_members _ _ _ _ _ _ k Hg).
      destruct (Z.eqb_spec k (-1)); [contradiction | reflexivity].
    + intros Htr.
      destruct (frame_spec _ fit_predict slot dets idx st grouped Htr Hg)
        as (st' & gs & H & _).
      exists st'. exact H.
  - intros Htr. unfold process_single_frame.
    rewrite (tracker_labels_Raise _ dets Htr). reflexivity.
  - apply member_ids_of_In.
Qed.

Lemma insert_sorted_length (x : Z) (l : list Z) :
  List.length (insert_sorted x l) = S (List.length l).
Proof.
  induction l as [|y l IH]; simpl; [reflexivity|].
  destruct (x <=? y); simpl; [reflexivity | rewrite IH; reflexivity].
Qed.

Lemma insert_sorted_In (x y : Z) (l : list Z) :
  In y (insert_sorted x l) <-> y = x \/ In y l.
Proof.
  induction l as [|z l IH]; simpl; [intuition|].
  destruct (x <=? z); simpl; [intuition | rewrite IH; intuition].
Qed.

Lemma sorted_In (l : list Z) (y : Z) : In y (sorted l) -> In y l.
Proof.
  induction l as [|x l IH]; simpl; [auto|].
  rewrite insert_sorted_In. intros [->|H]; auto.
Qed.

Lemma sorted_length (l : list Z) : List.length (sorted l) = List.length l.
Proof.
  induction l as [|x l IH]; simpl; [reflexivity|].
  rewrite insert_sorted_length, IH. reflexivity.
Qed.

Lemma grouped_detections_members (dets : Frame Point) grouped g ms :
  grouped_detections fit_predict dets = Ok grouped ->
  In (g, ms) grouped ->
  Dict.get g grouped = Some ms /\
  ms = with_label g (fit_predict (points dets)) dets.
Proof.
  intros Hg Hin.
  assert (Hget : Dict.get g grouped = Some ms).
  { apply get_NoDup; [|exact Hin].
    exact (grouped_detections_NoDup _ _ _ _ Hg). }
  split; [exact Hget|].
  unfold grouped_detections in Hg.
  destruct (3 <=? List.length dets)%nat;
    [|injection Hg as <-; contradiction].
  pose proof (group_by_label_members _ _ _ _ _ _ g Hg) as Hm.
  destruct (proj2 (group_by_label_keys _ _ _ _ _ _ Hg) g) as [[]|[_ Hne]].
  { apply (in_map fst) in Hin. exact Hin. }
  unfold cluster_members in Hm at 1. rewrite Hget in Hm.
  destruct (Z.eqb_spec g (-1)); [contradiction|]. exact Hm.
Qed.

(** The continuation rows a frame writes: the member count is the number
    of detections that got the cluster's label, the identities listed are
    those of the members that carry one. *)
Lemma continuation_row_members (dets : Frame Point) idx st st' grouped r :
  grouped_detections fit_predict dets = Ok grouped ->
  process_single_frame fit_predict slot dets idx st = Ok st' ->
  In r (rows_written st st') -> is_closing r = false ->
  exists ms ids,
    ms = with_label (group_id r) (fit_predict (points dets)) dets /\
    Dict.get (group_id r) grouped = Some ms /\
    member_count r = Z.of_nat (List.length ms) /\
    ids = sorted (member_ids_of ms) /\
    member_ids r = join "-" (map str ids) /\
    (List.length ids <= List.length ms)%nat /\
    (forall t, In t ids -> exists m, In m ms /\ tracker_id m = Some t).
Proof.
  intros Hg H Hr Hc.
  destruct (frame_Ok_inv _ _ _ _ _ _ _ H) as [Htr _].
  destruct (frame_spec _ fit_predict slot dets idx st grouped Htr Hg)
    as (st2 & gs & H2 & _ & _ & Hl & _).
  rewrite H in H2. injection H2 as <-.
  rewrite (rows_written_app _ _ _ Hl) in Hr.
  apply in_app_or in Hr. destruct Hr as [Hr|Hr].
  - apply continuation_rows_In in Hr. destruct Hr as (_ & g & ms & Hin & ->).
    destruct (grouped_detections_members _ _ _ _ Hg Hin) as [Hget Hms].
    exists ms, (sorted (member_ids_of ms)). simpl.
    repeat split; try assumption.
    + rewrite sorted_length. apply member_ids_of_length.
    + intros t Ht. apply sorted_In, member_ids_of_In in Ht.
      destruct Ht as (m & Hm & Ht & _). exists m. auto.
  - apply termination_rows_In in Hr. destruct Hr as (g & grp & _ & _ & ->).
    discriminate.
Qed.

End FrameClaims.

(** C10: a continuation row counts every detection that got the cluster's
    label, and lists the identities of those members that carry one; a
    cluster with a member without identity gives a row whose count exceeds
    the number of identities listed. *)
Theorem member_count_counts_all_members :
  (forall (Point : Type) (fit_predict : list Point -> list Z)
          (slot : set_order) (dets : Frame Point) idx st st' grouped r,
      grouped_detections fit_predict dets = Ok grouped ->
      process_single_frame fit_predict slot dets idx st = Ok st' ->
      In r (rows_written st st') -> is_closing r = false ->
      exists ms ids,
        ms = with_label (group_id r) (fit_predict (points dets)) dets /\
        Dict.get (group_id r) grouped = Some ms /\
        member_count r = Z.of_nat (List.length ms) /\
        ids = sorted (member_ids_of ms) /\
        member_ids r = join "-" (map str ids) /\
        (List.length ids <= List.length ms)%nat /\
        (forall t, In t ids -> exists m, In m ms /\ tracker_id m = Some t)) /\
  (exists (dets : Frame Clusterer.pt) st' r ids,
      process_single_frame Clusterer.fit_predict SetOrder.ascending dets 0 (init "out") = Ok st' /\
      In r (log_file st') /\ is_closing r = false /\
      member_ids r = join "-" (map str ids) /\
      member_count r > Z.of_nat (List.length ids)).
Proof.
  split.
  - exact continuation_row_members.
  - exists Scenario.one_untracked, Scenario.after_untracked,
      Scenario.untracked_row, [1; 2].
    split; [reflexivity|]. split; [left; reflexivity|].
    repeat split.
Qed.

(** ** The theorems on concrete runs *)

(** Two groups with key 0 are created by [cap_three], at frames 0 and 2;
    the log holds one closing row for each. *)
Lemma exactly_one_closing_row_witness :
  Scenario.run Scenario.cap_three
    = Ok (Scenario.yields_three, Scenario.final_three) /\
  NoDup [(0, 0); (0, 2)] /\
  Permutation [(0, 0); (0, 2)]
              (map closing_key (closing_rows (log_file Scenario.final_three))).
Proof.
  split; [reflexivity|].
  pose proof (exactly_one_closing_row _ Clusterer.fit_predict SetOrder.ascending
                Scenario.cap_three "out" Scenario.yields_three
                Scenario.final_three eq_refl) as H.
  split; [exact (proj1 H) | exact (proj1 (proj2 H))].
Defined.


Lemma missing_identity_still_clustered_witness :
  (List.length (Clusterer.fit_predict (points Scenario.one_untracked))
   <= List.length Scenario.one_untracked)%nat /\
  (forall d, In d Scenario.one_untracked ->
             In (anchor d) (points Scenario.one_untracked)) /\
  (exists grouped,
     grouped_detections Clusterer.fit_predict Scenario.one_untracked
       = Ok grouped /\
     (forall k, k <> -1 -> (3 <= List.length Scenario.one_untracked)%nat ->
        cluster_members k grouped =
        with_label k (Clusterer.fit_predict (points Scenario.one_untracked))
                   Scenario.one_untracked) /\
     (tracked Scenario.one_untracked = true ->
      exists st',
        Scenario.step Scenario.one_untracked 0 (init "out") = Ok st')) /\
  (tracked Scenario.one_untracked = false ->
   Scenario.step Scenario.one_untracked 0 (init "out") = Raise TypeError) /\
  (forall ms t, In t (member_ids_of ms) <->
     exists m : Detection Clusterer.pt,
       In m ms /\ tracker_id m = Some t /\ t <> 0).
Proof.
  split; [apply le_n|].
  apply (missing_identity_still_clustered _ Clusterer.fit_predict
           SetOrder.ascending Scenario.one_untracked 0 (init "out")).
  apply le_n.
Defined.

Lemma matcher_continue_or_create_witness :
  grouped_detections Clusterer.fit_predict Scenario.together
    = Ok Scenario.clusters_together /\
  Scenario.step Scenario.together 1 Scenario.after_frame0
    = Ok Scenario.after_frame1 /\
  In 0 (Dict.keys Scenario.clusters_together) /\
  exists grp,
    Dict.get 0 (active_groups Scenario.after_frame1) = Some grp /\
    start_frame grp = 0 /\ last_seen_frame grp = 0 /\ members grp = [].
Proof.
  split; [reflexivity|]. split; [reflexivity|].
  split; [left; reflexivity|].
  apply (matcher_continue_or_create _ Clusterer.fit_predict SetOrder.ascending
           Scenario.together 1 Scenario.after_frame0 Scenario.after_frame1
           Scenario.clusters_together 0).
  - reflexivity.
  - reflexivity.
  - left; reflexivity.
Defined.

Lemma finalization_runs_witness :
  iterate Clusterer.fit_predict SetOrder.ascending 4 3 (start Scenario.cap_interrupted)
          (init "out")
    = Ok (Scenario.yields_three, Exhausted, Scenario.final_three) /\
  Scenario.run Scenario.cap_interrupted
    = Ok (Scenario.yields_three, Scenario.final_three) /\
  Scenario.run Scenario.cap_three
    = Ok (Scenario.yields_three, Scenario.final_three) /\
  (forall e, In e (active_groups Scenario.final_three) ->
     exists r, In r (log_file Scenario.final_three) /\
               end_of_stream_row 3 e r).
Proof.
  split; [reflexivity|].
  pose proof (finalization_runs _ Clusterer.fit_predict SetOrder.ascending
                Scenario.cap_interrupted (init "out") 4
                Scenario.yields_three Scenario.final_three eq_refl) as H.
  split; [exact (proj1 H)|].
  split; [exact (proj1 (proj2 H)) | exact (proj1 (proj2 (proj2 H)))].
Defined.

Lemma continuation_rows_on_snapshot_frames_witness :
  Scenario.run Scenario.cap_three
    = Ok (Scenario.yields_three, Scenario.final_three) /\
  In Scenario.snapshot_row (log_file Scenario.final_three) /\
  is_closing Scenario.snapshot_row = false /\
  0 mod 30 = 0 /\ 0 = 0 /\
  saved_frame_path Scenario.snapshot_row
    = path_join "out" (frame_filename 0 0).
Proof.
  split; [reflexivity|]. split; [left; reflexivity|]. split; [reflexivity|].
  apply (continuation_rows_on_snapshot_frames _ Clusterer.fit_predict SetOrder.ascending
           Scenario.cap_three "out" Scenario.yields_three
           Scenario.final_three Scenario.snapshot_row).
  - reflexivity.
  - left; reflexivity.
  - reflexivity.
Defined.

Lemma no_clustering_below_three_witness :
  (List.length Scenario.alone < 3)%nat /\
  tracked Scenario.alone = true /\
  grouped_detections Clusterer.fit_predict Scenario.alone
    = Ok [] /\
  exists st',
    Scenario.step Scenario.alone 1 Scenario.after_frame0
      = Ok st' /\
    active_groups st' = [] /\
    created Scenario.after_frame0 st' = [] /\
    saved_frames st' = saved_frames Scenario.after_frame0 /\
    Permutation (rows_written Scenario.after_frame0 st')
      (termination_rows (termination_entry 1)
        (active_groups Scenario.after_frame0)
        (nodup Z.eq_dec (Dict.keys (active_groups Scenario.after_frame0)))) /\
    (forall r, In r (rows_written Scenario.after_frame0 st') ->
               saved_frame_path r = disappeared) /\
    (forall g grp,
       Dict.get g (active_groups Scenario.after_frame0) = Some grp ->
       In (termination_entry 1 g grp)
          (rows_written Scenario.after_frame0 st')).
Proof.
  split; [repeat constructor|]. split; [reflexivity|].
  apply (no_clustering_below_three _ Clusterer.fit_predict
           SetOrder.ascending Scenario.alone 1 Scenario.after_frame0).
  - repeat constructor.
  - reflexivity.
Defined.

Lemma table_holds_matched_groups_witness :
  grouped_detections Clusterer.fit_predict Scenario.together
    = Ok Scenario.clusters_together /\
  Scenario.step Scenario.together 1 Scenario.after_frame0
    = Ok Scenario.after_frame1 /\
  (forall g, In g (Dict.keys (active_groups Scenario.after_frame1)) <->
             In g (Dict.keys Scenario.clusters_together) \/
             pending_finalization Scenario.after_frame0 Scenario.after_frame1
               (Dict.keys Scenario.clusters_together) g) /\
  (forall g, ~ pending_finalization Scenario.after_frame0
                 Scenario.after_frame1
                 (Dict.keys Scenario.clusters_together) g).
Proof.
  split; [reflexivity|]. split; [reflexivity|].
  apply (table_holds_matched_groups _ Clusterer.fit_predict SetOrder.ascending
           Scenario.together 1 Scenario.after_frame0 Scenario.after_frame1
           Scenario.clusters_together); reflexivity.
Defined.

Lemma progress_fractions_witness :
  exists ys st',
    Scenario.run Scenario.cap_three = Ok (ys, st') /\
    List.length ys = 3%nat /\
    (forall i q, nth_error ys i = Some q ->
       true_div (Z.of_nat i) 3 = Ok q /\
       (0 <= q <= 1)%Q /\
       exists m e,
         q = float_value m e /\ 0 <= m <= 2 ^ 53 /\ - 1074 <= e /\
         (e = - 1074 \/ 2 ^ 52 <= m) /\
         2 * Z.abs (m * 2 ^ (e + 1074) * 3 - Z.of_nat i * 2 ^ 1074)
         <= 3 * 2 ^ (e + 1074)) /\
    (forall i j qi qj, (i <= j)%nat ->
       nth_error ys i = Some qi -> nth_error ys j = Some qj ->
       (qi <= qj)%Q) /\
    (3 < 2 ^ 53 ->
     forall i j qi qj, (i < j)%nat ->
       nth_error ys i = Some qi -> nth_error ys j = Some qj ->
       (qi < qj)%Q).
Proof.
  apply (progress_fractions _ Clusterer.fit_predict SetOrder.ascending
           Scenario.cap_three (init "out")).
  - intros dets [<-|[<-|[<-|[]]]]; (split; [reflexivity | apply le_n]).
  - intros _. split; [reflexivity | discriminate].
Defined.

Lemma member_count_counts_all_members_witness :
  grouped_detections Clusterer.fit_predict Scenario.one_untracked
    = Ok Scenario.clusters_untracked /\
  Scenario.step Scenario.one_untracked 0 (init "out")
    = Ok Scenario.after_untracked /\
  In Scenario.untracked_row
     (rows_written (init "out") Scenario.after_untracked) /\
  is_closing Scenario.untracked_row = false /\
  exists ms ids,
    ms = with_label 0 (Clusterer.fit_predict (points Scenario.one_untracked))
                    Scenario.one_untracked /\
    Dict.get 0 Scenario.clusters_untracked = Some ms /\
    3 = Z.of_nat (List.length ms) /\
    ids = sorted (member_ids_of ms) /\
    "1-2"%string = join "-" (map str ids) /\
    (List.length ids <= List.length ms)%nat /\
    (forall t, In t ids -> exists m, In m ms /\ tracker_id m = Some t).
Proof.
  split; [reflexivity|]. split; [reflexivity|].
  split; [left; reflexivity|]. split; [reflexivity|].
  apply (proj1 member_count_counts_all_members _ Clusterer.fit_predict SetOrder.ascending
           Scenario.one_untracked 0 (init "out") Scenario.after_untracked
           Scenario.clusters_untracked Scenario.untracked_row).
  - reflexivity.
  - reflexivity.
  - left; reflexivity.
  - reflexivity.
Defined.

(** ** Where the code departs from the specification *)


(** C3 as stated fails twice: a detection without track identity is
    among the points clustered and among the members of its cluster; and a
    frame for which the tracker delivers no identities is aborted. *)
Lemma missing_identity_counterexample :
  (exists d grouped,
     In d Scenario.one_untracked /\ tracker_id d = None /\
     In (anchor d) (points Scenario.one_untracked) /\
     grouped_detections Clusterer.fit_predict Scenario.one_untracked
       = Ok grouped /\
     In d (cluster_members 0 grouped)) /\
  Scenario.step Scenario.no_identities 0 (init "out") = Raise TypeError.
Proof.
  split; [|reflexivity].
  exists (Clusterer.person 0 10 None), Scenario.clusters_untracked.
  split; [right; right; left; reflexivity|]. split; [reflexivity|].
  split; [right; right; left; reflexivity|]. split; [reflexivity|].
  right; right; left; reflexivity.
Qed.

(** C7 as stated fails: a frame with two valid detections and one without
    track identity has fewer than three valid detections, and yet it is
    clustered: a group is created and a continuation row written. *)
Lemma no_clustering_counterexample :
  (List.length (filter (@valid_detection Clusterer.pt) Scenario.one_untracked)
   < 3)%nat /\
  grouped_detections Clusterer.fit_predict Scenario.one_untracked
    = Ok Scenario.clusters_untracked /\
  List.length (cluster_members 0 Scenario.clusters_untracked) = 3%nat /\
  Scenario.step Scenario.one_untracked 0 (init "out")
    = Ok Scenario.after_untracked /\
  created (init "out") Scenario.after_untracked = [0] /\
  rows_written (init "out") Scenario.after_untracked
    = [Scenario.untracked_row].
Proof.
  split; [repeat constructor|]. repeat split.
Qed.

(** C4 as stated fails: the group of frame 0 is matched again in frame 1,
    and its [last_seen_frame] is still 0 and its [members] still empty,
    though the cluster has three members. *)
Lemma matcher_continuation_counterexample :
  exists grp,
    Scenario.step Scenario.together 0 (init "out") = Ok Scenario.after_frame0 /\
    Scenario.step Scenario.together 1 Scenario.after_frame0
      = Ok Scenario.after_frame1 /\
    Dict.mem 0 (active_groups Scenario.after_frame0) = true /\
    List.length (cluster_members 0 Scenario.clusters_together) = 3%nat /\
    Dict.get 0 (active_groups Scenario.after_frame1) = Some grp /\
    last_seen_frame grp <> 1 /\
    members grp = [].
Proof.
  eexists. split; [reflexivity|]. split; [reflexivity|].
  split; [reflexivity|]. split; [reflexivity|].
  split; [reflexivity|]. split; [discriminate | reflexivity].
Qed.

(** C9 as stated fails: with a reported frame count of 0 the first
    division raises [ZeroDivisionError]; with a reported count of 1 and
    three frames the third fraction is 2. *)
Lemma progress_fractions_counterexample :
  Scenario.run Scenario.cap_zero = Raise ZeroDivisionError /\
  exists ys st' q,
    Scenario.run Scenario.cap_underreported = Ok (ys, st') /\
    nth_error ys 2 = Some q /\ ~ (q <= 1)%Q.
Proof.
  split; [reflexivity|].
  eexists _, _, _. split; [vm_compute; reflexivity|].
  split; [reflexivity|]. intros H. vm_compute in H. apply H. reflexivity.
Qed.

(** ** The scenarios of the specification *)

(** Three people stand together during frames 0 to 59 and scatter at frame
    60: a continuation row at frame 0 and at frame 30, then a termination
    row at frame 60 with a dwell time of 60 frames. *)
Example scenario_group_disappears :
  log_file (Scenario.final_of
    (Scenario.run (mkCap true 61
       (map Some (repeat Scenario.together 60 ++ [Scenario.scattered])))))
  = [mkRow 0 0 3 "1-2-3" 0 "out/frame_0_group_0.jpg";
     mkRow 30 0 3 "1-2-3" 0 "out/frame_30_group_0.jpg";
     mkRow 60 0 3 "1-2-3" 60 disappeared].
Proof. vm_compute. reflexivity. Qed.

(** A group forms at frame 5 and is still there when a stream of 100
    frames ends: one end-of-stream row, at frame 100, with a dwell time of
    95 frames. *)
Example scenario_group_until_the_end :
  closing_rows (log_file (Scenario.final_of
    (Scenario.run (mkCap true 100
       (map Some (repeat Scenario.scattered 5 ++ repeat Scenario.together 95))))))
  = [mkRow 100 0 3 "1-2-3" 95 video_end].
Proof. vm_compute. reflexivity. Qed.

(** Two people standing together, however long, are never a group. *)
Example scenario_pair_is_no_group :
  Scenario.run (mkCap true 40
    (map Some (repeat (mkFrame [Clusterer.person 0 0 (Some 1);
                                Clusterer.person 10 0 (Some 2);
                                Clusterer.person 900 900 (Some 3)] true)
                      40)))
  = Ok (map (fun i => match true_div (Z.of_nat i) 40 with
                      | Ok q => q
                      | Raise _ => 0%Q
                      end) (seq 0 40),
        init "out").
Proof. vm_compute. reflexivity. Qed.

(** A consumer that stops after two values leaves the generator suspended
    at its second [yield]: the sequence is not exhausted, and line 74 has
    not run. *)
Example generator_left_suspended :
  exists ys st,
    iterate Clusterer.fit_predict SetOrder.ascending 2 3 (start Scenario.cap_three) (init "out")
      = Ok (ys, Suspended 2 [Some Scenario.together], st) /\
    List.length ys = 2%nat /\
    closing_rows (log_file st) = [Scenario.termination_row].
Proof.
  eexists _, _. split; [vm_compute; reflexivity|]. split; reflexivity.
Qed.

(** * Further properties of the processor *)

(** ** One frame, in full *)

Lemma get_update_same {V : Type} (f : V -> V) (k : Z) (d : Dict.t V) :
  Dict.get k (Dict.update k f d) = option_map f (Dict.get k d).
Proof.
  induction d as [|[k0 v0] d IH]; simpl; [reflexivity|].
  destruct (Z.eqb_spec k0 k) as [->|H0]; simpl.
  - rewrite Z.eqb_refl. reflexivity.
  - destruct (Z.eqb_spec k0 k); [contradiction | exact IH].
Qed.

Section FrameInFull.
Variable Point : Type.
Variable fit_predict : list Point -> list Z.
Variable slot : set_order.

Lemma cluster_step_full idx st g (ms : list (Detection Point)) :
  exists st',
    cluster_step idx st (g, ms) = Ok st' /\
    saved_frames st' =
      saved_frames st
      ++ map saved_frame_path
             (continuation_rows (saved_frames_dir st) idx [(g, ms)]) /\
    Dict.get g (active_groups st') =
      Some (touched Point (saved_frames_dir st) idx g ms
                    (Dict.get g (active_groups st))).
Proof.
  unfold cluster_step, continuation_rows, touched.
  destruct (Dict.mem g (active_groups st)) eqn:Hmem;
    destruct (idx mod 30 =? 0) eqn:Hsnap; simpl.
  - apply mem_In, get_of_key in Hmem. destruct Hmem as [grp Hget].
    unfold getitem. rewrite Hget. simpl. eexists. split; [reflexivity|].
    simpl. split; [reflexivity|]. rewrite get_update_same, Hget. reflexivity.
  - apply mem_In, get_of_key in Hmem. destruct Hmem as [grp Hget].
    eexists. split; [reflexivity|]. rewrite app_nil_r. split; [reflexivity|].
    rewrite Hget. reflexivity.
  - apply mem_false, get_None in Hmem.
    assert (Hnew : Dict.get g (Dict.add g (new_group idx) (active_groups st))
                   = Some (new_group idx)).
    { unfold Dict.add. rewrite get_app, Hmem. simpl. rewrite Z.eqb_refl.
      reflexivity. }
    unfold getitem. rewrite Hnew. simpl. eexists. split; [reflexivity|].
    simpl. split; [reflexivity|]. rewrite get_update_same, Hnew, Hmem.
    reflexivity.
  - apply mem_false, get_None in Hmem. eexists. split; [reflexivity|].
    simpl. rewrite app_nil_r. split; [reflexivity|].
    unfold Dict.add. rewrite get_app, Hmem. simpl. rewrite Z.eqb_refl.
    reflexivity.
Qed.

(** The cluster loop: the snapshots it saves and the record it leaves
    for every key it met. *)
Lemma cluster_loop_full idx (grouped : Dict.t (list (Detection Point))) :
  forall st,
    NoDup (Dict.keys grouped) ->
    exists st1,
      foldM (cluster_step idx) grouped st = Ok st1 /\
      saved_frames_dir st1 = saved_frames_dir st /\
      saved_frames st1 =
        saved_frames st
        ++ map saved_frame_path
               (continuation_rows (saved_frames_dir st) idx grouped) /\
      (forall g ms, In (g, ms) grouped ->
         Dict.get g (active_groups st1) =
         Some (touched Point (saved_frames_dir st) idx g ms
                       (Dict.get g (active_groups st)))) /\
      (forall k, ~ In k (Dict.keys grouped) ->
         Dict.get k (active_groups st1) = Dict.get k (active_groups st)).
Proof.
  induction grouped as [|[g ms] grouped IH]; intros st ND.
  - exists st. simpl. unfold continuation_rows.
    destruct (idx mod 30 =? 0); simpl; rewrite app_nil_r;
      repeat split; auto; contradiction.
  - simpl in ND. inversion ND as [|? ? Hg ND']; subst.
    destruct (cluster_step_spec _ idx st g ms)
      as (st' & Hs & Hd & _ & _ & Ho).
    destruct (cluster_step_full idx st g ms) as (st'' & Hs' & Hsv & Hget).
    rewrite Hs in Hs'. injection Hs' as <-.
    destruct (IH st' ND') as (st1 & Hf & Hd1 & Hsv1 & Hg1 & Ho1).
    exists st1. cbn [foldM]. rewrite Hs. cbn [bind].
    split; [exact Hf|]. split; [congruence|]. split; [|split].
    + rewrite Hsv1, Hsv, Hd, <- app_assoc, <- map_app.
      rewrite <- continuation_rows_cons. reflexivity.
    + intros k ms' [[= <- <-]|Hin].
      * rewrite Ho1 by exact Hg. exact Hget.
      * assert (Hk : k <> g).
        { intros ->. apply Hg. apply (in_map fst) in Hin. exact Hin. }
        rewrite (Hg1 k ms' Hin), Hd, (Ho k Hk). reflexivity.
    + intros k Hk. simpl in Hk. rewrite Ho1, Ho; auto.
Qed.

(** One call of [process_single_frame]: the snapshots saved and the
    record left for every cluster of the frame. *)
Lemma frame_full (dets : Frame Point) idx st grouped :
  tracked dets = true ->
  grouped_detections fit_predict dets = Ok grouped ->
  exists st2,
    process_single_frame fit_predict slot dets idx st = Ok st2 /\
    saved_frames st2 =
      saved_frames st
      ++ map saved_frame_path
             (continuation_rows (saved_frames_dir st) idx grouped) /\
    (forall g ms, In (g, ms) grouped ->
       Dict.get g (active_groups st2) =
       Some (touched Point (saved_frames_dir st) idx g ms
                     (Dict.get g (active_groups st)))).
Proof.
  intros Htr Hg. pose proof (grouped_detections_NoDup _ _ _ _ Hg) as ND.
  destruct (tracker_labels_Ok _ dets Htr) as [ls Hls].
  destruct (cluster_loop_full idx grouped st ND)
    as (st1 & Hf & _ & Hsv & Hget & _).
  set (gs := disappeared_groups slot (active_groups st1) (Dict.keys grouped)).
  destruct (disappear_loop_spec idx gs st1) as (st2 & Hf2 & _ & Hs2 & _ & Ha2).
  { apply (Permutation_NoDup
             (Permutation_sym (disappeared_groups_perm slot _ _))).
    apply unmatched_keys_NoDup. }
  { intros k Hk. apply disappeared_groups_In in Hk. tauto. }
  exists st2. unfold process_single_frame. rewrite Hls, Hg. cbn [bind].
  rewrite Hf. cbn [bind]. unfold current_groups_in_frame. fold gs.
  split; [exact Hf2|]. split; [congruence|].
  intros g ms Hin. rewrite Ha2.
  rewrite (get_filter_keep (fun k => negb (in_set k gs))).
  - apply Hget, Hin.
  - apply negb_true_iff, in_set_false. intros Hgs.
    apply disappeared_groups_In in Hgs. destruct Hgs as [_ Hgs].
    apply Hgs. apply (in_map fst) in Hin. exact Hin.
Qed.

End FrameInFull.

(** ** The rows and snapshots of a run *)

Section RunRows.
Variable Point : Type.
Variable fit_predict : list Point -> list Z.
Variable slot : set_order.

Lemma continuation_rows_all dir idx (grouped : Dict.t (list (Detection Point))) :
  filter is_continuation (continuation_rows dir idx grouped)
  = continuation_rows dir idx grouped.
Proof.
  apply forallb_filter_id, forallb_forall. intros r Hr.
  unfold is_continuation.
  rewrite (continuation_shape_not_closing dir r
             (continuation_rows_shape _ _ _ _ _ Hr)).
  reflexivity.
Qed.

Lemma termination_rows_none idx a gs :
  filter is_continuation (termination_rows (termination_entry idx) a gs) = [].
Proof.
  apply filter_none. intros r Hr. apply termination_rows_In in Hr.
  destruct Hr as (g & grp & _ & _ & ->). reflexivity.
Qed.

Lemma final_rows_none total (a : Dict.t Group) :
  filter is_continuation (map (final_entry total) a) = [].
Proof.
  apply filter_none. intros r Hr. apply in_map_iff in Hr.
  destruct Hr as (e & <- & _). reflexivity.
Qed.

(** What one frame adds to the log and to the saved snapshots. *)
Lemma frame_rows (dets : Frame Point) idx st st2 :
  process_single_frame fit_predict slot dets idx st = Ok st2 ->
  exists grouped gs,
    grouped_detections fit_predict dets = Ok grouped /\
    saved_frames_dir st2 = saved_frames_dir st /\
    log_file st2 =
      log_file st
      ++ continuation_rows (saved_frames_dir st) idx grouped
      ++ termination_rows (termination_entry idx) (active_groups st) gs /\
    saved_frames st2 =
      saved_frames st
      ++ map saved_frame_path
             (continuation_rows (saved_frames_dir st) idx grouped).
Proof.
  intros H. destruct (frame_Ok_inv _ _ _ _ _ _ _ H) as [Htr [grouped Hg]].
  destruct (frame_spec _ fit_predict slot dets idx st grouped Htr Hg)
    as (st2' & gs & H' & _ & Hd & Hl & _).
  destruct (frame_full _ fit_predict slot dets idx st grouped Htr Hg)
    as (st2'' & H'' & Hsv & _).
  rewrite H in H', H''. injection H' as <-. injection H'' as <-.
  exists grouped, gs. auto.
Qed.

Lemma frames_loop_rows total (reads : list (option (Frame Point))) :
  forall idx st ys st',
    frames_loop fit_predict slot total idx reads st = Ok (ys, st') ->
    saved_frames_dir st' = saved_frames_dir st /\
    (exists rows, log_file st' = log_file st ++ rows /\
                  forall r, In r rows ->
                    idx <= frame r < idx + Z.of_nat (List.length (frames_read reads))) /\
    filter is_continuation (log_file st') =
      filter is_continuation (log_file st)
      ++ snapshots_due _ fit_predict (saved_frames_dir st) idx (frames_read reads) /\
    saved_frames st' =
      saved_frames st
      ++ map saved_frame_path
             (snapshots_due _ fit_predict (saved_frames_dir st) idx
                            (frames_read reads)).
Proof.
  induction reads as [|[dets|] reads IH]; intros idx st ys st' Hrun.
  - injection Hrun as <- <-. simpl. rewrite !app_nil_r. split; [reflexivity|].
    split; [|split; reflexivity]. exists []. rewrite app_nil_r.
    split; [reflexivity | contradiction].
  - cbn [frames_loop] in Hrun.
    destruct (process_single_frame fit_predict slot dets idx st) as [st1|e] eqn:E1;
      [|discriminate].
    cbn [bind] in Hrun.
    destruct (true_div idx total) as [q|e]; [|discriminate].
    cbn [bind] in Hrun.
    destruct (frames_loop fit_predict slot total (idx + 1) reads st1)
      as [[ys1 st2]|e] eqn:E2; [|discriminate].
    cbn [bind] in Hrun. injection Hrun as <- <-.
    destruct (frame_rows _ _ _ _ E1) as (grouped & gs & Hg & Hd & Hl & Hsv).
    destruct (IH _ _ _ _ E2) as (Hd2 & (rows & Hrows & Hfr) & Hc2 & Hsv2).
    cbn [frames_read snapshots_due List.length]. rewrite Hg.
    split; [congruence|]. split; [|split].
    + eexists. split.
      * rewrite Hrows, Hl, <- !app_assoc. reflexivity.
      * intros r Hr. apply in_app_or in Hr. destruct Hr as [Hr|Hr].
        -- apply continuation_rows_In in Hr.
           destruct Hr as (_ & g & ms & _ & ->). simpl. lia.
        -- apply in_app_or in Hr. destruct Hr as [Hr|Hr].
           ++ apply termination_rows_In in Hr.
              destruct Hr as (g & grp & _ & _ & ->). simpl. lia.
           ++ apply Hfr in Hr. lia.
    + rewrite Hc2, Hl, !filter_app, continuation_rows_all,
        termination_rows_none, app_nil_r, Hd, <- app_assoc.
      reflexivity.
    + rewrite Hsv2, Hsv, Hd, map_app, <- app_assoc. reflexivity.
  - injection Hrun as <- <-. simpl. rewrite !app_nil_r. split; [reflexivity|].
    split; [|split; reflexivity]. exists []. rewrite app_nil_r.
    split; [reflexivity | contradiction].
Qed.

(** X1: the log is append-only.  A run with its finalization leaves the
    rows already in the log as they are, in place, and adds its own behind
    them: first the rows of the frames, each carrying the index of a frame
    read, then one end-of-stream row per group left in the table. *)
Theorem log_is_append_only (cap : VideoCapture Point) st ys st' :
  process_video_and_yield_frames fit_predict slot cap st = Ok (ys, st') ->
  exists rows,
    log_file st' =
      log_file st ++ rows
      ++ map (final_entry (frame_count cap)) (active_groups st') /\
    forall r, In r rows ->
      0 <= frame r < Z.of_nat (List.length (frames_of cap)).
Proof.
  intros H. destruct (driver_inv _ _ _ _ _ _ _ H) as (st1 & Hloop & ->).
  destruct (frames_loop_rows _ _ _ _ _ _ Hloop)
    as (_ & (rows & Hrows & Hfr) & _ & _).
  destruct (log_final_spec (frame_count cap) st1) as (_ & _ & Ha & Hl).
  exists rows. rewrite Hl, Ha, Hrows, <- app_assoc. split; [reflexivity|].
  rewrite frames_of_reads. exact Hfr.
Qed.

(** *** The order of the clusters of a frame *)

Lemma first_appearances_ext (seen seen' labels : list Z) :
  (forall x, in_set x seen = in_set x seen') ->
  first_appearances seen labels = first_appearances seen' labels.
Proof.
  revert seen seen'. induction labels as [|l labels IH]; intros seen seen' H;
    [reflexivity|].
  cbn [first_appearances]. rewrite (H l).
  destruct ((l =? -1) || in_set l seen')%bool; [apply IH, H|].
  f_equal. apply IH. intros x. specialize (H x). unfold in_set in *.
  simpl. rewrite H. reflexivity.
Qed.

Lemma in_set_app (x : Z) (l l' : list Z) :
  in_set x (l ++ l') = (in_set x l || in_set x l')%bool.
Proof. unfold in_set. apply existsb_app. Qed.

(** A dictionary filled by [append_member] holds its keys in the order in
    which the labels first appear. *)
Lemma group_by_label_order labels :
  forall i (dets : list (Detection Point)) grouped g',
    group_by_label i labels dets grouped = Ok g' ->
    Dict.keys g' =
    Dict.keys grouped ++ first_appearances (Dict.keys grouped) labels.
Proof.
  induction labels as [|l labels IH]; intros i dets grouped g'.
  - simpl. intros [= <-]. rewrite app_nil_r. reflexivity.
  - cbn [group_by_label first_appearances].
    destruct (Z.eqb_spec l (-1)) as [->|Hl].
    + cbn [orb]. apply IH.
    + destruct (nth_error dets i) as [d|]; [|discriminate].
      intros H. rewrite (IH _ _ _ _ H), keys_append_member.
      cbn [orb]. unfold Dict.mem. fold (in_set l (Dict.keys grouped)).
      destruct (in_set l (Dict.keys grouped)) eqn:E; [reflexivity|].
      rewrite <- app_assoc. cbn [app]. do 2 f_equal.
      apply first_appearances_ext. intros x.
      rewrite in_set_app. unfold in_set. simpl.
      rewrite orb_false_r. apply orb_comm.
Qed.

(** The continuation rows of a frame, from the labels alone. *)
Lemma continuation_rows_due dir idx (dets : Frame Point) grouped :
  grouped_detections fit_predict dets = Ok grouped ->
  continuation_rows dir idx grouped = rows_due _ fit_predict dir idx dets.
Proof.
  intros Hg. unfold continuation_rows, rows_due.
  destruct (idx mod 30 =? 0); [|reflexivity]. cbn [andb].
  assert (Hms : forall c, In c grouped ->
            snd c = with_label (fst c) (fit_predict (points dets)) dets).
  { intros [g ms] Hin.
    exact (proj2 (grouped_detections_members _ _ _ _ _ _ Hg Hin)). }
  unfold grouped_detections in Hg.
  destruct (3 <=? List.length dets)%nat.
  - apply group_by_label_order in Hg. simpl in Hg.
    rewrite <- Hg. unfold Dict.keys. rewrite map_map.
    apply map_ext_in. intros c Hc. rewrite (Hms c Hc). reflexivity.
  - injection Hg as <-. reflexivity.
Qed.

Lemma frames_loop_due total dir (reads : list (option (Frame Point))) :
  forall idx st ys st',
    frames_loop fit_predict slot total idx reads st = Ok (ys, st') ->
    snapshots_due _ fit_predict dir idx (frames_read reads) =
    rows_due_from _ fit_predict dir idx (frames_read reads).
Proof.
  induction reads as [|[dets|] reads IH]; intros idx st ys st' Hrun;
    try reflexivity.
  cbn [frames_loop] in Hrun.
  destruct (process_single_frame fit_predict slot dets idx st)
    as [st1|e] eqn:E1; [|discriminate].
  cbn [bind] in Hrun.
  destruct (true_div idx total) as [q|e]; [|discriminate].
  cbn [bind] in Hrun.
  destruct (frames_loop fit_predict slot total (idx + 1) reads st1)
    as [[ys1 st2]|e] eqn:E2; [|discriminate].
  destruct (frame_Ok_inv _ _ _ _ _ _ _ E1) as [_ [grouped Hg]].
  cbn [frames_read snapshots_due rows_due_from]. rewrite Hg.
  rewrite (continuation_rows_due dir idx dets grouped Hg).
  f_equal. exact (IH _ _ _ _ E2).
Qed.

(** X2: the continuation rows of a run are determined by the labels the
    clusterer returns for its frames: for every frame whose index is a
    multiple of 30 and that has three detections or more, one row per
    label other than -1, for the detections that carry the label; the rows
    come in frame order and, within a frame, in the order in which the
    labels first appear among the labels of the frame.  No other
    continuation row is written. *)
Theorem continuation_rows_of_run (cap : VideoCapture Point) st ys st' :
  process_video_and_yield_frames fit_predict slot cap st = Ok (ys, st') ->
  filter is_continuation (log_file st') =
    filter is_continuation (log_file st)
    ++ rows_due_from _ fit_predict (saved_frames_dir st) 0 (frames_of cap).
Proof.
  intros H. destruct (driver_inv _ _ _ _ _ _ _ H) as (st1 & Hloop & ->).
  destruct (frames_loop_rows _ _ _ _ _ _ Hloop) as (_ & _ & Hc & _).
  destruct (log_final_spec (frame_count cap) st1) as (_ & _ & _ & Hl).
  rewrite Hl, filter_app, final_rows_none, app_nil_r, Hc, frames_of_reads.
  rewrite (frames_loop_due _ _ _ _ _ _ _ Hloop). reflexivity.
Qed.

(** X3: a snapshot image is saved exactly when a continuation row is
    written, under the path the row records: after a run from a fresh
    processor the files saved are the paths of the continuation rows of the
    log, in the same order. *)
Theorem snapshots_match_continuation_rows
        (cap : VideoCapture Point) dir ys st' :
  process_video_and_yield_frames fit_predict slot cap (init dir) = Ok (ys, st') ->
  saved_frames st' =
    map saved_frame_path (filter is_continuation (log_file st')).
Proof.
  intros H. destruct (driver_inv _ _ _ _ _ _ _ H) as (st1 & Hloop & ->).
  destruct (frames_loop_rows _ _ _ _ _ _ Hloop) as (_ & _ & Hc & Hsv).
  destruct (log_final_spec (frame_count cap) st1) as (_ & Hs & _ & Hl).
  rewrite Hs, Hl, filter_app, final_rows_none, app_nil_r, Hc, Hsv.
  reflexivity.
Qed.

End RunRows.

(** ** Invariants of the frame loop *)

Section LoopInvariants.
Variable Point : Type.
Variable fit_predict : list Point -> list Z.
Variable slot : set_order.

(** A property of the next frame index and the state that every frame
    preserves holds when the loop is over. *)
Lemma frames_loop_invariant (P : Z -> VideoProcessor -> Prop) total :
  (forall idx st (dets : Frame Point) st1,
      P idx st -> process_single_frame fit_predict slot dets idx st = Ok st1 ->
      P (idx + 1) st1) ->
  forall (reads : list (option (Frame Point))) idx st ys st',
    P idx st ->
    frames_loop fit_predict slot total idx reads st = Ok (ys, st') ->
    P (idx + Z.of_nat (List.length (frames_read reads))) st'.
Proof.
  intros Hstep. induction reads as [|[dets|] reads IH];
    intros idx st ys st' HP Hrun.
  - injection Hrun as <- <-. simpl. rewrite Z.add_0_r. exact HP.
  - cbn [frames_loop] in Hrun.
    destruct (process_single_frame fit_predict slot dets idx st) as [st1|e] eqn:E1;
      [|discriminate].
    cbn [bind] in Hrun.
    destruct (true_div idx total) as [q|e]; [|discriminate].
    cbn [bind] in Hrun.
    destruct (frames_loop fit_predict slot total (idx + 1) reads st1)
      as [[ys1 st2]|e] eqn:E2; [|discriminate].
    cbn [bind] in Hrun. injection Hrun as <- <-.
    cbn [frames_read List.length].
    replace (idx + Z.of_nat (S (List.length (frames_read reads))))
      with (idx + 1 + Z.of_nat (List.length (frames_read reads))) by lia.
    exact (IH _ _ _ _ (Hstep _ _ _ _ HP E1) E2).
  - injection Hrun as <- <-. simpl. rewrite Z.add_0_r. exact HP.
Qed.

(** *** Rows in frame order *)

Lemma StronglySorted_app (l1 l2 : list Z) :
  StronglySorted Z.le l1 -> StronglySorted Z.le l2 ->
  (forall a b, In a l1 -> In b l2 -> a <= b) ->
  StronglySorted Z.le (l1 ++ l2).
Proof.
  intros H1 H2 H. induction H1 as [|a l1 Hs IH Ha]; simpl; [exact H2|].
  constructor.
  - apply IH. intros x y Hx Hy. apply H; [right; exact Hx | exact Hy].
  - apply Forall_app. split; [exact Ha|].
    apply Forall_forall. intros y Hy. apply H; [left; reflexivity | exact Hy].
Qed.

Lemma StronglySorted_const (c : Z) (l : list Z) :
  (forall a, In a l -> a = c) -> StronglySorted Z.le l.
Proof.
  induction l as [|a l IH]; intros H; constructor.
  - apply IH. intros x Hx. apply H. right. exact Hx.
  - apply Forall_forall. intros y Hy.
    rewrite (H a) by (left; reflexivity).
    rewrite (H y) by (right; exact Hy). lia.
Qed.

Lemma frame_keeps_order (dets : Frame Point) idx st st1 :
  (frames_ascend (log_file st) /\ forall r, In r (log_file st) -> frame r < idx) ->
  process_single_frame fit_predict slot dets idx st = Ok st1 ->
  frames_ascend (log_file st1) /\
  forall r, In r (log_file st1) -> frame r < idx + 1.
Proof.
  intros [Hs Hb] H.
  destruct (frame_rows _ _ _ _ _ _ _ H) as (grouped & gs & _ & _ & Hl & _).
  assert (Hnew : forall r,
            In r (continuation_rows (saved_frames_dir st) idx grouped
                  ++ termination_rows (termination_entry idx) (active_groups st)
                       gs) ->
            frame r = idx).
  { intros r Hr. apply in_app_or in Hr. destruct Hr as [Hr|Hr].
    - apply continuation_rows_In in Hr.
      destruct Hr as (_ & g & ms & _ & ->). reflexivity.
    - apply termination_rows_In in Hr.
      destruct Hr as (g & grp & _ & _ & ->). reflexivity. }
  rewrite Hl. split.
  - unfold frames_ascend. rewrite map_app. apply StronglySorted_app.
    + exact Hs.
    + apply (StronglySorted_const idx). intros a Ha.
      apply in_map_iff in Ha. destruct Ha as (r & <- & Hr). apply Hnew, Hr.
    + intros a b Ha Hb'. apply in_map_iff in Ha. destruct Ha as (r & <- & Hr).
      apply in_map_iff in Hb'. destruct Hb' as (r' & <- & Hr').
      apply Hb in Hr. apply Hnew in Hr'. lia.
  - intros r Hr. apply in_app_or in Hr. destruct Hr as [Hr|Hr].
    + apply Hb in Hr. lia.
    + apply Hnew in Hr. lia.
Qed.

(** X4: the rows of a run are written in frame order.  When the frame
    count the source reports is not below the number of frames read minus
    one, the frames of the rows of the log never decrease from one row to
    the next, the end-of-stream rows included. *)
Theorem rows_in_frame_order (cap : VideoCapture Point) dir ys st' :
  process_video_and_yield_frames fit_predict slot cap (init dir) = Ok (ys, st') ->
  Z.of_nat (List.length (frames_of cap)) - 1 <= frame_count cap ->
  frames_ascend (log_file st').
Proof.
  intros H Hcount. destruct (driver_inv _ _ _ _ _ _ _ H) as (st1 & Hloop & ->).
  assert (Hinit : frames_ascend (log_file (init dir)) /\
                  forall r, In r (log_file (init dir)) -> frame r < 0).
  { split; [constructor | intros r []]. }
  destruct (frames_loop_invariant
              (fun idx st => frames_ascend (log_file st) /\
                             forall r, In r (log_file st) -> frame r < idx)
              (frame_count cap)
              (fun idx st dets st1 => frame_keeps_order dets idx st st1)
              _ _ _ _ _ Hinit Hloop) as [Hs Hb].
  rewrite <- frames_of_reads in Hb. simpl in Hb.
  destruct (log_final_spec (frame_count cap) st1) as (_ & _ & _ & Hl).
  rewrite Hl. unfold frames_ascend. rewrite map_app.
  apply StronglySorted_app.
  - exact Hs.
  - apply (StronglySorted_const (frame_count cap)). intros a Ha.
    apply in_map_iff in Ha. destruct Ha as (r & <- & Hr).
    apply in_map_iff in Hr. destruct Hr as (e & <- & _). reflexivity.
  - intros a b Ha Hb'. apply in_map_iff in Ha. destruct Ha as (r & <- & Hr).
    apply in_map_iff in Hb'. destruct Hb' as (r' & <- & Hr').
    apply in_map_iff in Hr'. destruct Hr' as (e & <- & _). simpl.
    apply Hb in Hr. lia.
Qed.

(** *** Member data of the closing rows *)

Lemma latest_snapshot_extend (log more : list Row) g s j c :
  latest_snapshot log g s j c -> j mod 30 <> 0 ->
  latest_snapshot (log ++ more) g s (j + 1) c.
Proof.
  intros (Hin & Hc & Hg & Hs & Hm & Hn) Hj. repeat split; try assumption.
  - apply in_or_app. left. exact Hin.
  - lia.
  - lia.
  - intros i Hi. destruct (Z.eq_dec i j) as [->|Hne]; [exact Hj|].
    apply Hn. lia.
Qed.

Lemma latest_snapshot_more (log more : list Row) g s j c :
  latest_snapshot log g s j c -> latest_snapshot (log ++ more) g s j c.
Proof.
  intros (Hin & H). split; [|exact H]. apply in_or_app. left. exact Hin.
Qed.

Lemma backfilled_more (log more : list Row) j r :
  backfilled log j r -> backfilled (log ++ more) j r.
Proof.
  intros [H|(c & Hc & H)]; [left; exact H|].
  right. exists c. split; [apply latest_snapshot_more, Hc | exact H].
Qed.

Lemma no_snapshot_extend s j :
  no_snapshot_between s j -> j mod 30 <> 0 -> no_snapshot_between s (j + 1).
Proof.
  intros Hn Hj i Hi. destruct (Z.eq_dec i j) as [->|Hne]; [exact Hj|].
  apply Hn. lia.
Qed.

(** The member data a termination or end-of-stream row takes from a
    group record. *)
Lemma backfilled_from_record (log : list Row) g grp j (r : Row) :
  group_id r = g ->
  frame r - dwell_time_frames r = start_frame grp ->
  member_count r = last_member_count grp ->
  member_ids r = last_member_ids grp ->
  match last_log grp with
  | None => no_snapshot_between (start_frame grp) j
  | Some c => latest_snapshot log g (start_frame grp) j c
  end ->
  backfilled log j r.
Proof.
  unfold backfilled, last_member_count, last_member_ids.
  intros Hg Hs Hc Hi H. rewrite Hs, Hg.
  destruct (last_log grp) as [c|].
  - right. exists c. auto.
  - left. auto.
Qed.

Lemma frame_keeps_backfill dir (dets : Frame Point) idx st st2 :
  ((exists cs, run_inv dir idx cs st) /\
   backfill_inv idx st /\
   (forall r, In r (log_file st) -> is_closing r = true ->
              backfilled (log_file st) (frame r) r)) ->
  process_single_frame fit_predict slot dets idx st = Ok st2 ->
  (exists cs, run_inv dir (idx + 1) cs st2) /\
  backfill_inv (idx + 1) st2 /\
  (forall r, In r (log_file st2) -> is_closing r = true ->
             backfilled (log_file st2) (frame r) r).
Proof.
  intros ([cs Hinv] & Hbf & Hrows) H.
  pose proof (frame_inv _ _ _ _ _ _ _ _ _ Hinv H) as Hinv2.
  split; [eexists; exact Hinv2|].
  destruct Hinv as (H0 & Hdir & NDk & _ & Hb & Hperm & _ & _).
  destruct Hinv2 as (_ & _ & NDk2 & _).
  destruct (frame_effect _ _ _ _ _ _ _ H)
    as (grouped & gs & Hg & Hgs & _ & Hl & Hk & _ & _).
  destruct (frame_Ok_inv _ _ _ _ _ _ _ H) as [Htr _].
  destruct (frame_full _ fit_predict slot dets idx st grouped Htr Hg)
    as (st2' & H' & _ & Hget).
  rewrite H in H'. injection H' as <-.
  assert (Hstart : forall g grp, In (g, grp) (active_groups st) ->
                                 0 <= start_frame grp < idx).
  { intros g grp Hin. apply (in_map entry_key) in Hin.
    apply (Hb (entry_key (g, grp))).
    apply (Permutation_in _ (Permutation_sym Hperm)), in_or_app. right.
    exact Hin. }
  split.
  - intros g grp2 Hin2.
    assert (Hcur : In g (Dict.keys grouped)).
    { apply (in_map fst) in Hin2. simpl in Hin2.
      change (map fst (active_groups st2))
        with (Dict.keys (active_groups st2)) in Hin2.
      rewrite Hk in Hin2. apply in_app_or in Hin2.
      destruct Hin2 as [Hin2|Hin2].
      - apply filter_In in Hin2. apply in_set_In. tauto.
      - apply fresh_keys_In in Hin2. tauto. }
    apply in_map_iff in Hcur. destruct Hcur as ([g' ms] & Hg' & Hms).
    simpl in Hg'. subst g'.
    pose proof (Hget g ms Hms) as Hrec.
    rewrite (get_NoDup _ _ _ NDk2 Hin2) in Hrec. injection Hrec as ->.
    unfold touched.
    destruct (Z.eqb_spec (idx mod 30) 0) as [Hsnap|Hsnap].
    + cbn [last_log set_last_log start_frame].
      assert (Hbase : 0 <= start_frame
                             match Dict.get g (active_groups st) with
                             | Some g0 => g0
                             | None => new_group idx
                             end <= idx).
      { destruct (Dict.get g (active_groups st)) as [old|] eqn:E.
        - apply get_In in E. apply Hstart in E. lia.
        - simpl. lia. }
      split; [|split; [|split; [|split; [|split]]]].
      * rewrite Hl. apply in_or_app. right. apply in_or_app. left.
        unfold continuation_rows.
        destruct (Z.eqb_spec (idx mod 30) 0); [|contradiction].
        apply (in_map (fun c => continuation_entry (saved_frames_dir st) idx
                                                   (fst c) (snd c)) _ _ Hms).
      * apply (snapshot_path_not_closing _ (saved_frames_dir st) idx g).
        reflexivity.
      * reflexivity.
      * simpl. lia.
      * exact Hsnap.
      * intros i Hi. simpl in Hi. lia.
    + destruct (Dict.get g (active_groups st)) as [old|] eqn:E.
      * apply get_In in E. pose proof (Hbf g old E) as Hold.
        destruct (last_log old) as [c|].
        -- rewrite Hl. apply latest_snapshot_extend; assumption.
        -- apply no_snapshot_extend; assumption.
      * simpl. intros i Hi. replace i with idx by lia. exact Hsnap.
  - intros r Hr Hc. rewrite Hl in Hr |- *.
    apply in_app_or in Hr. destruct Hr as [Hr|Hr].
    + apply backfilled_more, Hrows; assumption.
    + apply in_app_or in Hr. destruct Hr as [Hr|Hr].
      * apply continuation_rows_shape, continuation_shape_not_closing in Hr.
        congruence.
      * apply termination_rows_In in Hr.
        destruct Hr as (g & grp & _ & Hgetg & ->).
        apply get_In in Hgetg.
        apply backfilled_more.
        apply (backfilled_from_record _ g grp); try reflexivity.
        -- simpl. lia.
        -- exact (Hbf g grp Hgetg).
Qed.

(** X5: a termination or end-of-stream row repeats the member count and
    member identities of the last continuation row written for its group,
    which is the one of the last frame with an index multiple of 30 in the
    group's life; when the group's life, from its creation to the frame
    before the row (for an end-of-stream row: to the last frame read), holds
    no such frame, it carries count 0 and no identities. *)
Theorem closing_rows_repeat_last_snapshot
        (cap : VideoCapture Point) dir ys st' r :
  process_video_and_yield_frames fit_predict slot cap (init dir) = Ok (ys, st') ->
  In r (log_file st') -> is_closing r = true ->
  (saved_frame_path r = disappeared ->
     backfilled (log_file st') (frame r) r) /\
  (saved_frame_path r = video_end ->
     backfilled (log_file st') (Z.of_nat (List.length (frames_of cap))) r).
Proof.
  intros H Hr Hc. destruct (driver_inv _ _ _ _ _ _ _ H) as (st1 & Hloop & ->).
  assert (Hinit : (exists cs, run_inv dir 0 cs (init dir)) /\
                  backfill_inv 0 (init dir) /\
                  (forall r, In r (log_file (init dir)) -> is_closing r = true ->
                             backfilled (log_file (init dir)) (frame r) r)).
  { split; [exists []; apply run_inv_init|].
    split; [intros g grp [] | intros ? []]. }
  destruct (frames_loop_invariant
              (fun idx st =>
                 (exists cs, run_inv dir idx cs st) /\
                 backfill_inv idx st /\
                 (forall r, In r (log_file st) -> is_closing r = true ->
                            backfilled (log_file st) (frame r) r))
              (frame_count cap)
              (fun idx st dets st1 => frame_keeps_backfill dir dets idx st st1)
              _ _ _ _ _ Hinit Hloop) as ([cs Hinv] & Hbf & Hrows).
  rewrite <- frames_of_reads in Hinv, Hbf. simpl in Hinv, Hbf.
  destruct Hinv as (_ & _ & _ & _ & _ & _ & Hcl & _).
  destruct (log_final_spec (frame_count cap) st1) as (_ & _ & _ & Hl).
  rewrite Hl in Hr |- *. apply in_app_or in Hr. destruct Hr as [Hr|Hr].
  - destruct (Hcl r Hr Hc) as (Hp & _). split.
    + intros _. apply backfilled_more, Hrows; assumption.
    + intros Hv. rewrite Hp in Hv. discriminate.
  - apply in_map_iff in Hr. destruct Hr as ([g grp] & <- & He).
    split; [discriminate|]. intros _.
    apply backfilled_more.
    apply (backfilled_from_record _ g grp); try reflexivity.
    + simpl. lia.
    + exact (Hbf g grp He).
Qed.

End LoopInvariants.

(** ** Group records, clusters and errors of one frame *)

Section FrameExtras.
Variable Point : Type.
Variable fit_predict : list Point -> list Z.
Variable slot : set_order.

(** X6: what ['last_log'] holds after a frame, for the group of each
    cluster of the frame: on a frame whose index is a multiple of 30 it is
    the continuation row just written for that cluster; on any other frame
    it is what it was before the frame, and absent for a group the frame
    created. *)
Theorem last_log_after_frame (dets : Frame Point) idx st st' grouped g ms :
  grouped_detections fit_predict dets = Ok grouped ->
  process_single_frame fit_predict slot dets idx st = Ok st' ->
  In (g, ms) grouped ->
  exists grp,
    Dict.get g (active_groups st') = Some grp /\
    last_log grp =
      if idx mod 30 =? 0
      then Some (continuation_entry (saved_frames_dir st) idx g ms)
      else match Dict.get g (active_groups st) with
           | Some old => last_log old
           | None => None
           end.
Proof.
  intros Hg H Hin.
  destruct (frame_Ok_inv _ _ _ _ _ _ _ H) as [Htr _].
  destruct (frame_full _ fit_predict slot dets idx st grouped Htr Hg)
    as (st2 & H2 & _ & Hget).
  rewrite H in H2. injection H2 as <-.
  eexists. split; [exact (Hget g ms Hin)|].
  unfold touched. destruct (idx mod 30 =? 0); [reflexivity|].
  destruct (Dict.get g (active_groups st)); reflexivity.
Qed.




(** *** The clusters of a frame *)

Lemma members_total_append label d (grouped : Dict.t (list (Detection Point))) :
  members_total _ (append_member label d grouped)
  = S (members_total _ grouped).
Proof.
  unfold members_total.
  induction grouped as [|[k ms] g IH]; simpl; [reflexivity|].
  destruct (k =? label); simpl.
  - rewrite <- app_assoc, !length_app. simpl. lia.
  - rewrite !length_app in *. rewrite IH. lia.
Qed.

Lemma append_member_In label d (grouped : Dict.t (list (Detection Point))) g ms :
  In (g, ms) (append_member label d grouped) ->
  (g = label /\ ms = [d]) \/
  (exists ms0, In (g, ms0) grouped /\ (ms = ms0 \/ ms = ms0 ++ [d])).
Proof.
  induction grouped as [|[k ms0] gr IH]; simpl.
  - intros [[= <- <-]|[]]. left. auto.
  - destruct (Z.eqb_spec k label) as [->|Hne]; simpl.
    + intros [[= <- <-]|Hin].
      * right. exists ms0. auto.
      * right. exists ms. auto.
    + intros [[= <- <-]|Hin].
      * right. exists ms0. auto.
      * destruct (IH Hin) as [H|(ms1 & H1 & H2)]; [left; exact H|].
        right. exists ms1. auto.
Qed.

Lemma group_by_label_clusters labels :
  forall i (dets : Frame Point) grouped g',
    group_by_label i labels dets grouped = Ok g' ->
    members_total _ g' =
      (members_total _ grouped
       + List.length (cluster_labels_of labels))%nat /\
    ((forall g ms, In (g, ms) grouped ->
                   ms <> [] /\ forall d, In d ms -> In d dets) ->
     forall g ms, In (g, ms) g' ->
                  ms <> [] /\ forall d, In d ms -> In d dets).
Proof.
  induction labels as [|l labels IH]; intros i dets grouped g'.
  - simpl. intros [= <-]. split; [lia | auto].
  - cbn [group_by_label cluster_labels_of filter].
    fold (cluster_labels_of labels).
    destruct (Z.eqb_spec l (-1)) as [->|Hl].
    + simpl. apply IH.
    + destruct (nth_error dets i) as [d|] eqn:E; [|discriminate].
      intros H. destruct (IH _ _ _ _ H) as [Ht Hm]. split.
      * rewrite Ht, members_total_append. simpl. lia.
      * intros Hold. apply Hm. intros g ms Hin.
        apply nth_error_In in E.
        apply append_member_In in Hin.
        destruct Hin as [[_ ->]|(ms0 & Hin0 & [->| ->])].
        -- split; [discriminate|]. intros d' [<-|[]]. exact E.
        -- exact (Hold g ms0 Hin0).
        -- destruct (Hold g ms0 Hin0) as [_ Hd]. split.
           ++ destruct ms0; discriminate.
           ++ intros d' Hd'. apply in_app_or in Hd'.
              destruct Hd' as [Hd'|[<-|[]]]; [apply Hd, Hd' | exact E].
Qed.

Lemma grouped_detections_keys (dets : Frame Point) grouped k :
  grouped_detections fit_predict dets = Ok grouped ->
  In k (Dict.keys grouped) ->
  k <> -1 /\ In k (fit_predict (points dets)).
Proof.
  unfold grouped_detections. destruct (3 <=? List.length dets)%nat.
  - intros H Hk.
    destruct (proj2 (group_by_label_keys _ _ _ _ _ _ H) k Hk) as [[]|[? ?]].
    auto.
  - intros [= <-] [].
Qed.

(** X8: the clusters of a frame split the clustered detections: every
    cluster has at least one member, every member is a detection of the
    frame, the label -1 is the key of no cluster, and the clusters together
    hold as many members as the clusterer returned labels other than -1. *)
Theorem clusters_split_the_detections (dets : Frame Point) grouped :
  grouped_detections fit_predict dets = Ok grouped ->
  (forall g ms, In (g, ms) grouped ->
     g <> -1 /\ ms <> [] /\ forall d, In d ms -> In d dets) /\
  ((3 <= List.length dets)%nat ->
   members_total _ grouped =
     List.length (cluster_labels_of (fit_predict (points dets)))).
Proof.
  intros Hg. split.
  - intros g ms Hin. split.
    + apply (grouped_detections_keys dets grouped g Hg).
      apply (in_map fst) in Hin. exact Hin.
    + revert g ms Hin. unfold grouped_detections in Hg.
      destruct (3 <=? List.length dets)%nat.
      * apply (proj2 (group_by_label_clusters _ _ _ _ _ Hg)).
        intros g ms [].
      * injection Hg as <-. intros g ms [].
  - intros H3. unfold grouped_detections in Hg.
    destruct (Nat.leb_spec 3 (List.length dets)); [|lia].
    apply (proj1 (group_by_label_clusters _ _ _ _ _ Hg)).
Qed.

End FrameExtras.

(** ** Errors and early ends of the driver *)

Section DriverExtras.
Variable Point : Type.
Variable fit_predict : list Point -> list Z.
Variable slot : set_order.



(** X10: a source that reports a frame count of 0 and delivers a frame
    with an identity array whose detections are grouped without error
    makes the driver raise [ZeroDivisionError] at its first [yield]: the
    run ends with that exception, and already the first call of [next] on
    the generator raises it, so the consumer receives no value. *)
Theorem zero_frame_count_raises (cap : VideoCapture Point) st
        (dets : Frame Point) rest grouped :
  frame_count cap = 0 ->
  frames_of cap = dets :: rest ->
  tracked dets = true ->
  grouped_detections fit_predict dets = Ok grouped ->
  process_video_and_yield_frames fit_predict slot cap st
    = Raise ZeroDivisionError /\
  forall n, (0 < n)%nat ->
    iterate fit_predict slot n (frame_count cap) (start cap) st
    = Raise ZeroDivisionError.
Proof.
  intros Ht Hf Htr Hg. rewrite frames_of_reads in Hf.
  destruct (frame_spec _ fit_predict slot dets 0 st grouped Htr Hg)
    as (st1 & gs & H1 & _).
  unfold process_video_and_yield_frames, start.
  destruct (isOpened cap); [|discriminate].
  destruct (stream cap) as [|[d|] reads]; try discriminate.
  cbn [frames_read] in Hf. injection Hf as -> _.
  cbn [frames_loop]. rewrite H1, Ht. split; [reflexivity|].
  intros [|n] Hn; [lia|]. cbn [iterate gen_next]. rewrite H1. reflexivity.
Qed.

(** *** A consumer that stops early *)

Lemma NoDup_app_apart (A : Type) (l1 l2 : list A) :
  NoDup (l1 ++ l2) -> forall a, In a l1 -> ~ In a l2.
Proof.
  induction l1 as [|x l1 IH]; simpl; intros ND a Ha Ha2; [contradiction|].
  inversion ND as [|? ? Hx ND']; subst. destruct Ha as [->|Ha].
  - apply Hx, in_or_app. right. exact Ha2.
  - exact (IH ND' a Ha Ha2).
Qed.

Lemma iterate_prefix total (n : nat) :
  forall (reads : list (option (Frame Point))) idx st ys g st',
    iterate fit_predict slot n total (Suspended idx reads) st = Ok (ys, g, st') ->
    (n <= List.length (frames_read reads))%nat ->
    g = Suspended (idx + Z.of_nat n) (skipn n reads) /\
    List.length ys = n /\
    frames_loop fit_predict slot total idx (firstn n reads) st = Ok (ys, st') /\
    List.length (frames_read (firstn n reads)) = n.
Proof.
  induction n as [|n IH]; intros reads idx st ys g st' H Hn.
  - injection H as <- <- <-. simpl. rewrite Z.add_0_r. auto.
  - destruct reads as [|[dets|] reads]; simpl in Hn; try lia.
    cbn [iterate gen_next] in H. cbn [firstn skipn frames_loop frames_read].
    destruct (process_single_frame fit_predict slot dets idx st) as [st1|e];
      [|discriminate].
    cbn [bind] in *. destruct (true_div idx total) as [q|e]; [|discriminate].
    cbn [bind] in *.
    destruct (iterate fit_predict slot n total (Suspended (idx + 1) reads) st1)
      as [[[ys1 g1] st2]|e] eqn:E; [|discriminate].
    cbn [bind] in H. injection H as <- <- <-.
    destruct (IH _ _ _ _ _ _ E) as (-> & Hlen & Hloop & Hfr); [lia|].
    rewrite Hloop. cbn [bind]. simpl. repeat split; try congruence.
    f_equal. lia.
Qed.

(** X11: a consumer that asks for no more values than there are frames
    leaves the generator suspended, never exhausted: it got one value per
    call, the finalization has not run, and the log of the processor holds
    no end-of-stream row, although groups may still be in the table. *)
Theorem early_stop_is_not_finalized (cap : VideoCapture Point) dir n ys g st' :
  iterate fit_predict slot n (frame_count cap) (start cap) (init dir)
    = Ok (ys, g, st') ->
  (n <= List.length (frames_of cap))%nat ->
  g <> Exhausted /\
  List.length ys = n /\
  (forall r, In r (log_file st') -> saved_frame_path r <> video_end) /\
  (forall e, In e (active_groups st') ->
     forall r, In r (log_file st') -> is_closing r = true ->
               closing_key r <> entry_key e).
Proof.
  intros H Hn. rewrite frames_of_reads in Hn. unfold start in H.
  destruct (iterate_prefix _ _ _ _ _ _ _ _ H Hn) as (-> & Hlen & Hloop & _).
  destruct (frames_loop_inv _ _ _ _ dir _ _ _ _ _ _ (run_inv_init dir) Hloop)
    as [_ Hinv].
  destruct Hinv as (_ & _ & NDk & NDc & _ & Hperm & Hcl & _).
  split; [discriminate|]. split; [exact Hlen|]. split.
  - intros r Hr Hv. destruct (is_closing r) eqn:Hc.
    + destruct (Hcl r Hr Hc) as [Hp _]. rewrite Hp in Hv. discriminate.
    + unfold is_closing in Hc. apply orb_false_iff in Hc.
      destruct Hc as [_ Hc]. apply String.eqb_neq in Hc. contradiction.
  - intros e He r Hr Hc Heq.
    apply (Permutation_NoDup Hperm) in NDc.
    apply (NoDup_app_apart _ _ _ NDc (closing_key r)).
    + apply in_map, filter_In. auto.
    + rewrite Heq. apply in_map, He.
Qed.

End DriverExtras.

(** ** Keys and member identities *)

Section KeysAndIds.
Variable Point : Type.
Variable fit_predict : list Point -> list Z.
Variable slot : set_order.

Lemma frame_keeps_noise_out (dets : Frame Point) idx st st1 :
  ((forall g, In g (Dict.keys (active_groups st)) -> g <> -1) /\
   (forall r, In r (log_file st) -> group_id r <> -1)) ->
  process_single_frame fit_predict slot dets idx st = Ok st1 ->
  (forall g, In g (Dict.keys (active_groups st1)) -> g <> -1) /\
  (forall r, In r (log_file st1) -> group_id r <> -1).
Proof.
  intros [Hk Hr] H.
  destruct (frame_effect _ _ _ _ _ _ _ H)
    as (grouped & gs & Hg & Hgs & _ & Hl & Hk1 & _ & _).
  split.
  - intros g Hin. rewrite Hk1 in Hin. apply in_app_or in Hin.
    apply (grouped_detections_keys _ fit_predict dets grouped g Hg).
    destruct Hin as [Hin|Hin].
    + apply filter_In in Hin. apply in_set_In. tauto.
    + apply fresh_keys_In in Hin. tauto.
  - intros r Hin. rewrite Hl in Hin. apply in_app_or in Hin.
    destruct Hin as [Hin|Hin]; [exact (Hr r Hin)|].
    apply in_app_or in Hin. destruct Hin as [Hin|Hin].
    + apply continuation_rows_In in Hin.
      destruct Hin as (_ & g & ms & Hin & ->). simpl.
      apply (grouped_detections_keys _ fit_predict dets grouped g Hg).
      apply (in_map fst) in Hin. exact Hin.
    + apply termination_rows_In in Hin.
      destruct Hin as (g & grp & _ & Hget & ->). simpl.
      apply Hk. exact (get_Some_keys _ _ _ Hget).
Qed.

(** X12: noise never becomes a group: in a run from a fresh processor no
    row of the log has group id -1 and -1 is never a key of the table. *)
Theorem noise_is_never_a_group (cap : VideoCapture Point) dir ys st' :
  process_video_and_yield_frames fit_predict slot cap (init dir) = Ok (ys, st') ->
  (forall r, In r (log_file st') -> group_id r <> -1) /\
  (forall g, In g (Dict.keys (active_groups st')) -> g <> -1).
Proof.
  intros H. destruct (driver_inv _ _ _ _ _ _ _ H) as (st1 & Hloop & ->).
  assert (Hinit : (forall g, In g (Dict.keys (active_groups (init dir))) ->
                             g <> -1) /\
                  (forall r, In r (log_file (init dir)) -> group_id r <> -1)).
  { split; intros ? []. }
  destruct (frames_loop_invariant _ fit_predict slot
              (fun _ st =>
                 (forall g, In g (Dict.keys (active_groups st)) -> g <> -1) /\
                 (forall r, In r (log_file st) -> group_id r <> -1))
              (frame_count cap)
              (fun idx st dets st1 => frame_keeps_noise_out dets idx st st1)
              _ _ _ _ _ Hinit Hloop) as [Hk Hr].
  destruct (log_final_spec (frame_count cap) st1) as (_ & _ & Ha & Hl).
  rewrite Hl, Ha. split; [|exact Hk].
  intros r Hin. apply in_app_or in Hin. destruct Hin as [Hin|Hin].
  - exact (Hr r Hin).
  - apply in_map_iff in Hin. destruct Hin as ([g grp] & <- & He). simpl.
    apply Hk. apply (in_map fst) in He. exact He.
Qed.

Lemma insert_sorted_perm (x : Z) (l : list Z) :
  Permutation (insert_sorted x l) (x :: l).
Proof.
  induction l as [|y l IH]; simpl; [reflexivity|].
  destruct (x <=? y); [reflexivity|].
  rewrite IH. apply perm_swap.
Qed.

Lemma sorted_perm (l : list Z) : Permutation (sorted l) l.
Proof.
  induction l as [|x l IH]; simpl; [constructor|].
  rewrite insert_sorted_perm. constructor. exact IH.
Qed.

Lemma insert_sorted_ascending (x : Z) (l : list Z) :
  StronglySorted Z.le l -> StronglySorted Z.le (insert_sorted x l).
Proof.
  induction 1 as [|y l Hs IH Hy]; simpl.
  - constructor; constructor.
  - destruct (Z.leb_spec x y) as [Hxy|Hxy].
    + constructor; [constructor; assumption|].
      constructor; [exact Hxy|].
      apply Forall_forall. intros z Hz.
      rewrite Forall_forall in Hy. specialize (Hy z Hz). lia.
    + constructor; [exact IH|].
      apply Forall_forall. intros z Hz.
      apply (Permutation_in _ (insert_sorted_perm x l)) in Hz.
      destruct Hz as [<-|Hz]; [lia|].
      rewrite Forall_forall in Hy. exact (Hy z Hz).
Qed.

Lemma sorted_ascending (l : list Z) : StronglySorted Z.le (sorted l).
Proof.
  induction l as [|x l IH]; simpl; [constructor|].
  apply insert_sorted_ascending, IH.
Qed.

(** X13: the identities a continuation row lists are those of the
    members of its cluster that carry one (other than 0), each as often as
    it occurs among the members, in ascending order. *)
Theorem member_ids_ascend (dets : Frame Point) idx st st' grouped r :
  grouped_detections fit_predict dets = Ok grouped ->
  process_single_frame fit_predict slot dets idx st = Ok st' ->
  In r (rows_written st st') -> is_closing r = false ->
  exists ms ids,
    Dict.get (group_id r) grouped = Some ms /\
    member_ids r = join "-" (map str ids) /\
    StronglySorted Z.le ids /\
    Permutation ids (member_ids_of ms).
Proof.
  intros Hg H Hr Hc.
  destruct (continuation_row_members _ fit_predict slot dets idx st st' grouped r
              Hg H Hr Hc) as (ms & ids & _ & Hget & _ & -> & Hids & _).
  exists ms, (sorted (member_ids_of ms)).
  split; [exact Hget|]. split; [exact Hids|].
  split; [apply sorted_ascending | apply sorted_perm].
Qed.

End KeysAndIds.

(** * The snapshot browser *)

(** ** Decimal numerals *)

Lemma string_of_uint_numeral (d : Decimal.uint) :
  all_chars numeral_char (NilEmpty.string_of_uint d) = true.
Proof. induction d; simpl; auto. Qed.

Lemma string_of_uint_shape (d : Decimal.uint) :
  exists c t, NilZero.string_of_uint d = String c t /\
              all_chars numeral_char (String c t) = true.
Proof.
  destruct d; simpl;
    try (eexists _, _; split; [reflexivity|];
         simpl; apply string_of_uint_numeral).
  exists "0"%char, EmptyString. auto.
Qed.

(** [str z] is a non-empty string of digits with an optional minus sign. *)
Lemma str_shape (z : Z) :
  exists c t, str z = String c t /\ numeral_char c = true /\
              all_chars numeral_char (str z) = true.
Proof.
  unfold str, NilZero.string_of_int. destruct (Z.to_int z) as [d|d].
  - destruct (string_of_uint_shape d) as (c & t & -> & H).
    exists c, t. split; [reflexivity|]. split; [|exact H].
    simpl in H. apply andb_true_iff in H. tauto.
  - destruct (string_of_uint_shape d) as (c & t & -> & H).
    exists "-"%char, (String c t). split; [reflexivity|].
    split; [reflexivity|]. simpl in *. exact H.
Qed.

Lemma str_numeral (z : Z) : all_chars numeral_char (str z) = true.
Proof. destruct (str_shape z) as (_ & _ & _ & _ & H). exact H. Qed.

(** [int(str(z)) == z] for the model of [int] on numerals. *)
Lemma int_of_numeral_str (z : Z) : App.int_of_numeral (str z) = App.Done z.
Proof.
  unfold App.int_of_numeral, str. rewrite NilZero.isi.
  - rewrite DecimalZ.of_to. reflexivity.
  - destruct z; simpl; try discriminate.
    intros [= H]. exact (Unsigned.to_uint_nonnil _ H).
  - destruct z; simpl; try discriminate.
    intros [= H]. exact (Unsigned.to_uint_nonnil _ H).
Qed.

Lemma str_inj (z z' : Z) : str z = str z' -> z = z'.
Proof.
  intros H. pose proof (int_of_numeral_str z) as Hz.
  rewrite H, int_of_numeral_str in Hz. congruence.
Qed.

Lemma all_chars_app (p : ascii -> bool) (a b : string) :
  all_chars p (a ++ b) = (all_chars p a && all_chars p b)%bool.
Proof.
  induction a as [|c a IH]; simpl; [reflexivity|].
  rewrite IH, andb_assoc. reflexivity.
Qed.

Lemma all_chars_weaken (p q : ascii -> bool) (s : string) :
  (forall c, p c = true -> q c = true) ->
  all_chars p s = true -> all_chars q s = true.
Proof.
  intros Hpq. induction s as [|c s IH]; simpl; [reflexivity|].
  intros H. apply andb_true_iff in H. destruct H as [Hc Hs].
  rewrite (Hpq c Hc), (IH Hs). reflexivity.
Qed.

Lemma numeral_is_not (x : ascii) (c : ascii) :
  numeral_char x = false -> numeral_char c = true -> negb (Ascii.eqb c x) = true.
Proof.
  intros Hx Hc. destruct (Ascii.eqb_spec c x) as [->|]; [congruence|reflexivity].
Qed.

(** ** Splitting a name *)

Lemma append_assoc (a b c : string) : ((a ++ b) ++ c = a ++ (b ++ c))%string.
Proof. induction a as [|x a IH]; simpl; [reflexivity | rewrite IH; reflexivity]. Qed.

Lemma append_nil_r (a : string) : (a ++ "")%string = a.
Proof. induction a as [|x a IH]; simpl; [reflexivity | rewrite IH; reflexivity]. Qed.

Lemma prefix_app (s t : string) : String.prefix s (s ++ t) = true.
Proof.
  induction s as [|c s IH]; simpl; [destruct t; reflexivity|].
  destruct (ascii_dec c c); [exact IH | contradiction].
Qed.

Lemma prefix_first (c0 c : ascii) (sep' rest : string) :
  negb (Ascii.eqb c c0) = true ->
  String.prefix (String c0 sep') (String c rest) = false.
Proof.
  intros H. simpl. destruct (ascii_dec c0 c) as [->|]; [|reflexivity].
  rewrite Ascii.eqb_refl in H. discriminate.
Qed.

Lemma prefix_same (a : ascii) (s1 s2 : string) :
  String.prefix (String a s1) (String a s2) = String.prefix s1 s2.
Proof.
  simpl. destruct (ascii_dec a a); [reflexivity | contradiction].
Qed.

(** Characters other than the first of the separator are read into the
    current piece. *)
Lemma split_go_chars (c0 : ascii) (sep' a rest cur : string) :
  all_chars (fun c => negb (Ascii.eqb c c0)) a = true ->
  App.split_go (String c0 sep') (a ++ rest) 0 cur =
  App.split_go (String c0 sep') rest 0 (cur ++ a).
Proof.
  revert cur. induction a as [|c a IH]; intros cur H.
  - simpl. rewrite append_nil_r. reflexivity.
  - simpl in H. apply andb_true_iff in H. destruct H as [Hc Ha].
    change ((String c a ++ rest)%string) with (String c (a ++ rest)).
    cbn [App.split_go]. rewrite (prefix_first c0 c sep' _ Hc).
    rewrite (IH _ Ha), append_assoc. reflexivity.
Qed.

Lemma split_go_skip (sep a rest cur : string) :
  App.split_go sep (a ++ rest) (String.length a) cur =
  App.split_go sep rest 0 cur.
Proof.
  induction a as [|c a IH]; simpl; [destruct rest; reflexivity|exact IH].
Qed.

(** A separator ends the current piece. *)
Lemma split_go_hit (c0 : ascii) (sep' rest cur : string) :
  App.split_go (String c0 sep') (String c0 sep' ++ rest) 0 cur =
  cur :: App.split_go (String c0 sep') rest 0 "".
Proof.
  change ((String c0 sep' ++ rest)%string) with (String c0 (sep' ++ rest)).
  cbn [App.split_go].
  change (String c0 (sep' ++ rest)) with ((String c0 sep' ++ rest)%string).
  rewrite prefix_app. f_equal.
  replace (String.length (String c0 sep') - 1)%nat with (String.length sep')
    by (simpl; lia).
  apply split_go_skip.
Qed.

Lemma split_go_segment (c0 : ascii) (sep' a rest cur : string) :
  all_chars (fun c => negb (Ascii.eqb c c0)) a = true ->
  App.split_go (String c0 sep') (a ++ String c0 sep' ++ rest) 0 cur =
  (cur ++ a)%string :: App.split_go (String c0 sep') rest 0 "".
Proof.
  intros H. rewrite (split_go_chars _ _ _ _ _ H). apply split_go_hit.
Qed.

Lemma split_go_last (c0 : ascii) (sep' a cur : string) :
  all_chars (fun c => negb (Ascii.eqb c c0)) a = true ->
  App.split_go (String c0 sep') a 0 cur = [(cur ++ a)%string].
Proof.
  intros H. rewrite <- (append_nil_r a) at 1.
  rewrite (split_go_chars _ _ _ _ _ H). reflexivity.
Qed.

Lemma str_without (x : ascii) (z : Z) :
  numeral_char x = false ->
  all_chars (fun c => negb (Ascii.eqb c x)) (str z) = true.
Proof.
  intros Hx. apply (all_chars_weaken numeral_char); [|apply str_numeral].
  intros c. apply numeral_is_not, Hx.
Qed.

(** The parts of a snapshot name between underscores. *)
Lemma split_underscore (i g : Z) :
  App.split "_" (frame_filename i g) =
  App.Done ["frame"%string; str i; "group"%string; (str g ++ ".jpg")%string].
Proof.
  unfold App.split, frame_filename. f_equal.
  change ("frame_" ++ str i ++ "_group_" ++ str g ++ ".jpg")%string
    with ("frame" ++ "_" ++ str i ++ "_" ++ "group" ++ "_"
          ++ (str g ++ ".jpg"))%string.
  rewrite split_go_segment by reflexivity.
  rewrite split_go_segment by (apply str_without; reflexivity).
  rewrite split_go_segment by reflexivity.
  rewrite split_go_last.
  - reflexivity.
  - rewrite all_chars_app, str_without by reflexivity. reflexivity.
Qed.

(** The two sides of ["_group_"] in a snapshot name. *)
Lemma split_group (i g : Z) :
  App.split "_group_" (frame_filename i g) =
  App.Done [("frame_" ++ str i)%string; (str g ++ ".jpg")%string].
Proof.
  unfold App.split, frame_filename. f_equal.
  destruct (str_shape i) as (c & t & Hi & Hc & _).
  change ("frame_" ++ str i ++ "_group_" ++ str g ++ ".jpg")%string
    with ("frame" ++ String "_" (str i ++ "_group_" ++ str g ++ ".jpg"))%string.
  rewrite split_go_chars by reflexivity.
  assert (Hmiss : String.prefix "_group_"
            (String "_" (str i ++ "_group_" ++ str g ++ ".jpg")) = false).
  { rewrite Hi.
    change ((String c t ++ "_group_" ++ str g ++ ".jpg")%string)
      with (String c (t ++ "_group_" ++ str g ++ ".jpg")).
    rewrite prefix_same. apply prefix_first.
    apply (numeral_is_not "g" c); [reflexivity | exact Hc]. }
  cbn [App.split_go]. rewrite Hmiss.
  rewrite split_go_segment by (apply str_without; reflexivity).
  rewrite split_go_last.
  - reflexivity.
  - rewrite all_chars_app, str_without by reflexivity. reflexivity.
Qed.

Lemma split_dot (g : Z) :
  App.split "." (str g ++ ".jpg") = App.Done [str g; "jpg"%string].
Proof.
  unfold App.split. f_equal.
  change (str g ++ ".jpg")%string with (str g ++ "." ++ "jpg")%string.
  rewrite split_go_segment by (apply str_without; reflexivity).
  reflexivity.
Qed.

(** ** What the browser recovers from a snapshot name *)

(** X14: the caption of a snapshot shows the index of its frame: for a
    file named by the processor for frame [i] and any group, line 107
    computes ["Frame: "] followed by the decimal numeral of [i], and does
    not fail. *)
Theorem caption_shows_frame_index (i g : Z) :
  App.caption (frame_filename i g) = App.Done ("Frame: " ++ str i)%string.
Proof.
  unfold App.caption. rewrite split_underscore. reflexivity.
Qed.

Lemma second_part_of_name (i g i' g' : Z) :
  frame_filename i g = frame_filename i' g' -> str i = str i'.
Proof.
  intros H. pose proof (split_underscore i g) as Hs.
  rewrite H, split_underscore in Hs. congruence.
Qed.

Lemma contains_skip (c0 : ascii) (sub' a rest : string) :
  all_chars (fun c => negb (Ascii.eqb c c0)) a = true ->
  App.contains (String c0 sub') (a ++ rest) = App.contains (String c0 sub') rest.
Proof.
  induction a as [|c a IH]; intros H; [reflexivity|].
  simpl in H. apply andb_true_iff in H. destruct H as [Hc Ha].
  change ((String c a ++ rest)%string) with (String c (a ++ rest)).
  cbn [App.contains]. rewrite (prefix_first c0 c sub' _ Hc), (IH Ha).
  reflexivity.
Qed.

Lemma contains_at (sub rest : string) :
  App.contains sub (sub ++ rest) = true.
Proof.
  destruct sub as [|c sub].
  - destruct rest; reflexivity.
  - change ((String c sub ++ rest)%string) with (String c (sub ++ rest)).
    cbn [App.contains].
    change (String c (sub ++ rest)) with ((String c sub ++ rest)%string).
    rewrite prefix_app. reflexivity.
Qed.

Lemma group_text_of_name (i g : Z) :
  App.contains "_group_" (frame_filename i g) = true /\
  App.group_text (frame_filename i g) = App.Done (str g).
Proof.
  split.
  - unfold frame_filename.
    change ("frame_" ++ str i ++ "_group_" ++ str g ++ ".jpg")%string
      with ("frame" ++ String "_" (str i ++ "_group_" ++ str g ++ ".jpg"))%string.
    rewrite contains_skip by reflexivity.
    cbn [App.contains]. apply orb_true_iff. right.
    rewrite contains_skip by (apply str_without; reflexivity).
    apply contains_at.
  - unfold App.group_text. rewrite split_group. cbn [App.bind App.item nth_error].
    rewrite split_dot. reflexivity.
Qed.

(** X15: the group id is recovered from a snapshot name: for a file named
    by the processor for group [g], the test ['_group_' in f] of line 94
    holds, the text line 92 hands to [int] is the decimal numeral of [g],
    and so, [int] being the inverse of [str] on integers, the expression of
    line 92 evaluates to [g] without an exception. *)
Theorem group_id_from_name (int : string -> App.outcome Z) (i g : Z) :
  (forall z, int (str z) = App.Done z) ->
  App.contains "_group_" (frame_filename i g) = true /\
  App.group_text (frame_filename i g) = App.Done (str g) /\
  App.bind (App.group_text (frame_filename i g)) int = App.Done g.
Proof.
  intros Hint. destruct (group_text_of_name i g) as [Hc Ht].
  split; [exact Hc|]. split; [exact Ht|]. rewrite Ht. apply Hint.
Qed.

(** A snapshot name determines its frame and its group. *)
Lemma frame_filename_inj (i g i' g' : Z) :
  frame_filename i g = frame_filename i' g' -> i = i' /\ g = g'.
Proof.
  intros H. split; apply str_inj.
  - exact (second_part_of_name i g i' g' H).
  - pose proof (proj2 (group_text_of_name i g)) as Hg.
    rewrite H, (proj2 (group_text_of_name i' g')) in Hg. congruence.
Qed.

Lemma group_ids_entries (int : string -> App.outcome Z)
      (entries : list dir_entry) :
  (forall z, int (str z) = App.Done z) ->
  (forall name, In (Other name) entries ->
                App.contains "_group_" name = false) ->
  App.for_each (fun f => App.bind (App.group_text f) int)
               (filter (App.contains "_group_") (map entry_name entries))
  = App.Done (snapshot_groups entries).
Proof.
  intros Hint. induction entries as [|[i g|name] entries IH]; intros Hother.
  - reflexivity.
  - cbn [map entry_name filter snapshot_groups].
    destruct (group_text_of_name i g) as [-> Ht].
    cbn [App.for_each]. rewrite Ht. cbn [App.bind]. rewrite Hint.
    cbn [App.bind]. rewrite IH; [reflexivity|].
    intros n Hn. apply Hother. right. exact Hn.
  - cbn [map entry_name filter snapshot_groups].
    rewrite (Hother name) by (left; reflexivity).
    apply IH. intros n Hn. apply Hother. right. exact Hn.
Qed.

Lemma sorted_NoDup (l : list Z) : NoDup l -> NoDup (sorted l).
Proof.
  intros H. apply (Permutation_NoDup (Permutation_sym (sorted_perm l))), H.
Qed.

(** X16: the choices of the group selector: for a directory that holds
    snapshots named by the processor and, possibly, files whose names do
    not contain ["_group_"], lines 91-95 evaluate without an exception to
    the group ids of the snapshots, each once, in ascending order. *)
Theorem group_ids_of_directory (int : string -> App.outcome Z)
        (entries : list dir_entry) :
  (forall z, int (str z) = App.Done z) ->
  (forall name, In (Other name) entries ->
                App.contains "_group_" name = false) ->
  exists ids,
    App.group_ids int (map entry_name entries) = App.Done ids /\
    NoDup ids /\ StronglySorted Z.le ids /\
    forall g, In g ids <-> In g (snapshot_groups entries).
Proof.
  intros Hint Hother.
  exists (sorted (nodup Z.eq_dec (snapshot_groups entries))).
  split; [|split; [|split]].
  - unfold App.group_ids. rewrite (group_ids_entries int entries Hint Hother).
    reflexivity.
  - apply sorted_NoDup, NoDup_nodup.
  - apply sorted_ascending.
  - intros g. rewrite <- (nodup_In Z.eq_dec (snapshot_groups entries) g).
    split; intros H.
    + exact (Permutation_in _ (sorted_perm _) H).
    + exact (Permutation_in _ (Permutation_sym (sorted_perm _)) H).
Qed.

(** ** The snapshots shown for a group *)

Lemma prefix_app_same (a x y : string) :
  String.prefix (a ++ x) (a ++ y) = String.prefix x y.
Proof.
  induction a as [|c a IH]; [reflexivity|].
  change ((String c a ++ x)%string) with (String c (a ++ x)).
  change ((String c a ++ y)%string) with (String c (a ++ y)).
  rewrite prefix_same. exact IH.
Qed.

Lemma prefix_numeral_jpg (a b : string) :
  all_chars numeral_char a = true ->
  String.prefix a (b ++ ".jpg") = String.prefix a b.
Proof.
  revert b. induction a as [|c a IH]; intros b H.
  - destruct b; reflexivity.
  - simpl in H. apply andb_true_iff in H. destruct H as [Hc Ha].
    destruct b as [|d b].
    + change (("" ++ ".jpg")%string) with (String "." "jpg").
      rewrite prefix_first; [reflexivity|].
      rewrite Ascii.eqb_sym. apply (numeral_is_not "." c); [reflexivity|exact Hc].
    + change ((String d b ++ ".jpg")%string) with (String d (b ++ ".jpg")).
      simpl. destruct (ascii_dec c d); [apply IH, Ha | reflexivity].
Qed.

Lemma contains_group_prefix (i g g' : Z) :
  App.contains ("group_" ++ str g) (frame_filename i g')
  = String.prefix (str g) (str g').
Proof.
  unfold frame_filename.
  change ("group_" ++ str g)%string with (String "g" ("roup_" ++ str g)).
  change ("frame_" ++ str i ++ "_group_" ++ str g' ++ ".jpg")%string
    with ("frame_" ++ str i ++ "_" ++ String "g" ("roup_" ++ str g' ++ ".jp"
          ++ "g"))%string.
  rewrite contains_skip by reflexivity.
  rewrite contains_skip by (apply str_without; reflexivity).
  rewrite contains_skip by reflexivity.
  cbn [App.contains].
  rewrite prefix_same.
  rewrite (prefix_app_same "roup_" (str g) (str g' ++ ".jp" ++ "g")).
  change (".jp" ++ "g")%string with ".jpg"%string.
  rewrite prefix_numeral_jpg by apply str_numeral.
  replace (App.contains (String "g" ("roup_" ++ str g))
                        ("roup_" ++ str g' ++ ".jpg")) with false.
  - apply orb_false_r.
  - symmetry.
    change ("roup_" ++ str g' ++ ".jpg")%string
      with ("roup_" ++ str g' ++ ".jp" ++ "g")%string.
    rewrite contains_skip by reflexivity.
    rewrite contains_skip by (apply str_without; reflexivity).
    rewrite contains_skip by reflexivity.
    reflexivity.
Qed.

(** X17: the snapshots shown for a selected group are those whose group
    id, written in decimal, begins with the decimal numeral of the selected
    id: all the snapshots of the selected group, and with them those of any
    group whose number extends it (group 1 brings groups 10 to 19). *)
Theorem snapshots_shown_for_group (selected : Z) (snaps : list (Z * Z)) :
  App.snapshots_of_group selected
    (map (fun p => frame_filename (fst p) (snd p)) snaps)
  = map (fun p => frame_filename (fst p) (snd p))
        (filter (fun p => String.prefix (str selected) (str (snd p))) snaps).
Proof.
  unfold App.snapshots_of_group.
  induction snaps as [|[i g] snaps IH]; [reflexivity|].
  cbn [map filter fst snd]. rewrite contains_group_prefix, IH.
  destruct (String.prefix (str selected) (str g)); reflexivity.
Qed.

(** ** No snapshot is overwritten *)

Lemma append_inj (a x y : string) : (a ++ x = a ++ y)%string -> x = y.
Proof.
  induction a as [|c a IH]; simpl; [auto|]. intros [= H]. exact (IH H).
Qed.

Lemma path_join_name (dir : string) (i g : Z) :
  path_join dir (frame_filename i g)
  = (dir_prefix dir ++ frame_filename i g)%string.
Proof.
  unfold path_join, dir_prefix.
  assert (String.prefix "/" (frame_filename i g) = false) as -> by reflexivity.
  destruct (String.eqb dir "" || ends_with_sep dir)%bool; [reflexivity|].
  rewrite append_assoc. reflexivity.
Qed.

(** Snapshots of different frames or groups get different paths. *)
Lemma snapshot_path_inj (dir : string) (i g i' g' : Z) :
  path_join dir (frame_filename i g) = path_join dir (frame_filename i' g') ->
  i = i' /\ g = g'.
Proof.
  rewrite !path_join_name. intros H. apply append_inj in H.
  exact (frame_filename_inj _ _ _ _ H).
Qed.

Section SnapshotPaths.
Variable Point : Type.
Variable fit_predict : list Point -> list Z.
Variable slot : set_order.

Lemma continuation_rows_keys dir idx (grouped : Dict.t (list (Detection Point))) :
  NoDup (Dict.keys grouped) ->
  NoDup (map row_key (continuation_rows dir idx grouped)) /\
  forall r, In r (continuation_rows dir idx grouped) ->
    frame r = idx /\
    saved_frame_path r = path_join dir (frame_filename (frame r) (group_id r)).
Proof.
  intros ND. split.
  - unfold continuation_rows. destruct (idx mod 30 =? 0); [|constructor].
    rewrite map_map. unfold row_key. simpl.
    induction grouped as [|[g ms] grouped IH]; simpl; [constructor|].
    inversion ND as [|? ? Hg ND']; subst. constructor; [|exact (IH ND')].
    intros Hin. apply in_map_iff in Hin. destruct Hin as ([g' ms'] & [= <-] & Hin).
    apply Hg. apply (in_map fst) in Hin. exact Hin.
  - intros r Hr. apply continuation_rows_In in Hr.
    destruct Hr as (_ & g & ms & _ & ->). auto.
Qed.

Lemma snapshots_due_keys dir (frames : list (Frame Point)) : forall idx,
  NoDup (map row_key (snapshots_due _ fit_predict dir idx frames)) /\
  forall r, In r (snapshots_due _ fit_predict dir idx frames) ->
    idx <= frame r /\
    saved_frame_path r = path_join dir (frame_filename (frame r) (group_id r)).
Proof.
  induction frames as [|dets frames IH]; intros idx.
  - split; [constructor | intros r []].
  - cbn [snapshots_due].
    destruct (grouped_detections fit_predict dets) as [grouped|e] eqn:Hg.
    + destruct (continuation_rows_keys dir idx grouped
                  (grouped_detections_NoDup _ _ _ _ Hg)) as [ND1 H1].
      destruct (IH (idx + 1)) as [ND2 H2]. split.
      * rewrite map_app. apply NoDup_app; [exact ND1 | exact ND2|].
        intros k Hk1 Hk2. apply in_map_iff in Hk1, Hk2.
        destruct Hk1 as (r1 & <- & Hr1). destruct Hk2 as (r2 & Heq & Hr2).
        apply H1 in Hr1. apply H2 in Hr2. unfold row_key in Heq.
        injection Heq as Hf _. lia.
      * intros r Hr. apply in_app_or in Hr. destruct Hr as [Hr|Hr].
        -- apply H1 in Hr. destruct Hr as [-> Hp]. split; [lia | exact Hp].
        -- apply H2 in Hr. destruct Hr as [Hf Hp]. split; [lia | exact Hp].
    + split; [constructor | intros r []].
Qed.

Lemma NoDup_paths dir (rows : list Row) :
  NoDup (map row_key rows) ->
  (forall r, In r rows ->
     saved_frame_path r
     = path_join dir (frame_filename (frame r) (group_id r))) ->
  NoDup (map saved_frame_path rows).
Proof.
  induction rows as [|r rows IH]; simpl; intros ND Hp; [constructor|].
  inversion ND as [|? ? Hr ND']; subst. constructor.
  - intros Hin. apply in_map_iff in Hin. destruct Hin as (r' & Heq & Hr').
    apply Hr. apply in_map_iff. exists r'. split; [|exact Hr'].
    rewrite (Hp r) in Heq by (left; reflexivity).
    rewrite (Hp r') in Heq by (right; exact Hr').
    apply snapshot_path_inj in Heq. unfold row_key.
    destruct Heq as [-> ->]. reflexivity.
  - apply IH; [exact ND'|]. intros r' Hr'. apply Hp. right. exact Hr'.
Qed.

(** X18: within a run no snapshot file is written twice: the paths of the
    images saved by a run from a fresh processor are pairwise different,
    the file name determining the frame and the group. *)
Theorem snapshots_are_not_overwritten (cap : VideoCapture Point) dir ys st' :
  process_video_and_yield_frames fit_predict slot cap (init dir) = Ok (ys, st') ->
  NoDup (saved_frames st') /\
  forall r r', In r (log_file st') -> In r' (log_file st') ->
    is_closing r = false -> is_closing r' = false ->
    saved_frame_path r = saved_frame_path r' ->
    frame r = frame r' /\ group_id r = group_id r'.
Proof.
  intros H. destruct (driver_inv _ _ _ _ _ _ _ H) as (st1 & Hloop & ->).
  destruct (frames_loop_rows _ _ _ _ _ _ _ _ _ Hloop) as (_ & _ & _ & Hsv).
  destruct (frames_loop_inv _ _ _ _ dir _ _ _ _ _ _ (run_inv_init dir) Hloop)
    as [_ (_ & _ & _ & _ & _ & _ & _ & Hco)].
  destruct (log_final_spec (frame_count cap) st1) as (_ & Hs & _ & Hl).
  destruct (snapshots_due_keys dir (frames_read
              (if isOpened cap then stream cap else [])) 0) as [ND Hp].
  split.
  - rewrite Hs, Hsv. simpl. apply (NoDup_paths dir); [exact ND|].
    intros r Hr. apply Hp, Hr.
  - assert (Hshape : forall r,
              In r (log_file (_log_final_dwell_times (frame_count cap) st1)) ->
              is_closing r = false -> continuation_shape dir r).
    { intros r Hr Hc. rewrite Hl in Hr. apply in_app_or in Hr.
      destruct Hr as [Hr|Hr]; [exact (Hco r Hr Hc)|].
      apply in_map_iff in Hr. destruct Hr as (e & <- & _). discriminate. }
    intros r r' Hr Hr' Hc Hc' Heq.
    destruct (Hshape r Hr Hc) as (_ & _ & Hp1).
    destruct (Hshape r' Hr' Hc') as (_ & _ & Hp2).
    rewrite Hp1, Hp2 in Heq. exact (snapshot_path_inj _ _ _ _ _ Heq).
Qed.

End SnapshotPaths.

(** ** The end-of-stream rows *)

Section EndRows.
Variable Point : Type.
Variable fit_predict : list Point -> list Z.
Variable slot : set_order.

Lemma start_frames_entry_key (table : Dict.t Group) :
  start_frames table = map snd (map entry_key table).
Proof. unfold start_frames. rewrite map_map. reflexivity. Qed.

Lemma sorted_map_filter (A : Type) (f : A -> Z) (p : A -> bool) (l : list A) :
  StronglySorted Z.le (map f l) ->
  StronglySorted Z.le (map f (filter p l)).
Proof.
  induction l as [|a l IH]; simpl; intros H; [constructor|].
  apply StronglySorted_inv in H. destruct H as [Hs Ha].
  destruct (p a); simpl; [|exact (IH Hs)].
  constructor; [exact (IH Hs)|].
  rewrite Forall_forall in *. intros y Hy. apply Ha.
  apply in_map_iff in Hy. destruct Hy as (x & <- & Hx).
  apply filter_In in Hx. apply in_map, Hx.
Qed.

Lemma frame_keeps_table_order (dets : Frame Point) idx st st1 :
  (StronglySorted Z.le (start_frames (active_groups st)) /\
   forall s, In s (start_frames (active_groups st)) -> s < idx) ->
  process_single_frame fit_predict slot dets idx st = Ok st1 ->
  StronglySorted Z.le (start_frames (active_groups st1)) /\
  forall s, In s (start_frames (active_groups st1)) -> s < idx + 1.
Proof.
  intros [Hs Hb] H.
  destruct (frame_effect _ _ _ _ _ _ _ H)
    as (grouped & gs & _ & _ & _ & _ & _ & He & _).
  assert (Hst : start_frames (active_groups st1) =
                start_frames (filter (fun e => in_set (fst e) (Dict.keys grouped))
                                     (active_groups st))
                ++ map (fun _ => idx)
                       (fresh_keys (active_groups st) (Dict.keys grouped))).
  { rewrite !start_frames_entry_key, He, map_app.
    rewrite (map_map (fun g : Z => (g, idx)) snd). reflexivity. }
  assert (Hold : forall s,
            In s (start_frames (filter (fun e => in_set (fst e) (Dict.keys grouped))
                                       (active_groups st))) -> s < idx).
  { intros s Hin. apply Hb. unfold start_frames in *.
    apply in_map_iff in Hin. destruct Hin as (e & <- & Hin).
    apply filter_In in Hin. apply in_map_iff. exists e. tauto. }
  assert (Hnew : forall s,
            In s (map (fun _ : Z => idx)
                      (fresh_keys (active_groups st) (Dict.keys grouped))) ->
            s = idx).
  { intros s Hin. apply in_map_iff in Hin. destruct Hin as (? & <- & _).
    reflexivity. }
  rewrite Hst. split.
  - apply StronglySorted_app.
    + apply sorted_map_filter. exact Hs.
    + apply (StronglySorted_const idx). exact Hnew.
    + intros a b Ha Hb'. apply Hold in Ha. apply Hnew in Hb'. lia.
  - intros s Hin. apply in_app_or in Hin. destruct Hin as [Hin|Hin].
    + apply Hold in Hin. lia.
    + apply Hnew in Hin. lia.
Qed.

Lemma dwell_times_descend total (table : Dict.t Group) :
  StronglySorted Z.le (start_frames table) ->
  StronglySorted Z.ge (map dwell_time_frames (map (final_entry total) table)).
Proof.
  unfold start_frames. induction table as [|e table IH]; simpl; intros H;
    [constructor|].
  apply StronglySorted_inv in H. destruct H as [Hs Ha].
  constructor; [exact (IH Hs)|].
  rewrite Forall_forall in *. intros y Hy.
  apply in_map_iff in Hy. destruct Hy as (r & <- & Hr).
  apply in_map_iff in Hr. destruct Hr as (e' & <- & He'). simpl.
  assert (start_frame (snd e) <= start_frame (snd e')).
  { apply Ha. apply in_map_iff. exists e'. auto. }
  lia.
Qed.

(** X19: the end-of-stream rows of a run from a fresh processor are one
    row per group left in the table, in table order, for pairwise distinct
    group ids, and the oldest group comes first: the dwell times of these
    rows never increase from one row to the next.  No other row of the log
    carries the marker [video_end]. *)
Theorem end_rows_oldest_first (cap : VideoCapture Point) dir ys st' :
  process_video_and_yield_frames fit_predict slot cap (init dir) = Ok (ys, st') ->
  end_rows (log_file st') =
    map (final_entry (frame_count cap)) (active_groups st') /\
  NoDup (map group_id (end_rows (log_file st'))) /\
  StronglySorted Z.ge (map dwell_time_frames (end_rows (log_file st'))).
Proof.
  intros H. destruct (driver_inv _ _ _ _ _ _ _ H) as (st1 & Hloop & ->).
  destruct (frames_loop_inv _ _ _ _ dir _ _ _ _ _ _ (run_inv_init dir) Hloop)
    as [_ (_ & _ & NDk & _ & _ & _ & Hcl & _)].
  assert (Hinit : StronglySorted Z.le (start_frames (active_groups (init dir))) /\
                  forall s, In s (start_frames (active_groups (init dir))) ->
                            s < 0).
  { split; [constructor | intros s []]. }
  destruct (frames_loop_invariant _ fit_predict slot
              (fun idx st =>
                 StronglySorted Z.le (start_frames (active_groups st)) /\
                 forall s, In s (start_frames (active_groups st)) -> s < idx)
              (frame_count cap)
              (fun idx st dets st1 => frame_keeps_table_order dets idx st st1)
              _ _ _ _ _ Hinit Hloop) as [Hs _].
  destruct (log_final_spec (frame_count cap) st1) as (_ & _ & Ha & Hl).
  assert (Hend : end_rows (log_file (_log_final_dwell_times (frame_count cap) st1))
                 = map (final_entry (frame_count cap)) (active_groups st1)).
  { rewrite Hl. unfold end_rows. rewrite filter_app.
    replace (filter (fun r => String.eqb (saved_frame_path r) video_end)
                    (log_file st1)) with (@nil Row).
    - simpl. apply forallb_filter_id, forallb_forall. intros r Hr.
      apply in_map_iff in Hr. destruct Hr as (e & <- & _). reflexivity.
    - symmetry. apply filter_none. intros r Hr.
      destruct (is_closing r) eqn:Hc.
      + destruct (Hcl r Hr Hc) as [Hp _]. rewrite Hp. reflexivity.
      + unfold is_closing in Hc. apply orb_false_iff in Hc. apply Hc. }
  rewrite Hend, Ha. split; [reflexivity|]. split.
  - rewrite map_map. exact NDk.
  - apply dwell_times_descend, Hs.
Qed.

(** X20: when the source reports a negative frame count, no value a
    completed run yields is a fraction of the video processed: every value
    is at most 0, and all but the first are negative (the count being the
    integer part of a float, hence above [- 2 ^ 1024], no quotient is
    rounded to zero). *)
Theorem negative_frame_count_progress (cap : VideoCapture Point) st ys st' :
  process_video_and_yield_frames fit_predict slot cap st = Ok (ys, st') ->
  frame_count cap < 0 ->
  forall i q, nth_error ys i = Some q ->
    (q <= 0)%Q /\
    ((0 < i)%nat -> - 2 ^ 1024 < frame_count cap -> (q < 0)%Q).
Proof.
  intros H Hneg i q Hq.
  destruct (driver_inv _ _ _ _ _ _ _ H) as (st1 & Hloop & _).
  destruct (frames_loop_yields _ _ _ _ _ _ _ _ _ Hloop) as [_ Hy].
  pose proof (Hy i q Hq) as Hd. rewrite Z.add_0_l in Hd.
  destruct (true_div_negative _ _ _ (Nat2Z.is_nonneg i) Hneg Hd) as [H0 H1].
  split; [exact H0|]. intros Hi Hb. apply H1; [lia | exact Hb].
Qed.

End EndRows.

(** ** Captions of files that are not snapshots *)

Lemma split_go_cons (sep s : string) :
  forall skip cur, exists p ps, App.split_go sep s skip cur = p :: ps.
Proof.
  induction s as [|c s IH]; intros skip cur; cbn [App.split_go].
  - eauto.
  - destruct skip as [|k]; [|apply IH].
    destruct (String.prefix sep (String c s)); [|apply IH].
    eauto.
Qed.

Lemma split_go_underscore (s : string) :
  forall cur,
    if App.contains "_" s
    then exists a b rest, App.split_go "_" s 0 cur = a :: b :: rest
    else App.split_go "_" s 0 cur = [(cur ++ s)%string].
Proof.
  induction s as [|c s IH]; intros cur.
  - simpl. rewrite append_nil_r. reflexivity.
  - cbn [App.contains App.split_go].
    destruct (String.prefix "_" (String c s)) eqn:Hp.
    + cbn [orb].
      destruct (split_go_cons "_" s (String.length "_" - 1) "") as (b & rest & ->).
      eauto.
    + cbn [orb]. specialize (IH (cur ++ String c "")%string).
      destruct (App.contains "_" s).
      * exact IH.
      * rewrite IH, append_assoc. reflexivity.
Qed.

(** X21: the caption of a grid cell is built for every directory entry
    the browser displays, and the expression fails on a file name without
    an underscore: [caption] raises [IndexError] exactly for the names that
    hold no underscore, and it never raises [ValueError]. *)
Theorem caption_fails_without_underscore (name : string) :
  (App.caption name = App.Fail App.IndexError <->
   App.contains "_" name = false) /\
  App.caption name <> App.Fail App.ValueError.
Proof.
  unfold App.caption, App.split. cbn [App.bind].
  pose proof (split_go_underscore name "") as H.
  destruct (App.contains "_" name).
  - destruct H as (a & b & rest & ->). cbn. split; [|discriminate].
    split; discriminate.
  - rewrite H. cbn. split; [|discriminate]. split; reflexivity.
Qed.

(** ** The properties on concrete runs *)

Section Instances.
Import Clusterer Scenario Sample.

Lemma log_is_append_only_witness :
  run cap_three = Ok (yields_three, final_three) /\
  exists rows,
    log_file final_three =
      log_file (init "out") ++ rows
      ++ map (final_entry 3) (active_groups final_three) /\
    forall r, In r rows -> 0 <= frame r < 3.
Proof.
  split; [reflexivity|].
  exact (log_is_append_only pt fit_predict SetOrder.ascending cap_three (init "out")
           yields_three final_three eq_refl).
Defined.

Lemma continuation_rows_of_run_witness :
  run cap_two_groups = Ok (yields_two_groups, final_two_groups) /\
  filter is_continuation (log_file final_two_groups) =
    [mkRow 0 1 3 "1-5-6" 0 "out/frame_0_group_1.jpg";
     mkRow 0 0 3 "2-3-4" 0 "out/frame_0_group_0.jpg"].
Proof.
  split; [reflexivity|].
  exact (continuation_rows_of_run pt fit_predict SetOrder.ascending
           cap_two_groups (init "out") yields_two_groups final_two_groups
           eq_refl).
Defined.

Lemma snapshots_match_continuation_rows_witness :
  run cap_three = Ok (yields_three, final_three) /\
  saved_frames final_three =
    map saved_frame_path (filter is_continuation (log_file final_three)).
Proof.
  split; [reflexivity|].
  exact (snapshots_match_continuation_rows pt fit_predict SetOrder.ascending cap_three "out"
           yields_three final_three eq_refl).
Defined.

Lemma rows_in_frame_order_witness :
  run cap_three = Ok (yields_three, final_three) /\
  Z.of_nat (List.length (frames_of cap_three)) - 1 <= frame_count cap_three /\
  frames_ascend (log_file final_three).
Proof.
  assert (H : Z.of_nat (List.length (frames_of cap_three)) - 1
              <= frame_count cap_three) by (cbv; discriminate).
  split; [reflexivity|]. split; [exact H|].
  exact (rows_in_frame_order pt fit_predict SetOrder.ascending cap_three "out"
           yields_three final_three eq_refl H).
Defined.

Lemma closing_rows_repeat_last_snapshot_witness :
  In termination_row (log_file final_three) /\
  is_closing termination_row = true /\
  backfilled (log_file final_three) 1 termination_row.
Proof.
  assert (Hin : In termination_row (log_file final_three))
    by (right; left; reflexivity).
  split; [exact Hin|]. split; [reflexivity|].
  exact (proj1 (closing_rows_repeat_last_snapshot pt fit_predict SetOrder.ascending cap_three
                  "out" yields_three final_three termination_row
                  eq_refl Hin eq_refl) eq_refl).
Defined.

Lemma last_log_after_frame_witness :
  step together 1 after_frame0 = Ok after_frame1 /\
  exists grp,
    Dict.get 0 (active_groups after_frame1) = Some grp /\
    last_log grp = Some snapshot_row.
Proof.
  split; [reflexivity|].
  exact (last_log_after_frame pt fit_predict SetOrder.ascending together 1 after_frame0
           after_frame1 clusters_together 0 together
           eq_refl eq_refl (or_introl eq_refl)).
Defined.

Lemma clusters_split_the_detections_witness :
  grouped_detections fit_predict together = Ok clusters_together /\
  (forall g ms, In (g, ms) clusters_together ->
     g <> -1 /\ ms <> [] /\ forall d, In d ms -> In d together) /\
  members_total pt clusters_together = 3%nat.
Proof.
  split; [reflexivity|].
  split.
  - exact (proj1 (clusters_split_the_detections pt fit_predict together
                    clusters_together eq_refl)).
  - exact (proj2 (clusters_split_the_detections pt fit_predict together
                    clusters_together eq_refl) (le_n 3)).
Defined.


Lemma zero_frame_count_raises_witness :
  frame_count cap_zero = 0 /\
  frames_of cap_zero = [together] /\
  tracked together = true /\
  run cap_zero = Raise ZeroDivisionError /\
  forall n, (0 < n)%nat ->
    iterate fit_predict SetOrder.ascending n 0 (start cap_zero) (init "out")
    = Raise ZeroDivisionError.
Proof.
  split; [reflexivity|]. split; [reflexivity|]. split; [reflexivity|].
  exact (zero_frame_count_raises pt fit_predict SetOrder.ascending cap_zero
           (init "out") together [] clusters_together
           eq_refl eq_refl eq_refl eq_refl).
Defined.

Lemma early_stop_is_not_finalized_witness :
  two_steps = Ok (yields_two, gen_two, after_two) /\
  gen_two <> Exhausted /\
  List.length yields_two = 2%nat /\
  (forall r, In r (log_file after_two) -> saved_frame_path r <> video_end) /\
  (forall e, In e (active_groups after_two) ->
     forall r, In r (log_file after_two) -> is_closing r = true ->
               closing_key r <> entry_key e).
Proof.
  split; [reflexivity|].
  exact (early_stop_is_not_finalized pt fit_predict SetOrder.ascending cap_three "out" 2
           yields_two gen_two after_two eq_refl (le_S 2 2 (le_n 2))).
Defined.

Lemma noise_is_never_a_group_witness :
  run cap_three = Ok (yields_three, final_three) /\
  (forall r, In r (log_file final_three) -> group_id r <> -1) /\
  (forall g, In g (Dict.keys (active_groups final_three)) -> g <> -1).
Proof.
  split; [reflexivity|].
  exact (noise_is_never_a_group pt fit_predict SetOrder.ascending cap_three "out"
           yields_three final_three eq_refl).
Defined.

Lemma member_ids_ascend_witness :
  step one_untracked 0 (init "out") = Ok after_untracked /\
  In untracked_row (rows_written (init "out") after_untracked) /\
  exists ms ids,
    Dict.get 0 clusters_untracked = Some ms /\
    member_ids untracked_row = join "-" (map str ids) /\
    StronglySorted Z.le ids /\
    Permutation ids (member_ids_of ms).
Proof.
  assert (Hin : In untracked_row (rows_written (init "out") after_untracked))
    by (left; reflexivity).
  split; [reflexivity|]. split; [exact Hin|].
  exact (member_ids_ascend pt fit_predict SetOrder.ascending one_untracked 0 (init "out")
           after_untracked clusters_untracked untracked_row
           eq_refl eq_refl Hin eq_refl).
Defined.

Lemma group_id_from_name_witness :
  App.contains "_group_" (frame_filename 30 12) = true /\
  App.group_text (frame_filename 30 12) = App.Done (str 12) /\
  App.bind (App.group_text (frame_filename 30 12)) App.int_of_numeral
  = App.Done 12.
Proof.
  exact (group_id_from_name App.int_of_numeral 30 12 int_of_numeral_str).
Defined.

Lemma group_ids_of_directory_witness :
  (forall name, In (Other name) listing ->
                App.contains "_group_" name = false) /\
  exists ids,
    App.group_ids App.int_of_numeral (map entry_name listing) = App.Done ids /\
    NoDup ids /\ StronglySorted Z.le ids /\
    forall g, In g ids <-> In g (snapshot_groups listing).
Proof.
  assert (H : forall name, In (Other name) listing ->
                           App.contains "_group_" name = false).
  { intros name [H|[H|[H|[H|[]]]]]; try discriminate H.
    injection H as <-. reflexivity. }
  split; [exact H|].
  exact (group_ids_of_directory App.int_of_numeral listing
           int_of_numeral_str H).
Defined.

Lemma snapshots_are_not_overwritten_witness :
  run cap_three = Ok (yields_three, final_three) /\
  NoDup (saved_frames final_three) /\
  forall r r', In r (log_file final_three) -> In r' (log_file final_three) ->
    is_closing r = false -> is_closing r' = false ->
    saved_frame_path r = saved_frame_path r' ->
    frame r = frame r' /\ group_id r = group_id r'.
Proof.
  split; [reflexivity|].
  exact (snapshots_are_not_overwritten pt fit_predict SetOrder.ascending cap_three "out"
           yields_three final_three eq_refl).
Defined.

Lemma end_rows_oldest_first_witness :
  run cap_three = Ok (yields_three, final_three) /\
  end_rows (log_file final_three) = [final_row] /\
  NoDup (map group_id (end_rows (log_file final_three))) /\
  StronglySorted Z.ge (map dwell_time_frames (end_rows (log_file final_three))).
Proof.
  split; [reflexivity|].
  exact (end_rows_oldest_first pt fit_predict SetOrder.ascending cap_three "out"
           yields_three final_three eq_refl).
Defined.

Lemma negative_frame_count_progress_witness :
  run cap_negative = Ok (yields_negative, final_negative) /\
  frame_count cap_negative < 0 /\
  forall i q, nth_error yields_negative i = Some q ->
    (q <= 0)%Q /\
    ((0 < i)%nat -> - 2 ^ 1024 < frame_count cap_negative -> (q < 0)%Q).
Proof.
  split; [reflexivity|]. split; [reflexivity|].
  exact (negative_frame_count_progress pt fit_predict SetOrder.ascending cap_negative
           (init "out") yields_negative final_negative eq_refl eq_refl).
Defined.

(** Two groups that disappear in the same frame: the table holds group 1
    before group 0, and the set of line 132 is iterated in ascending order,
    so the termination row of group 0 is written first. *)
Example two_groups_disappear_in_set_order :
  step two_groups 0 (init "out") = Ok after_two_groups /\
  Dict.keys (active_groups after_two_groups) = [1; 0] /\
  run cap_two_vanish = Ok ([0%Q; (1 # 2)%Q], final_two_vanish) /\
  filter is_closing (log_file final_two_vanish) =
    [mkRow 1 0 3 "2-3-4" 1 disappeared; mkRow 1 1 3 "1-5-6" 1 disappeared] /\
  active_groups final_two_vanish = [].
Proof. repeat split; reflexivity. Qed.

End Instances.
